(** * OpenMOC [Geometry]: a shallow embedding of [src/host/Geometry.cpp]

    The development follows the C++ class member by member.  Registries
    ([std::map<short int, T*>]) are finite maps keyed by the entity id,
    [double] values are extended rationals with the two infinities and a
    not-a-number value, [int] values are integers, and every call of
    [log_printf(ERROR, ...)] ends the running operation. *)

From Stdlib Require Import ZArith QArith String Lia.
From stdpp Require Import base option list gmap.

Local Close Scope Q_scope.
Local Open Scope Z_scope.

(** ** Outcomes of an operation *)

(** The ways an operation of the class stops without a result. *)
Inductive failure : Type :=
| ERROR (msg : string)   (* log_printf(ERROR, msg, ...) *)
| OutOfRange             (* std::out_of_range thrown by std::map::at *)
| NullPointer.           (* a member call through a NULL pointer *)

(** Modelled from the spec: [log_printf] is not part of [Geometry.cpp];
    section 7 lists the conditions it reports at level ERROR as fatal, so
    the call ends the operation with [Abort (ERROR msg)].  [Spin] is the
    answer of a loop or recursion that has used up its fuel. *)
Inductive outcome (A : Type) : Type :=
| Return (a : A)
| Abort (f : failure)
| Spin.

Arguments Return {A} a.
Arguments Abort {A} f.
Arguments Spin {A}.

#[global] Instance outcome_ret : MRet outcome := fun A a => Return a.

#[global] Instance outcome_bind : MBind outcome := fun A B k m =>
  match m with
  | Return a => k a
  | Abort f => Abort f
  | Spin => Spin
  end.

(** [m.at(k)] on a registry. *)
Definition at_ {V : Type} (m : gmap Z V) (k : Z) : outcome V :=
  match m !! k with
  | Some v => Return v
  | None => Abort OutOfRange
  end.

(** ** The [double] type *)

Inductive double : Type :=
| NaN
| NegInf
| Fin (q : Q)
| PosInf.

(** [std::numeric_limits<double>::max()], an integer: (2^53 - 1) * 2^971. *)
Definition DBL_MAX_Z : Z := Eval vm_compute in (2 ^ 53 - 1) * 2 ^ 971.
Definition DBL_MAX : Q := inject_Z DBL_MAX_Z.

Definition Qltb (a b : Q) : bool :=
  Qnum a * Zpos (Qden b) <? Qnum b * Zpos (Qden a).

(** [a < b] *)
Definition dlt (a b : double) : bool :=
  match a, b with
  | NaN, _ | _, NaN => false
  | _, NegInf => false
  | NegInf, _ => true
  | PosInf, _ => false
  | Fin _, PosInf => true
  | Fin x, Fin y => Qltb x y
  end.

(** [a > b] *)
Definition dgt (a b : double) : bool := dlt b a.

(** [a == b] *)
Definition deq (a b : double) : bool :=
  match a, b with
  | NegInf, NegInf | PosInf, PosInf => true
  | Fin x, Fin y => Qeq_bool x y
  | _, _ => false
  end.

(** [a != b] *)
Definition dne (a b : double) : bool := negb (deq a b).

(** A rational result becomes a [double]: beyond [DBL_MAX] it overflows to
    an infinity.  Rounding of results inside the range is not modelled. *)
Definition dround (q : Q) : double :=
  if Qltb DBL_MAX q then PosInf
  else if Qltb q (Qopp DBL_MAX) then NegInf
  else Fin (Qred q).

Definition dneg (a : double) : double :=
  match a with
  | NaN => NaN
  | NegInf => PosInf
  | PosInf => NegInf
  | Fin x => Fin (Qopp x)
  end.

Definition dadd (a b : double) : double :=
  match a, b with
  | NaN, _ | _, NaN => NaN
  | PosInf, NegInf | NegInf, PosInf => NaN
  | PosInf, _ | _, PosInf => PosInf
  | NegInf, _ | _, NegInf => NegInf
  | Fin x, Fin y => dround (Qplus x y)
  end.

Definition dsub (a b : double) : double := dadd a (dneg b).

Definition dsign (a : double) : Z :=
  match a with
  | NaN => 0
  | NegInf => -1
  | PosInf => 1
  | Fin x => Z.sgn (Qnum x)
  end.

Definition dmul (a b : double) : double :=
  match a, b with
  | NaN, _ | _, NaN => NaN
  | Fin x, Fin y => dround (Qmult x y)
  | _, _ =>
      match dsign a * dsign b with
      | 0 => NaN
      | Zpos _ => PosInf
      | Zneg _ => NegInf
      end
  end.

(** A [double] of the model that a C++ [double] can hold. *)
Definition representable (a : double) : Prop :=
  match a with
  | Fin x => dlt (Fin DBL_MAX) a = false /\ dlt a (Fin (Qopp DBL_MAX)) = false
  | _ => True
  end.

(** ** Entities held by the registries *)

(** Modelled from the spec: the enumerations [boundaryType], [cellType],
    [universeType] and [coordType] are declared outside [Geometry.cpp],
    which names their values. *)
Inductive boundaryType : Type := REFLECTIVE | VACUUM | BOUNDARY_NONE.

(** Modelled from the spec: the class [Surface] is declared outside
    [Geometry.cpp]; sections 3 and 4.2 give it an id, a boundary type and
    axis-aligned extents that may be infinite.  The fields are the getters
    [Geometry.cpp] calls. *)
Record Surface : Type := {
  Surface_getId : Z;
  Surface_getBoundaryType : boundaryType;
  Surface_getXMin : double;
  Surface_getXMax : double;
  Surface_getYMin : double;
  Surface_getYMax : double
}.

(** Modelled from the spec: the class [Material] is declared outside
    [Geometry.cpp]; section 6 gives it an id, a number of energy groups and
    a self-check.  [Material_checkSigmaT] is [false] when [checkSigmaT()]
    throws. *)
Record Material : Type := {
  Material_getId : Z;
  Material_getNumEnergyGroups : Z;
  Material_checkSigmaT : bool
}.

Inductive cellType : Type := MATERIAL | FILL.

(** Modelled from the spec: the classes [Cell], [CellBasic] and
    [CellFill] are declared outside [Geometry.cpp]; section 3 has a material
    cell hold a material id and a fill cell the id of a universe, both with
    their surfaces.  [Cell_getMaterial] is read of a [CellBasic] (type
    MATERIAL), [Cell_getUniverseFillId] of a [CellFill] (type FILL);
    [Cell_getSurfaces] lists the surface map in ascending key order, each
    surface under its id with the sign of its side. *)
Record Cell : Type := {
  Cell_getId : Z;
  Cell_getUniverse : Z;
  Cell_getType : cellType;
  Cell_getMaterial : Z;
  Cell_getUniverseFillId : Z;
  Cell_getSurfaces : list (Z * Surface)
}.

Inductive universeType : Type := SIMPLE | LATTICE.

(** Modelled from the spec: the classes [Universe] and [Lattice] are
    declared outside [Geometry.cpp]; section 3 describes them.  [Lattice]
    derives from [Universe], so one record holds both: the last four fields are those of the derived class and are read
    after a [static_cast<Lattice*>].  [Universe_getCells] lists the cell map
    in ascending key order, the order a [std::map] iterator visits it;
    [Universe_region_map] is the map from cell id to FSR offset behind
    [getFSR(cell_id)]; the lattice tables are indexed [[i][j]] with [i] along
    y and [j] along x, each entry of [Lattice_getUniverses] the id of the
    universe in that lattice cell. *)
Record Universe : Type := {
  Universe_getId : Z;
  Universe_getType : universeType;
  Universe_getCells : list (Z * Cell);
  Universe_region_map : list (Z * Z);
  Lattice_getNumX : Z;
  Lattice_getNumY : Z;
  Lattice_getUniverses : list (list Z);
  Lattice_region_map : list (list Z)
}.

(** ** The [Geometry] class *)

(** The data members the constructor and the methods of [Geometry.cpp]
    assign and read.  The two arrays filled by
    [initializeFlatSourceRegions] are left out. *)

Record Geometry : Type := {
  _x_min : double;
  _y_min : double;
  _x_max : double;
  _y_max : double;
  _top_bc : bool;
  _bottom_bc : bool;
  _left_bc : bool;
  _right_bc : bool;
  _num_FSRs : Z;
  _num_groups : Z;
  _max_seg_length : double;
  _min_seg_length : double;
  _materials : gmap Z Material;
  _surfaces : gmap Z Surface;
  _cells : gmap Z Cell;
  _universes : gmap Z Universe;
  _lattices : gmap Z Universe
}.

(** [Geometry::Geometry()] *)
Definition Geometry_new : Geometry := {|
  _x_min := Fin DBL_MAX;
  _y_min := Fin DBL_MAX;
  _x_max := Fin (Qopp DBL_MAX);
  _y_max := Fin (Qopp DBL_MAX);
  _max_seg_length := Fin (inject_Z 0);
  _min_seg_length := PosInf;
  _top_bc := true;
  _bottom_bc := true;
  _left_bc := true;
  _right_bc := true;
  _num_FSRs := 0;
  _num_groups := 0;
  _materials := ∅;
  _surfaces := ∅;
  _cells := ∅;
  _universes := ∅;
  _lattices := ∅
|}.

Definition getHeight (g : Geometry) : double := dsub (_y_max g) (_y_min g).
Definition getWidth (g : Geometry) : double := dsub (_x_max g) (_x_min g).
Definition getXMin (g : Geometry) : double := _x_min g.
Definition getXMax (g : Geometry) : double := _x_max g.
Definition getYMin (g : Geometry) : double := _y_min g.
Definition getYMax (g : Geometry) : double := _y_max g.
Definition getBCTop (g : Geometry) : bool := _top_bc g.
Definition getBCBottom (g : Geometry) : bool := _bottom_bc g.
Definition getBCLeft (g : Geometry) : bool := _left_bc g.
Definition getBCRight (g : Geometry) : bool := _right_bc g.
Definition getNumFSRs (g : Geometry) : Z := _num_FSRs g.
Definition getMaxSegmentLength (g : Geometry) : double := _max_seg_length g.
Definition getMinSegmentLength (g : Geometry) : double := _min_seg_length g.

(** Field assignments. *)
Definition set_x_min (g : Geometry) (x : double) (bc : bool) : Geometry :=
  {| _x_min := x; _y_min := _y_min g; _x_max := _x_max g; _y_max := _y_max g;
     _top_bc := _top_bc g; _bottom_bc := _bottom_bc g; _left_bc := bc;
     _right_bc := _right_bc g; _num_FSRs := _num_FSRs g;
     _num_groups := _num_groups g; _max_seg_length := _max_seg_length g;
     _min_seg_length := _min_seg_length g; _materials := _materials g;
     _surfaces := _surfaces g; _cells := _cells g; _universes := _universes g;
     _lattices := _lattices g |}.

Definition set_x_max (g : Geometry) (x : double) (bc : bool) : Geometry :=
  {| _x_min := _x_min g; _y_min := _y_min g; _x_max := x; _y_max := _y_max g;
     _top_bc := _top_bc g; _bottom_bc := _bottom_bc g; _left_bc := _left_bc g;
     _right_bc := bc; _num_FSRs := _num_FSRs g;
     _num_groups := _num_groups g; _max_seg_length := _max_seg_length g;
     _min_seg_length := _min_seg_length g; _materials := _materials g;
     _surfaces := _surfaces g; _cells := _cells g; _universes := _universes g;
     _lattices := _lattices g |}.

Definition set_y_min (g : Geometry) (y : double) (bc : bool) : Geometry :=
  {| _x_min := _x_min g; _y_min := y; _x_max := _x_max g; _y_max := _y_max g;
     _top_bc := _top_bc g; _bottom_bc := bc; _left_bc := _left_bc g;
     _right_bc := _right_bc g; _num_FSRs := _num_FSRs g;
     _num_groups := _num_groups g; _max_seg_length := _max_seg_length g;
     _min_seg_length := _min_seg_length g; _materials := _materials g;
     _surfaces := _surfaces g; _cells := _cells g; _universes := _universes g;
     _lattices := _lattices g |}.

Definition set_y_max (g : Geometry) (y : double) (bc : bool) : Geometry :=
  {| _x_min := _x_min g; _y_min := _y_min g; _x_max := _x_max g; _y_max := y;
     _top_bc := bc; _bottom_bc := _bottom_bc g; _left_bc := _left_bc g;
     _right_bc := _right_bc g; _num_FSRs := _num_FSRs g;
     _num_groups := _num_groups g; _max_seg_length := _max_seg_length g;
     _min_seg_length := _min_seg_length g; _materials := _materials g;
     _surfaces := _surfaces g; _cells := _cells g; _universes := _universes g;
     _lattices := _lattices g |}.

Definition set_num_groups (g : Geometry) (n : Z) : Geometry :=
  {| _x_min := _x_min g; _y_min := _y_min g; _x_max := _x_max g;
     _y_max := _y_max g; _top_bc := _top_bc g; _bottom_bc := _bottom_bc g;
     _left_bc := _left_bc g; _right_bc := _right_bc g;
     _num_FSRs := _num_FSRs g; _num_groups := n;
     _max_seg_length := _max_seg_length g;
     _min_seg_length := _min_seg_length g; _materials := _materials g;
     _surfaces := _surfaces g; _cells := _cells g; _universes := _universes g;
     _lattices := _lattices g |}.

Definition set_num_FSRs (g : Geometry) (n : Z) : Geometry :=
  {| _x_min := _x_min g; _y_min := _y_min g; _x_max := _x_max g;
     _y_max := _y_max g; _top_bc := _top_bc g; _bottom_bc := _bottom_bc g;
     _left_bc := _left_bc g; _right_bc := _right_bc g;
     _num_FSRs := n; _num_groups := _num_groups g;
     _max_seg_length := _max_seg_length g;
     _min_seg_length := _min_seg_length g; _materials := _materials g;
     _surfaces := _surfaces g; _cells := _cells g; _universes := _universes g;
     _lattices := _lattices g |}.

Definition set_seg_lengths (g : Geometry) (mx mn : double) : Geometry :=
  {| _x_min := _x_min g; _y_min := _y_min g; _x_max := _x_max g;
     _y_max := _y_max g; _top_bc := _top_bc g; _bottom_bc := _bottom_bc g;
     _left_bc := _left_bc g; _right_bc := _right_bc g;
     _num_FSRs := _num_FSRs g; _num_groups := _num_groups g;
     _max_seg_length := mx; _min_seg_length := mn;
     _materials := _materials g; _surfaces := _surfaces g;
     _cells := _cells g; _universes := _universes g;
     _lattices := _lattices g |}.

Definition set_materials (g : Geometry) (m : gmap Z Material) : Geometry :=
  {| _x_min := _x_min g; _y_min := _y_min g; _x_max := _x_max g;
     _y_max := _y_max g; _top_bc := _top_bc g; _bottom_bc := _bottom_bc g;
     _left_bc := _left_bc g; _right_bc := _right_bc g;
     _num_FSRs := _num_FSRs g; _num_groups := _num_groups g;
     _max_seg_length := _max_seg_length g;
     _min_seg_length := _min_seg_length g; _materials := m;
     _surfaces := _surfaces g; _cells := _cells g; _universes := _universes g;
     _lattices := _lattices g |}.

Definition set_surfaces (g : Geometry) (m : gmap Z Surface) : Geometry :=
  {| _x_min := _x_min g; _y_min := _y_min g; _x_max := _x_max g;
     _y_max := _y_max g; _top_bc := _top_bc g; _bottom_bc := _bottom_bc g;
     _left_bc := _left_bc g; _right_bc := _right_bc g;
     _num_FSRs := _num_FSRs g; _num_groups := _num_groups g;
     _max_seg_length := _max_seg_length g;
     _min_seg_length := _min_seg_length g; _materials := _materials g;
     _surfaces := m; _cells := _cells g; _universes := _universes g;
     _lattices := _lattices g |}.

Definition set_cells (g : Geometry) (m : gmap Z Cell) : Geometry :=
  {| _x_min := _x_min g; _y_min := _y_min g; _x_max := _x_max g;
     _y_max := _y_max g; _top_bc := _top_bc g; _bottom_bc := _bottom_bc g;
     _left_bc := _left_bc g; _right_bc := _right_bc g;
     _num_FSRs := _num_FSRs g; _num_groups := _num_groups g;
     _max_seg_length := _max_seg_length g;
     _min_seg_length := _min_seg_length g; _materials := _materials g;
     _surfaces := _surfaces g; _cells := m; _universes := _universes g;
     _lattices := _lattices g |}.

Definition set_universes (g : Geometry) (m : gmap Z Universe) : Geometry :=
  {| _x_min := _x_min g; _y_min := _y_min g; _x_max := _x_max g;
     _y_max := _y_max g; _top_bc := _top_bc g; _bottom_bc := _bottom_bc g;
     _left_bc := _left_bc g; _right_bc := _right_bc g;
     _num_FSRs := _num_FSRs g; _num_groups := _num_groups g;
     _max_seg_length := _max_seg_length g;
     _min_seg_length := _min_seg_length g; _materials := _materials g;
     _surfaces := _surfaces g; _cells := _cells g; _universes := m;
     _lattices := _lattices g |}.

Definition set_lattices (g : Geometry) (m : gmap Z Universe) : Geometry :=
  {| _x_min := _x_min g; _y_min := _y_min g; _x_max := _x_max g;
     _y_max := _y_max g; _top_bc := _top_bc g; _bottom_bc := _bottom_bc g;
     _left_bc := _left_bc g; _right_bc := _right_bc g;
     _num_FSRs := _num_FSRs g; _num_groups := _num_groups g;
     _max_seg_length := _max_seg_length g;
     _min_seg_length := _min_seg_length g; _materials := _materials g;
     _surfaces := _surfaces g; _cells := _cells g; _universes := _universes g;
     _lattices := m |}.

(** [m.find(k) != m.end()] *)
Definition found {V : Type} (m : gmap Z V) (k : Z) : bool :=
  match m !! k with
  | Some _ => true
  | None => false
  end.

(** *** [addMaterial] *)

Definition addMaterial (g : Geometry) (material : Material) : outcome Geometry :=
  if found (_materials g) (Material_getId material) then
    Abort (ERROR "Cannot add a second material with id = %d")
  else if Material_getNumEnergyGroups material =? 0 then
    Abort (ERROR "Unable to add material %d since it does not contain any nuclear data")
  else
    g ← (if _num_groups g =? 0 then
           Return (set_num_groups g (Material_getNumEnergyGroups material))
         else if negb (_num_groups g =? Material_getNumEnergyGroups material) then
           Abort (ERROR "Unable to add material %d with %d energy groups")
         else Return g);
    if Material_checkSigmaT material then
      Return (set_materials g
                (<[Material_getId material := material]> (_materials g)))
    else Abort (ERROR "Unable to add material with id = %d. Backtrace:").

(** *** [addSurface] *)

(** The four tests of one [case] of the [switch], with [bc] the value the
    case assigns to the edge flags (1 for REFLECTIVE, 0 for VACUUM). *)
Definition update_boundaries (g : Geometry) (surface : Surface) (bc : bool)
  : Geometry :=
  let g :=
    if dlt (Surface_getXMin surface) (_x_min g)
       && dne (Surface_getXMin surface) NegInf
    then set_x_min g (Surface_getXMin surface) bc else g in
  let g :=
    if dgt (Surface_getXMax surface) (_x_max g)
       && dne (Surface_getXMax surface) PosInf
    then set_x_max g (Surface_getXMax surface) bc else g in
  let g :=
    if dlt (Surface_getYMin surface) (_y_min g)
       && dne (Surface_getYMin surface) NegInf
    then set_y_min g (Surface_getYMin surface) bc else g in
  if dgt (Surface_getYMax surface) (_y_max g)
     && dne (Surface_getYMax surface) PosInf
  then set_y_max g (Surface_getYMax surface) bc else g.

Definition addSurface (g : Geometry) (surface : Surface) : outcome Geometry :=
  if found (_surfaces g) (Surface_getId surface) then Return g
  else
    let g := set_surfaces g
               (<[Surface_getId surface := surface]> (_surfaces g)) in
    match Surface_getBoundaryType surface with
    | REFLECTIVE => Return (update_boundaries g surface true)
    | VACUUM => Return (update_boundaries g surface false)
    | BOUNDARY_NONE => Return g
    end.

(** A sequence of [addSurface] calls, first to last. *)
Fixpoint addSurfaces (g : Geometry) (l : list Surface) : outcome Geometry :=
  match l with
  | [] => Return g
  | surface :: rest => g ← addSurface g surface; addSurfaces g rest
  end.

(** *** [addUniverse] *)

(** The loop that follows the insertion sets the cached pointer of every
    FILL cell naming the new universe.  The model keeps no cached pointers:
    [getUniverseFill()] and [Lattice::getUniverse(j, i)] are read as a lookup
    of the stored id in [_universes], which is what the caches hold once
    [initializeCellFillPointers] and [addLattice] have run. *)
Definition addUniverse (g : Geometry) (universe : Universe) : outcome Geometry :=
  if found (_universes g) (Universe_getId universe) then
    Abort (ERROR "Cannot add a second universe with id = %d")
  else
    Return (set_universes g
              (<[Universe_getId universe := universe]> (_universes g))).

(** *** [addCell] *)

(** [new Universe(id)] *)
Definition Universe_new (id : Z) : Universe :=
  {| Universe_getId := id; Universe_getType := SIMPLE;
     Universe_getCells := []; Universe_region_map := [];
     Lattice_getNumX := 0; Lattice_getNumY := 0;
     Lattice_getUniverses := []; Lattice_region_map := [] |}.

(** Insertion into a [std::map] kept as a list in ascending key order: a
    key already present keeps its entry. *)
Fixpoint map_insert {V : Type} (k : Z) (v : V) (m : list (Z * V)) : list (Z * V) :=
  match m with
  | [] => [(k, v)]
  | (k', v') :: rest =>
      if k <? k' then (k, v) :: m
      else if k =? k' then m
      else (k', v') :: map_insert k v rest
  end.

(** Modelled from the spec: [Universe::addCell] is not part of
    [Geometry.cpp]; section 4.1 has it append the cell to the universe. *)
Definition Universe_addCell (u : Universe) (cell : Cell) : Universe :=
  {| Universe_getId := Universe_getId u; Universe_getType := Universe_getType u;
     Universe_getCells := map_insert (Cell_getId cell) cell (Universe_getCells u);
     Universe_region_map := Universe_region_map u;
     Lattice_getNumX := Lattice_getNumX u; Lattice_getNumY := Lattice_getNumY u;
     Lattice_getUniverses := Lattice_getUniverses u;
     Lattice_region_map := Lattice_region_map u |}.

Definition addCell (g : Geometry) (cell : Cell) : outcome Geometry :=
  if found (_cells g) (Cell_getId cell) then
    Abort (ERROR "Cannot add a second cell with id = %d")
  else if match Cell_getType cell with
          | MATERIAL => negb (found (_materials g) (Cell_getMaterial cell))
          | FILL => false
          end then
    Abort (ERROR "Attempted to add cell with material with id = %d, but material does not exist")
  else
    g ← addSurfaces g (snd <$> Cell_getSurfaces cell);
    let g := set_cells g (<[Cell_getId cell := cell]> (_cells g)) in
    g ← (if found (_universes g) (Cell_getUniverse cell) then Return g
         else addUniverse g (Universe_new (Cell_getUniverse cell)));
    univ ← at_ (_universes g) (Cell_getUniverse cell);
    let univ := Universe_addCell univ cell in
    (* the universe object is shared with [_lattices] when it is a lattice *)
    let g := set_universes g (<[Cell_getUniverse cell := univ]> (_universes g)) in
    Return (if found (_lattices g) (Cell_getUniverse cell)
            then set_lattices g (<[Cell_getUniverse cell := univ]> (_lattices g))
            else g).

(** *** [addLattice] *)

(** [table.at(i).at(j)] on a vector of vectors. *)
Definition at2 {V : Type} (t : list (list V)) (i j : Z) : outcome V :=
  if (i <? 0) || (j <? 0) then Abort OutOfRange
  else
    match t !! Z.to_nat i with
    | Some row =>
        match row !! Z.to_nat j with
        | Some v => Return v
        | None => Abort OutOfRange
        end
    | None => Abort OutOfRange
    end.

(** A [for] loop over [lo <= i < hi] whose body may end the operation. *)
Definition for_each (ks : list Z) (body : Z -> outcome unit) : outcome unit :=
  foldl (fun acc k => _ ← acc; body k) (Return ()) ks.

Definition addLattice (g : Geometry) (lattice : Universe) : outcome Geometry :=
  if found (_lattices g) (Universe_getId lattice) then
    Abort (ERROR "Cannot add a second lattice with id = %d")
  else if found (_universes g) (Universe_getId lattice) then
    Abort (ERROR "Cannot add a second universe (lattice) with id = %d")
  else
    _ ← for_each (seqZ 0 (Lattice_getNumY lattice)) (fun i =>
          for_each (seqZ 0 (Lattice_getNumX lattice)) (fun j =>
            universe_id ← at2 (Lattice_getUniverses lattice) i j;
            if negb (found (_universes g) universe_id) then
              Abort (ERROR "Attempted to create lattice containing universe with id = %d, but universe does not exist")
            else Return ()));
    let g := set_lattices g
               (<[Universe_getId lattice := lattice]> (_lattices g)) in
    addUniverse g lattice.

(** ** Lookup of a cell by flat source region id *)

Definition INT_MAX : Z := 2147483647.

(** A loop whose body may end the operation, threading the loop variables. *)
Fixpoint foldM {A S : Type} (body : S -> A -> outcome S) (s : S) (l : list A)
  : outcome S :=
  match l with
  | [] => Return s
  | a :: rest => s ← body s a; foldM body s rest
  end.

(** Lookup in a [std::map] kept as a list. *)
Fixpoint map_find {V : Type} (m : list (Z * V)) (k : Z) : option V :=
  match m with
  | [] => None
  | (k', v) :: rest => if k =? k' then Some v else map_find rest k
  end.

(** Modelled from the spec: [Universe::getFSR(cell_id)] is not part of
    [Geometry.cpp]; it reads the universe's FSR offset for a cell (sections
    3 and 4.6), here [_region_map.at(cell_id)]. *)
Definition Universe_getFSR (univ : Universe) (cell_id : Z) : outcome Z :=
  match map_find (Universe_region_map univ) cell_id with
  | Some fsr => Return fsr
  | None => Abort OutOfRange
  end.

(** Modelled from the spec: [Lattice::getFSR(lat_x, lat_y)] is not part of
    [Geometry.cpp]; it reads the FSR offset of lattice cell [(j, i)]. *)
Definition Lattice_getFSR (lat : Universe) (lat_x lat_y : Z) : outcome Z :=
  at2 (Lattice_region_map lat) lat_y lat_x.

(** [lat->getUniverse(j, i)]: the cached pointer of lattice cell [(j, i)],
    NULL ([None]) when the id names no universe of the registry. *)
Definition Lattice_getUniverse (g : Geometry) (lat : Universe) (lat_x lat_y : Z)
  : outcome (option Universe) :=
  id ← at2 (Lattice_getUniverses lat) lat_y lat_x;
  Return (_universes g !! id).

(** [cellfill->getUniverseFill()]: the cached pointer of a FILL cell. *)
Definition CellFill_getUniverseFill (g : Geometry) (cell : Cell) : option Universe :=
  _universes g !! Cell_getUniverseFillId cell.

(** The local variables of the SIMPLE branch. *)
Record simple_scan : Type := {
  scan_cell : option Cell;
  scan_max_id : Z;
  scan_cell_min : option Cell;
  scan_min_id : Z
}.

(** One turn of the loop over the cells of a SIMPLE universe. *)
Definition simple_scan_step (univ : Universe) (fsr_id : Z) (st : simple_scan)
    (entry : Z * Cell) : outcome simple_scan :=
  fsr_map_id ← Universe_getFSR univ entry.1;
  let st :=
    if (fsr_map_id <=? fsr_id) && (fsr_map_id >=? scan_max_id st) then
      {| scan_cell := Some entry.2; scan_max_id := fsr_map_id;
         scan_cell_min := scan_cell_min st; scan_min_id := scan_min_id st |}
    else st in
  Return (if fsr_map_id <? scan_min_id st then
            {| scan_cell := scan_cell st; scan_max_id := scan_max_id st;
               scan_cell_min := Some entry.2; scan_min_id := fsr_map_id |}
          else st).

(** The local variables of the lattice branch. *)
Record lattice_scan : Type := {
  lscan_max_id : Z;
  lscan_next_univ : option Universe
}.

(** One turn of the inner loop over the cells of a lattice. *)
Definition lattice_scan_step (g : Geometry) (lat : Universe) (fsr_id : Z)
    (i : Z) (st : lattice_scan) (j : Z) : outcome lattice_scan :=
  fsr_map_id ← Lattice_getFSR lat j i;
  if (fsr_map_id <=? fsr_id) && (fsr_map_id >=? lscan_max_id st) then
    next_univ ← Lattice_getUniverse g lat j i;
    Return {| lscan_max_id := fsr_map_id; lscan_next_univ := next_univ |}
  else Return st.

(** [p == NULL] *)
Definition is_NULL {A : Type} (p : option A) : bool :=
  match p with
  | None => true
  | Some _ => false
  end.

(** [Cell* Geometry::findCell(Universe* univ, int fsr_id)].  One unit of
    fuel is spent per level of the recursion.  [fsr_id -= max_id] is run only
    with [0 <= max_id <= fsr_id], so the [int] subtraction never wraps.  A
    universe without cell leaves [cell_min] NULL, and both branches read
    [cell_min->getType()]. *)
Fixpoint findCell_fsr (fuel : nat) (g : Geometry) (univ : Universe) (fsr_id : Z)
  : outcome (option Cell) :=
  match fuel with
  | O => Spin
  | S fuel =>
      if (fsr_id <? -1) || (fsr_id >? _num_FSRs g) then
        Abort (ERROR "Tried to find the cell for an fsr_id which does not exist: %d")
      else
        match Universe_getType univ with
        | SIMPLE =>
            st ← foldM (simple_scan_step univ fsr_id)
                   {| scan_cell := None; scan_max_id := 0;
                      scan_cell_min := None; scan_min_id := INT_MAX |}
                   (Universe_getCells univ);
            if scan_max_id st >? fsr_id then
              match scan_cell_min st with
              | None => Abort NullPointer
              | Some cell_min =>
                  match Cell_getType cell_min with
                  | MATERIAL =>
                      Abort (ERROR "Could not find cell for fsr_id = %d: max_id(%d) > fsr_id(%d)")
                  | FILL =>
                      match CellFill_getUniverseFill g cell_min with
                      | None => Abort NullPointer
                      | Some fill => findCell_fsr fuel g fill fsr_id
                      end
                  end
              end
            else
              let fsr_id := fsr_id - scan_max_id st in
              match scan_cell_min st with
              | None => Abort NullPointer
              | Some cell_min =>
                  match Cell_getType cell_min with
                  | MATERIAL =>
                      if fsr_id =? 0 then Return (scan_cell st)
                      else Abort (ERROR "Could not find cell for fsr_id = %d: fsr_id = %d and cell type = MATERIAL")
                  | FILL =>
                      match CellFill_getUniverseFill g cell_min with
                      | None => Abort NullPointer
                      | Some fill => findCell_fsr fuel g fill fsr_id
                      end
                  end
              end
        | LATTICE =>
            st ← foldM (fun st i =>
                          foldM (lattice_scan_step g univ fsr_id i) st
                            (seqZ 0 (Lattice_getNumX univ)))
                   {| lscan_max_id := 0; lscan_next_univ := None |}
                   (seqZ 0 (Lattice_getNumY univ));
            if (lscan_max_id st >? fsr_id) || is_NULL (lscan_next_univ st) then
              Abort (ERROR "No lattice cell found for fsr = %d, max_id = %d")
            else
              match lscan_next_univ st with
              | None => Abort NullPointer
              | Some next_univ =>
                  findCell_fsr fuel g next_univ (fsr_id - lscan_max_id st)
              end
        end
  end.

(** [CellBasic* Geometry::findCell(int fsr_id)] *)
Definition findCell_fsr_root (fuel : nat) (g : Geometry) (fsr_id : Z)
  : outcome (option Cell) :=
  univ ← at_ (_universes g) 0;
  findCell_fsr fuel g univ fsr_id.

(** ** Local coordinates *)

Inductive coordType : Type := UNIV | LAT.

(** Modelled from the spec: the class [LocalCoords] is declared outside
    [Geometry.cpp]; section 3 has a node record a universe with a cell, or a
    lattice with a lattice cell, and a local point.  One node of the linked
    list, with the getters [Geometry.cpp] calls. *)
Record LocalCoords : Type := {
  LocalCoords_getType : coordType;
  LocalCoords_getUniverse : Z;
  LocalCoords_getCell : Z;
  LocalCoords_getLattice : Z;
  LocalCoords_getLatticeX : Z;
  LocalCoords_getLatticeY : Z;
  LocalCoords_getX : double;
  LocalCoords_getY : double
}.

(** A linked list of [LocalCoords] from its head: [getNext()] is the
    successor in the list, [getPrev()] the predecessor. *)
Abbreviation chain := (list LocalCoords).

(** 32-bit [int] addition. *)
Definition int_add (a b : Z) : Z := (a + b + 2 ^ 31) mod 2 ^ 32 - 2 ^ 31.

(** [int Geometry::findFSRId(LocalCoords* coords)] *)
Definition findFSRId (g : Geometry) (coords : chain) : outcome Z :=
  foldM (fun fsr_id curr =>
           match LocalCoords_getType curr with
           | LAT =>
               lattice ← at_ (_lattices g) (LocalCoords_getLattice curr);
               fsr ← Lattice_getFSR lattice (LocalCoords_getLatticeX curr)
                       (LocalCoords_getLatticeY curr);
               Return (int_add fsr_id fsr)
           | UNIV =>
               universe ← at_ (_universes g) (LocalCoords_getUniverse curr);
               fsr ← Universe_getFSR universe (LocalCoords_getCell curr);
               Return (int_add fsr_id fsr)
           end) 0 coords.

(** Modelled from the spec: the class [Point] is declared outside
    [Geometry.cpp]; a point of the plane. *)
Record Point : Type := {
  Point_getX : double;
  Point_getY : double
}.

Definition LocalCoords_getPoint (c : LocalCoords) : Point :=
  {| Point_getX := LocalCoords_getX c; Point_getY := LocalCoords_getY c |}.

(** Modelled from the spec: the constructor of [LocalCoords] is defined
    outside [Geometry.cpp].  [LocalCoords(x, y)] followed by
    [setUniverse(universe)]: a UNIVERSE node at the point, with no cell and
    no lattice recorded yet. *)
Definition LocalCoords_new (x y : double) (universe : Z) : LocalCoords :=
  {| LocalCoords_getType := UNIV; LocalCoords_getUniverse := universe;
     LocalCoords_getCell := -1; LocalCoords_getLattice := -1;
     LocalCoords_getLatticeX := -1; LocalCoords_getLatticeY := -1;
     LocalCoords_getX := x; LocalCoords_getY := y |}.

(** Modelled from the spec: the constant is defined outside
    [Geometry.cpp]; section 4.5 fixes it at 1e-10. *)
Definition TINY_MOVE : double := Fin (1 # 10000000000).

(** ** The collaborators of [Geometry]

    The members of [Universe], [Lattice], [Cell], [LocalCoords] and [Point]
    that [Geometry.cpp] calls and that are defined in other files, with
    [cos] and [sin] of the C library: they are parameters of the traversal.
    A function that receives a [LocalCoords*] takes the whole linked list and
    answers with the list as the call leaves it: [Universe_findCell] and
    [Lattice_findCell] are called on the head of the list,
    [Lattice_findNextLatticeCell] on its lowest level. *)
Class Primitives : Type := {
  cos : double -> double;
  sin : double -> double;
  Universe_findCell :
    Universe -> chain -> gmap Z Universe -> outcome (option Cell * chain);
  Lattice_findCell :
    Universe -> chain -> gmap Z Universe -> outcome (option Cell * chain);
  Lattice_findNextLatticeCell :
    Universe -> chain -> double -> gmap Z Universe ->
    outcome (option Cell * chain);
  Cell_minSurfaceDist : Cell -> Point -> double -> double * Point;
  Point_distance : Point -> Point -> double;
  LocalCoords_adjustCoords : chain -> double -> double -> chain;
  LocalCoords_updateMostLocal : chain -> Point -> chain
}.

Section Traversal.
Context `{Primitives}.

(** [Cell* Geometry::findCell(LocalCoords* coords)] *)
Definition findCell (g : Geometry) (coords : chain)
  : outcome (option Cell * chain) :=
  match coords with
  | [] => Abort NullPointer
  | head :: _ =>
      univ ← at_ (_universes g) (LocalCoords_getUniverse head);
      match Universe_getType univ with
      | SIMPLE => Universe_findCell univ coords (_universes g)
      | LATTICE => Lattice_findCell univ coords (_universes g)
      end
  end.

(** [Cell* Geometry::findFirstCell(LocalCoords* coords, double angle)] *)
Definition findFirstCell (g : Geometry) (coords : chain) (angle : double)
  : outcome (option Cell * chain) :=
  let delta_x := dmul (cos angle) TINY_MOVE in
  let delta_y := dmul (sin angle) TINY_MOVE in
  let coords := LocalCoords_adjustCoords coords delta_x delta_y in
  findCell g coords.

(** The loop of [findNextCell] that compares the saved list [test] with the
    relocated list, both walked by [getPrev()] from their lowest level:
    the arguments list the nodes from the lowest level up, the empty list
    is the NULL pointer.  The answer is [true] when the loop runs
    [dist = infinity; break]. *)
Fixpoint lattice_cell_differs (test_curr coords_curr : chain) : bool :=
  match test_curr, coords_curr with
  | t :: test_prev, c :: coords_prev =>
      if negb (LocalCoords_getUniverse t =? 0)
         && negb (LocalCoords_getUniverse c =? 0) then
        match LocalCoords_getType c, LocalCoords_getType t with
        | LAT, LAT =>
            if negb (LocalCoords_getLatticeX c =? LocalCoords_getLatticeX t)
               || negb (LocalCoords_getLatticeY c =? LocalCoords_getLatticeY t)
            then true
            else lattice_cell_differs test_prev coords_prev
        | _, _ => lattice_cell_differs test_prev coords_prev
        end
      else false
  | _, _ => false
  end.

(** The loop "retrace linkedlist from lowest level".  The argument lists the
    nodes from [curr] up.  [Some l] is the list left by [curr->prune()], from
    its new lowest level up; [None] means the loop ended without pruning. *)
Fixpoint retrace (curr_up : chain) : outcome (option chain) :=
  match curr_up with
  | [] => Return None
  | curr :: above =>
      if LocalCoords_getUniverse curr =? 0 then Return None
      else
        match above with
        | [] => Abort NullPointer
        | prev :: _ =>
            match LocalCoords_getType prev with
            | LAT => Return (Some above)
            | UNIV => retrace above
            end
        end
  end.

Definition retrace_from_lowest (coords : chain) : outcome chain :=
  pruned ← retrace (reverse coords);
  Return (match pruned with
          | Some up => reverse up
          | None => coords
          end).

(** The loop "retrace through the lattices", one unit of fuel per turn.
    [curr] is [coords->getLowestLevel()] at the start of every turn. *)
Fixpoint lattice_crossing (fuel : nat) (g : Geometry) (coords : chain)
    (angle : double) : outcome (option Cell * chain) :=
  match fuel with
  | O => Spin
  | S fuel =>
      match last coords with
      | None => Abort NullPointer
      | Some curr =>
          if LocalCoords_getUniverse curr =? 0 then Return (None, coords)
          else
            match LocalCoords_getType curr with
            | LAT =>
                lattice ← at_ (_lattices g) (LocalCoords_getLattice curr);
                '(cell, moved) ← Lattice_findNextLatticeCell lattice coords
                                   angle (_universes g);
                match cell with
                | Some c => Return (Some c, moved)
                | None =>
                    (* curr->getPrev()->prune(): curr is the node at depth
                       [length coords - 1] *)
                    match (length coords - 1)%nat with
                    | O => Abort NullPointer
                    | S k =>
                        coords ← retrace_from_lowest (take (S k) moved);
                        lattice_crossing fuel g coords angle
                    end
                end
            | UNIV => lattice_crossing fuel g coords angle
            end
      end
  end.

(** The branch taken when [dist] is infinite. *)
Definition leave_by_lattice (fuel : nat) (g : Geometry) (coords : chain)
    (angle : double) : outcome (option Cell * chain) :=
  coords ← retrace_from_lowest coords;
  lattice_crossing fuel g coords angle.

(** [Cell* Geometry::findNextCell(LocalCoords* coords, double angle)] *)
Definition findNextCell (fuel : nat) (g : Geometry) (coords : chain)
    (angle : double) : outcome (option Cell * chain) :=
  '(cell, coords) ← findCell g coords;
  match cell with
  | None => Return (None, coords)
  | Some cell =>
      match last coords with
      | None => Abort NullPointer
      | Some lowest_level =>
          let '(dist, surf_intersection) :=
            Cell_minSurfaceDist cell (LocalCoords_getPoint lowest_level) angle in
          if dne dist PosInf then
            let delta_x := dmul (cos angle) TINY_MOVE in
            let delta_y := dmul (sin angle) TINY_MOVE in
            let test := coords in
            let coords := LocalCoords_updateMostLocal coords surf_intersection in
            let coords := LocalCoords_adjustCoords coords delta_x delta_y in
            '(cell, coords) ← findCell g coords;
            let dist :=
              if lattice_cell_differs (reverse test) (reverse coords) then PosInf
              else dist in
            let dist :=
              match cell with
              | None => PosInf
              | Some _ => dist
              end in
            if dne dist PosInf then Return (cell, coords)
            else
              (* test.copyCoords(coords) *)
              let coords := test in
              if deq dist PosInf then leave_by_lattice fuel g coords angle
              else Return (None, coords)
          else
            if deq dist PosInf then leave_by_lattice fuel g coords angle
            else Return (None, coords)
      end
  end.

(** ** [segmentize] *)

(** Modelled from the spec: [segment] and [Track] are declared outside
    [Geometry.cpp]; section 6 gives a segment a length, a material and a
    region id, section 4.8 a track a start point, an angle and the segments
    appended to it. *)
Record segment : Type := {
  _length : double;
  _material : Material;
  _region_id : Z
}.

Record Track : Type := {
  Track_getStart : Point;
  Track_getPhi : double;
  Track_segments : list segment
}.

Definition Track_addSegment (track : Track) (s : segment) : Track :=
  {| Track_getStart := Track_getStart track; Track_getPhi := Track_getPhi track;
     Track_segments := Track_segments track ++ [s] |}.

(** The [while (curr != NULL)] loop, one unit of fuel per turn.
    [FP_PRECISION] is taken to be [double]. *)
Fixpoint segmentize_loop (fuel : nat) (g : Geometry) (track : Track)
    (curr : option Cell) (segment_end : chain)
  : outcome (Geometry * Track) :=
  match fuel with
  | O => Spin
  | S fuel =>
      match curr with
      | None => Return (g, track)
      | Some prev =>
          let segment_start := segment_end in
          '(curr, segment_end) ← findNextCell fuel g segment_end
                                   (Track_getPhi track);
          match segment_start, segment_end with
          | start :: _, end_ :: _ =>
              let segment_length :=
                Point_distance (LocalCoords_getPoint end_)
                  (LocalCoords_getPoint start) in
              material ← at_ (_materials g) (Cell_getMaterial prev);
              let g :=
                set_seg_lengths g
                  (if dgt segment_length (_max_seg_length g)
                   then segment_length else _max_seg_length g)
                  (if dlt segment_length (_min_seg_length g)
                   then segment_length else _min_seg_length g) in
              region_id ← findFSRId g segment_start;
              if deq (LocalCoords_getX start) (LocalCoords_getX end_)
                 && deq (LocalCoords_getY start) (LocalCoords_getY end_) then
                Abort (ERROR "Created a segment with the same start and end point: x = %f, y = %f")
              else
                let track :=
                  Track_addSegment track
                    {| _length := segment_length; _material := material;
                       _region_id := region_id |} in
                segmentize_loop fuel g track curr segment_end
          | _, _ => Abort NullPointer
          end
      end
  end.

(** [void Geometry::segmentize(Track* track)] *)
Definition segmentize (fuel : nat) (g : Geometry) (track : Track)
  : outcome (Geometry * Track) :=
  let x0 := Point_getX (Track_getStart track) in
  let y0 := Point_getY (Track_getStart track) in
  let phi := Track_getPhi track in
  let segment_end := [LocalCoords_new x0 y0 0] in
  '(curr, segment_end) ← findFirstCell g segment_end phi;
  match curr with
  | None =>
      Abort (ERROR "Could not find a cell containing the start point of this track: %s")
  | Some _ => segmentize_loop fuel g track curr segment_end
  end.

End Traversal.

(** ** A world of axis-parallel planes

    An instance of the collaborators for geometries whose surfaces are the
    planes x = c and y = c and for rays along +x (phi = 0), enough to run
    [Geometry] on concrete inputs.  The two lattice members stay parameters
    of the world. *)
Module World.
Section World.

Variable lattice_findCell :
  Universe -> chain -> gmap Z Universe -> outcome (option Cell * chain).
Variable lattice_findNextLatticeCell :
  Universe -> chain -> double -> gmap Z Universe ->
  outcome (option Cell * chain).

Definition zero : double := Fin (inject_Z 0).
Definition one : double := Fin (inject_Z 1).

(** [cos] and [sin]: only phi = 0 is tabulated. *)
Definition cosine (angle : double) : double := if deq angle zero then one else NaN.
Definition sine (angle : double) : double := if deq angle zero then zero else NaN.

(** The plane x = c has x extents [c, c] and infinite y extents. *)
Definition x_plane (s : Surface) : option double :=
  match Surface_getXMin s, Surface_getYMin s with
  | Fin c, NegInf => if deq (Fin c) (Surface_getXMax s) then Some (Fin c) else None
  | _, _ => None
  end.

Definition y_plane (s : Surface) : option double :=
  match Surface_getYMin s, Surface_getXMin s with
  | Fin c, NegInf => if deq (Fin c) (Surface_getYMax s) then Some (Fin c) else None
  | _, _ => None
  end.

(** Modelled from the spec: [Cell::cellContains] is defined outside
    [Geometry.cpp]; by section 4.3 a cell contains a point when the point
    lies on the required side of every surface of the cell.  The sign of the
    key is the side: x > c or y > c for a positive key. *)
Definition on_side (p : Point) (entry : Z * Surface) : bool :=
  match x_plane entry.2, y_plane entry.2 with
  | Some c, _ => if 0 <? entry.1 then dgt (Point_getX p) c else dlt (Point_getX p) c
  | None, Some c => if 0 <? entry.1 then dgt (Point_getY p) c else dlt (Point_getY p) c
  | None, None => true
  end.

Definition cellContains (cell : Cell) (p : Point) : bool :=
  forallb (on_side p) (Cell_getSurfaces cell).

(** Modelled from the spec: [Cell::minSurfaceDist] is defined outside
    [Geometry.cpp]; by section 4.3 it is the least forward distance to a
    surface of the cell, with the intersection point, and infinite when the
    ray meets none.  Along +x the ray meets the planes x = c with c ahead of
    the point. *)
Definition minSurfaceDist (cell : Cell) (p : Point) (angle : double)
  : double * Point :=
  if deq angle zero then
    foldl (fun best entry =>
             match x_plane entry.2 with
             | Some c =>
                 let d := dsub c (Point_getX p) in
                 if dlt zero d && dlt d best.1 then
                   (d, {| Point_getX := c; Point_getY := Point_getY p |})
                 else best
             | None => best
             end)
          (PosInf, p) (Cell_getSurfaces cell)
  else (NaN, p).

Definition dabs (a : double) : double := if dlt a zero then dneg a else a.

(** Modelled from the spec: [Point::distance] is defined outside
    [Geometry.cpp]; the Euclidean distance of section 4.8, computed for two
    points on a line parallel to an axis. *)
Definition distance (p q : Point) : double :=
  if deq (Point_getY p) (Point_getY q) then dabs (dsub (Point_getX p) (Point_getX q))
  else if deq (Point_getX p) (Point_getX q) then dabs (dsub (Point_getY p) (Point_getY q))
  else NaN.

Definition translate (dx dy : double) (c : LocalCoords) : LocalCoords :=
  {| LocalCoords_getType := LocalCoords_getType c;
     LocalCoords_getUniverse := LocalCoords_getUniverse c;
     LocalCoords_getCell := LocalCoords_getCell c;
     LocalCoords_getLattice := LocalCoords_getLattice c;
     LocalCoords_getLatticeX := LocalCoords_getLatticeX c;
     LocalCoords_getLatticeY := LocalCoords_getLatticeY c;
     LocalCoords_getX := dadd (LocalCoords_getX c) dx;
     LocalCoords_getY := dadd (LocalCoords_getY c) dy |}.

(** Modelled from the spec: [LocalCoords::adjustCoords] is defined outside
    [Geometry.cpp]; the nudge of sections 4.5 and 4.7 displaces the point,
    and with it its local image at every level of the list. *)
Definition adjustCoords (coords : chain) (dx dy : double) : chain :=
  translate dx dy <$> coords.

(** Modelled from the spec: [LocalCoords::updateMostLocal] is defined
    outside [Geometry.cpp]; by section 4.7 it takes the point of the lowest
    level to [p], here by one displacement of the whole list. *)
Definition updateMostLocal (coords : chain) (p : Point) : chain :=
  match last coords with
  | Some lowest =>
      adjustCoords coords (dsub (Point_getX p) (LocalCoords_getX lowest))
        (dsub (Point_getY p) (LocalCoords_getY lowest))
  | None => coords
  end.

Definition at_universe (c : LocalCoords) (cell : Z) : LocalCoords :=
  {| LocalCoords_getType := UNIV;
     LocalCoords_getUniverse := LocalCoords_getUniverse c;
     LocalCoords_getCell := cell;
     LocalCoords_getLattice := LocalCoords_getLattice c;
     LocalCoords_getLatticeX := LocalCoords_getLatticeX c;
     LocalCoords_getLatticeY := LocalCoords_getLatticeY c;
     LocalCoords_getX := LocalCoords_getX c;
     LocalCoords_getY := LocalCoords_getY c |}.

(** Modelled from the spec: [Universe::findCell] is defined outside
    [Geometry.cpp]; by section 4.4 a SIMPLE universe returns the first cell
    that contains the point, descends through a FILL cell into a new
    UNIVERSE node with the same point, and returns NULL when no cell
    contains the point.  [above] are the levels already placed, [node] the
    level being located. *)
Fixpoint descend (fuel : nat) (universes : gmap Z Universe) (univ : Universe)
    (above : chain) (node : LocalCoords) : outcome (option Cell * chain) :=
  match fuel with
  | O => Spin
  | S fuel =>
      match Universe_getType univ with
      | LATTICE => lattice_findCell univ (above ++ [node]) universes
      | SIMPLE =>
          match List.find (fun e => cellContains e.2 (LocalCoords_getPoint node))
                  (Universe_getCells univ) with
          | None => Return (None, above ++ [at_universe node (LocalCoords_getCell node)])
          | Some (_, cell) =>
              let node := at_universe node (Cell_getId cell) in
              match Cell_getType cell with
              | MATERIAL => Return (Some cell, above ++ [node])
              | FILL =>
                  next_univ ← at_ universes (Cell_getUniverseFillId cell);
                  descend fuel universes next_univ (above ++ [node])
                    (LocalCoords_new (LocalCoords_getX node)
                       (LocalCoords_getY node) (Cell_getUniverseFillId cell))
              end
          end
      end
  end.

(** The nesting depth the world follows before it gives up. *)
Definition max_depth : nat := 32.

Definition findCell_simple (univ : Universe) (coords : chain)
    (universes : gmap Z Universe) : outcome (option Cell * chain) :=
  match coords with
  | [] => Abort NullPointer
  | head :: _ => descend max_depth universes univ [] head
  end.

Definition primitives : Primitives := {|
  cos := cosine;
  sin := sine;
  Universe_findCell := findCell_simple;
  Lattice_findCell := lattice_findCell;
  Lattice_findNextLatticeCell := lattice_findNextLatticeCell;
  Cell_minSurfaceDist := minSurfaceDist;
  Point_distance := distance;
  LocalCoords_adjustCoords := adjustCoords;
  LocalCoords_updateMostLocal := updateMostLocal
|}.

(** Modelled from the spec: [Universe::computeFSRMaps] is not part of
    [Geometry.cpp].  Section 4.6 (step 3): the offset of a cell is the sum of
    the FSR counts of the cells before it, a MATERIAL cell counting 1 and a
    FILL cell the FSRs of its universe; a lattice accumulates the same way
    in row-major order; the answer is the count of the universe. *)
Definition set_region_map (u : Universe) (m : list (Z * Z)) : Universe :=
  {| Universe_getId := Universe_getId u; Universe_getType := Universe_getType u;
     Universe_getCells := Universe_getCells u; Universe_region_map := m;
     Lattice_getNumX := Lattice_getNumX u; Lattice_getNumY := Lattice_getNumY u;
     Lattice_getUniverses := Lattice_getUniverses u;
     Lattice_region_map := Lattice_region_map u |}.

Definition set_lattice_region_map (u : Universe) (m : list (list Z)) : Universe :=
  {| Universe_getId := Universe_getId u; Universe_getType := Universe_getType u;
     Universe_getCells := Universe_getCells u;
     Universe_region_map := Universe_region_map u;
     Lattice_getNumX := Lattice_getNumX u; Lattice_getNumY := Lattice_getNumY u;
     Lattice_getUniverses := Lattice_getUniverses u;
     Lattice_region_map := m |}.

Fixpoint computeFSRMaps (fuel : nat) (universes : gmap Z Universe) (id : Z)
  : outcome (Z * gmap Z Universe) :=
  match fuel with
  | O => Spin
  | S fuel =>
      univ ← at_ universes id;
      match Universe_getType univ with
      | SIMPLE =>
          '(count, map, universes) ←
            foldM (fun '(count, map, universes) (entry : Z * Cell) =>
                     let map := map ++ [(entry.1, count)] in
                     match Cell_getType entry.2 with
                     | MATERIAL => Return (count + 1, map, universes)
                     | FILL =>
                         '(n, universes) ←
                           computeFSRMaps fuel universes
                             (Cell_getUniverseFillId entry.2);
                         Return (count + n, map, universes)
                     end)
                  (0, [], universes) (Universe_getCells univ);
          Return (count, <[id := set_region_map univ map]> universes)
      | LATTICE =>
          '(count, table, universes) ←
            foldM (fun '(count, table, universes) (row : list Z) =>
                     '(count, offsets, universes) ←
                       foldM (fun '(count, offsets, universes) (child : Z) =>
                                '(n, universes) ←
                                  computeFSRMaps fuel universes child;
                                Return (count + n, offsets ++ [count], universes))
                             (count, [], universes) row;
                     Return (count, table ++ [offsets], universes))
                  (0, [], universes) (Lattice_getUniverses univ);
          Return (count, <[id := set_lattice_region_map univ table]> universes)
      end
  end.

(** The numbering step of [initializeFlatSourceRegions] for a geometry
    whose cells are not subdivided: the FSR maps are computed from universe
    0 and the count becomes [_num_FSRs].  A lattice is one object in both
    registries. *)
Definition numberFlatSourceRegions (g : Geometry) : outcome Geometry :=
  '(n, universes) ← computeFSRMaps max_depth (_universes g) 0;
  let lattices :=
    (fun lat => default lat (universes !! Universe_getId lat)) <$> _lattices g in
  Return (set_num_FSRs (set_lattices (set_universes g universes) lattices) n).

End World.
End World.

(** ** Two geometries built through the public operations *)
Module Examples.

Definition x_plane (id : Z) (c : Q) (bc : boundaryType) : Surface :=
  {| Surface_getId := id; Surface_getBoundaryType := bc;
     Surface_getXMin := Fin c; Surface_getXMax := Fin c;
     Surface_getYMin := NegInf; Surface_getYMax := PosInf |}.

Definition y_plane (id : Z) (c : Q) (bc : boundaryType) : Surface :=
  {| Surface_getId := id; Surface_getBoundaryType := bc;
     Surface_getXMin := NegInf; Surface_getXMax := PosInf;
     Surface_getYMin := Fin c; Surface_getYMax := Fin c |}.

Definition left_plane : Surface := x_plane 1 (-1 # 1) REFLECTIVE.
Definition right_plane : Surface := x_plane 2 (1 # 1) REFLECTIVE.
Definition bottom_plane : Surface := y_plane 3 (-1 # 1) REFLECTIVE.
Definition top_plane : Surface := y_plane 4 (1 # 1) REFLECTIVE.
Definition middle_plane : Surface := x_plane 5 (0 # 1) BOUNDARY_NONE.
Definition outer_plane : Surface := x_plane 6 (2 # 1) VACUUM.

Definition material (id : Z) : Material :=
  {| Material_getId := id; Material_getNumEnergyGroups := 2;
     Material_checkSigmaT := true |}.

Definition material_cell (id universe mat : Z) (surfaces : list (Z * Surface))
  : Cell :=
  {| Cell_getId := id; Cell_getUniverse := universe; Cell_getType := MATERIAL;
     Cell_getMaterial := mat; Cell_getUniverseFillId := -1;
     Cell_getSurfaces := surfaces |}.

Definition fill_cell (id universe fill : Z) (surfaces : list (Z * Surface))
  : Cell :=
  {| Cell_getId := id; Cell_getUniverse := universe; Cell_getType := FILL;
     Cell_getMaterial := -1; Cell_getUniverseFillId := fill;
     Cell_getSurfaces := surfaces |}.

(** Scenario 2 of the spec: universe 0 holds two material cells split by
    the line x = 0 inside the box [-1, 1] x [-1, 1]. *)
Definition west : Cell :=
  material_cell 1 0 1
    [(-5, middle_plane); (-4, top_plane); (1, left_plane); (3, bottom_plane)].
Definition east : Cell :=
  material_cell 2 0 2
    [(-4, top_plane); (-2, right_plane); (3, bottom_plane); (5, middle_plane)].

Definition half_planes : outcome Geometry :=
  g ← addMaterial Geometry_new (material 1);
  g ← addMaterial g (material 2);
  g ← addCell g west;
  g ← addCell g east;
  World.numberFlatSourceRegions g.

(** Universe 0 holds a FILL cell over the box, filled with universe 1, and
    a material cell between x = 1 and x = 2; universe 1 holds two material
    cells split by the line x = 0.  No lattice. *)
Definition inner_west : Cell := material_cell 10 1 1 [(-5, middle_plane)].
Definition inner_east : Cell := material_cell 11 1 2 [(5, middle_plane)].
Definition core : Cell :=
  fill_cell 1 0 1
    [(-4, top_plane); (-2, right_plane); (1, left_plane); (3, bottom_plane)].
Definition reflector : Cell :=
  material_cell 2 0 3
    [(-6, outer_plane); (-4, top_plane); (2, right_plane); (3, bottom_plane)].

Definition nested : outcome Geometry :=
  g ← addMaterial Geometry_new (material 1);
  g ← addMaterial g (material 2);
  g ← addMaterial g (material 3);
  g ← addCell g inner_west;
  g ← addCell g inner_east;
  g ← addCell g core;
  g ← addCell g reflector;
  World.numberFlatSourceRegions g.

Definition run {A : Type} (d : A) (m : outcome A) : A :=
  match m with
  | Return a => a
  | _ => d
  end.

Definition half_planes_geometry : Geometry := run Geometry_new half_planes.
Definition nested_geometry : Geometry := run Geometry_new nested.

(** The nested geometry with a 1 x 1 lattice of universe 1 added under
    id 7. *)
Definition pin_lattice : Universe :=
  {| Universe_getId := 7; Universe_getType := LATTICE;
     Universe_getCells := []; Universe_region_map := [];
     Lattice_getNumX := 1; Lattice_getNumY := 1;
     Lattice_getUniverses := [[1]]; Lattice_region_map := [[0]] |}.

Definition with_lattice : Geometry :=
  run Geometry_new (addLattice nested_geometry pin_lattice).

(** Universe 0 holds one FILL cell over the box, filled with lattice 8: two
    lattice cells side by side, each holding universe 1. *)
Definition pins : Universe :=
  {| Universe_getId := 8; Universe_getType := LATTICE;
     Universe_getCells := []; Universe_region_map := [];
     Lattice_getNumX := 2; Lattice_getNumY := 1;
     Lattice_getUniverses := [[1; 1]]; Lattice_region_map := [] |}.

Definition assembly : Cell :=
  fill_cell 1 0 8
    [(-4, top_plane); (-2, right_plane); (1, left_plane); (3, bottom_plane)].

Definition two_pins : outcome Geometry :=
  g ← addMaterial Geometry_new (material 1);
  g ← addMaterial g (material 2);
  g ← addCell g inner_west;
  g ← addCell g inner_east;
  g ← addLattice g pins;
  g ← addCell g assembly;
  World.numberFlatSourceRegions g.

Definition two_pins_geometry : Geometry := run Geometry_new two_pins.

(** A node of a coordinate list in a universe, and one in a lattice. *)
Definition in_universe (universe cell : Z) (x y : Q) : LocalCoords :=
  {| LocalCoords_getType := UNIV; LocalCoords_getUniverse := universe;
     LocalCoords_getCell := cell; LocalCoords_getLattice := -1;
     LocalCoords_getLatticeX := -1; LocalCoords_getLatticeY := -1;
     LocalCoords_getX := Fin x; LocalCoords_getY := Fin y |}.

Definition in_lattice (lattice lat_x lat_y : Z) (x y : Q) : LocalCoords :=
  {| LocalCoords_getType := LAT; LocalCoords_getUniverse := lattice;
     LocalCoords_getCell := -1; LocalCoords_getLattice := lattice;
     LocalCoords_getLatticeX := lat_x; LocalCoords_getLatticeY := lat_y;
     LocalCoords_getX := Fin x; LocalCoords_getY := Fin y |}.


(** A track along +x. *)
Definition track (x y : Q) : Track :=
  {| Track_getStart := {| Point_getX := Fin x; Point_getY := Fin y |};
     Track_getPhi := Fin (0 # 1); Track_segments := [] |}.

End Examples.

(** ** Vocabulary of the properties *)

(** *** Bounding box *)

(** One edge of the bounding box: the extent a surface offers for it, the
    bound and the flag the geometry keeps, the comparison that makes an
    extent replace the bound, the infinity the test leaves out and the
    bound of a new geometry. *)
Record edge : Type := {
  edge_extent : Surface -> double;
  edge_bound : Geometry -> double;
  edge_flag : Geometry -> bool;
  edge_better : double -> double -> bool;
  edge_excluded : double;
  edge_initial : double
}.

Definition left_edge : edge :=
  {| edge_extent := Surface_getXMin; edge_bound := _x_min;
     edge_flag := _left_bc; edge_better := dlt; edge_excluded := NegInf;
     edge_initial := Fin DBL_MAX |}.

Definition right_edge : edge :=
  {| edge_extent := Surface_getXMax; edge_bound := _x_max;
     edge_flag := _right_bc; edge_better := dgt; edge_excluded := PosInf;
     edge_initial := Fin (Qopp DBL_MAX) |}.

Definition bottom_edge : edge :=
  {| edge_extent := Surface_getYMin; edge_bound := _y_min;
     edge_flag := _bottom_bc; edge_better := dlt; edge_excluded := NegInf;
     edge_initial := Fin DBL_MAX |}.

Definition top_edge : edge :=
  {| edge_extent := Surface_getYMax; edge_bound := _y_max;
     edge_flag := _top_bc; edge_better := dgt; edge_excluded := PosInf;
     edge_initial := Fin (Qopp DBL_MAX) |}.

(** The flag a boundary type stands for. *)
Definition bc_flag (s : Surface) : bool :=
  match Surface_getBoundaryType s with
  | REFLECTIVE => true
  | _ => false
  end.

(** A surface counts for an edge when it is REFLECTIVE or VACUUM and its
    extent on that edge is finite. *)
Definition candidate (e : edge) (s : Surface) : Prop :=
  Surface_getBoundaryType s <> BOUNDARY_NONE /\
  exists q, edge_extent e s = Fin q.

(** What one [addSurface] of a new id does to the bound and flag of an
    edge. *)
Definition edge_step (e : edge) (st : double * bool) (s : Surface)
  : double * bool :=
  match Surface_getBoundaryType s with
  | BOUNDARY_NONE => st
  | _ =>
      if edge_better e (edge_extent e s) st.1
         && dne (edge_extent e s) (edge_excluded e)
      then (edge_extent e s, bc_flag s) else st
  end.

(** The bound and flag [st] of an edge after the surfaces [l] were added,
    first to last, to a geometry whose bound was [b0] and flag [f0]: either
    no counted surface replaced the bound, or bound and flag are those of
    the surface that set the bound, the first one whose extent is the
    extremal one. *)
Definition settled (e : edge) (b0 : double) (f0 : bool) (l : list Surface)
    (st : double * bool) : Prop :=
  (st = (b0, f0) /\
   forall s, s ∈ l -> candidate e s ->
     edge_better e (edge_extent e s) b0 = false)
  \/
  (exists l1 s l2,
     l = l1 ++ s :: l2 /\ candidate e s /\
     st = (edge_extent e s, bc_flag s) /\
     edge_better e (edge_extent e s) b0 = true /\
     (forall s', s' ∈ l1 -> candidate e s' ->
        edge_better e (edge_extent e s) (edge_extent e s') = true) /\
     (forall s', s' ∈ l2 -> candidate e s' ->
        edge_better e (edge_extent e s') (edge_extent e s) = false)).

(** The bound of edge [e] after the surfaces [l] were added, first to
    last, to a new geometry: no counted surface reaches beyond the bound;
    the bound is the extent of a counted surface when there is one; and the
    flag is that of the surface that set the bound. *)
Definition extremal (e : edge) (l : list Surface) (g : Geometry) : Prop :=
  (forall s, s ∈ l -> candidate e s ->
     edge_better e (edge_extent e s) (edge_bound e g) = false) /\
  ((exists s, s ∈ l /\ candidate e s) ->
   exists s, s ∈ l /\ candidate e s /\
     deq (edge_bound e g) (edge_extent e s) = true) /\
  settled e (edge_initial e) true l (edge_bound e g, edge_flag e g).

(** The extents of a surface are values a C++ [double] can hold. *)
Definition representable_extents (s : Surface) : Prop :=
  representable (Surface_getXMin s) /\ representable (Surface_getXMax s) /\
  representable (Surface_getYMin s) /\ representable (Surface_getYMax s).

Definition is_finite (a : double) : bool :=
  match a with
  | Fin _ => true
  | _ => false
  end.

(** A surface none of whose extents is finite. *)
Definition no_finite_extent (s : Surface) : Prop :=
  is_finite (Surface_getXMin s) = false /\ is_finite (Surface_getXMax s) = false /\
  is_finite (Surface_getYMin s) = false /\ is_finite (Surface_getYMax s) = false.

Definition negative (a : double) : Prop := dlt a (Fin (inject_Z 0)) = true.

(** What the accumulation needs of the comparison of an edge. *)
Record edge_ok (e : edge) : Prop := {
  better_trans : forall a b c : Q,
    edge_better e (Fin a) (Fin b) = true ->
    edge_better e (Fin b) (Fin c) = true ->
    edge_better e (Fin a) (Fin c) = true;
  better_cotrans : forall a b c : Q,
    edge_better e (Fin a) (Fin c) = true ->
    edge_better e (Fin b) (Fin c) = false ->
    edge_better e (Fin a) (Fin b) = true;
  better_irrefl : forall a : Q, edge_better e (Fin a) (Fin a) = false;
  better_total : forall a b : Q,
    edge_better e (Fin a) (Fin b) = false ->
    edge_better e (Fin b) (Fin a) = false ->
    deq (Fin a) (Fin b) = true;
  better_not_finite : forall a b,
    is_finite a = false ->
    edge_better e a b && dne a (edge_excluded e) = false;
  finite_included : forall q, dne (Fin q) (edge_excluded e) = true;
  initial_finite : exists q0, edge_initial e = Fin q0;
  initial_new :
    edge_bound e Geometry_new = edge_initial e /\
    edge_flag e Geometry_new = true;
  initial_extreme : forall s q,
    representable_extents s -> edge_extent e s = Fin q ->
    edge_better e (edge_initial e) (Fin q) = false;
  add_step : forall g s,
    _surfaces g !! Surface_getId s = None ->
    exists g',
      addSurface g s = Return g' /\
      (edge_bound e g', edge_flag e g') =
        edge_step e (edge_bound e g, edge_flag e g) s /\
      _surfaces g' = <[Surface_getId s := s]> (_surfaces g)
}.

(** *** Flat source region of a coordinate list *)

(** The FSR offset one level of a coordinate list contributes: for a
    UNIVERSE node the offset its universe keeps for the recorded cell, for
    a LATTICE node the offset its lattice keeps for the recorded lattice
    cell. *)
Inductive level_offset (g : Geometry) (node : LocalCoords) (fsr : Z) : Prop :=
| universe_offset (universe : Universe) :
    LocalCoords_getType node = UNIV ->
    _universes g !! LocalCoords_getUniverse node = Some universe ->
    map_find (Universe_region_map universe) (LocalCoords_getCell node)
      = Some fsr ->
    level_offset g node fsr
| lattice_offset (lattice : Universe) (row : list Z) :
    LocalCoords_getType node = LAT ->
    _lattices g !! LocalCoords_getLattice node = Some lattice ->
    0 <= LocalCoords_getLatticeX node ->
    0 <= LocalCoords_getLatticeY node ->
    Lattice_region_map lattice !! Z.to_nat (LocalCoords_getLatticeY node)
      = Some row ->
    row !! Z.to_nat (LocalCoords_getLatticeX node) = Some fsr ->
    level_offset g node fsr.

Definition total (l : list Z) : Z := foldr Z.add 0 l.

(** *** The relocation test of [findNextCell] *)

(** Level [k] of a coordinate list, counted from its lowest level up. *)
Definition level_up (coords : chain) (k : nat) : option LocalCoords :=
  reverse coords !! k.

(** The saved list [test] and the relocated list [coords] are walked in
    parallel from their lowest levels up, as long as both sides are below
    the root universe: some level [k] of that walk has LATTICE nodes on both
    sides and their lattice cells differ. *)
Definition lattice_step_detected (test coords : chain) : Prop :=
  exists (k : nat) (t c : LocalCoords),
    level_up test k = Some t /\ level_up coords k = Some c /\
    LocalCoords_getType t = LAT /\ LocalCoords_getType c = LAT /\
    (LocalCoords_getLatticeX c <> LocalCoords_getLatticeX t \/
     LocalCoords_getLatticeY c <> LocalCoords_getLatticeY t) /\
    (forall (k' : nat) (t' c' : LocalCoords),
       (k' <= k)%nat ->
       level_up test k' = Some t' -> level_up coords k' = Some c' ->
       LocalCoords_getUniverse t' <> 0 /\ LocalCoords_getUniverse c' <> 0).



(** *** Floor search *)

(** The lookup by FSR id in the words of section 4.6: an id outside
    [0, num_FSRs) is fatal; at each level the child with the greatest FSR
    offset not above [fsr_id] is selected (the last one among equal
    offsets), the offset is subtracted and the search goes on in that
    child; a MATERIAL cell is the answer when the residue is 0, and a
    residue that is not 0 there is fatal. *)
Definition floor_child {A : Type} (children : list (Z * A)) (fsr_id : Z)
  : option (Z * A) :=
  foldl (fun best child =>
           if (child.1 <=? fsr_id)
              && match best with
                 | Some b => b.1 <=? child.1
                 | None => true
                 end
           then Some child else best)
        None children.

Definition simple_children (univ : Universe) : outcome (list (Z * Cell)) :=
  foldM (fun children (entry : Z * Cell) =>
           fsr ← Universe_getFSR univ entry.1;
           Return (children ++ [(fsr, entry.2)]))
        [] (Universe_getCells univ).

Definition lattice_children (g : Geometry) (lat : Universe)
  : outcome (list (Z * option Universe)) :=
  foldM (fun children i =>
           foldM (fun children j =>
                    fsr ← Lattice_getFSR lat j i;
                    next ← Lattice_getUniverse g lat j i;
                    Return (children ++ [(fsr, next)]))
                 children (seqZ 0 (Lattice_getNumX lat)))
        [] (seqZ 0 (Lattice_getNumY lat)).

Fixpoint floor_search (fuel : nat) (g : Geometry) (univ : Universe)
    (fsr_id : Z) : outcome (option Cell) :=
  match fuel with
  | O => Spin
  | S fuel =>
      if (fsr_id <? 0) || (_num_FSRs g <=? fsr_id) then
        Abort (ERROR "fsr_id outside [0, num_FSRs)")
      else
        match Universe_getType univ with
        | SIMPLE =>
            children ← simple_children univ;
            match floor_child children fsr_id with
            | None => Abort (ERROR "no child at or below fsr_id")
            | Some (offset, cell) =>
                match Cell_getType cell with
                | MATERIAL =>
                    if fsr_id - offset =? 0 then Return (Some cell)
                    else Abort (ERROR "nonzero residue at a material cell")
                | FILL =>
                    match CellFill_getUniverseFill g cell with
                    | None => Abort NullPointer
                    | Some fill => floor_search fuel g fill (fsr_id - offset)
                    end
                end
            end
        | LATTICE =>
            children ← lattice_children g univ;
            match floor_child children fsr_id with
            | Some (offset, Some next) =>
                floor_search fuel g next (fsr_id - offset)
            | Some (_, None) => Abort NullPointer
            | None => Abort (ERROR "no child at or below fsr_id")
            end
        end
  end.

Definition floor_search_root (fuel : nat) (g : Geometry) (fsr_id : Z)
  : outcome (option Cell) :=
  univ ← at_ (_universes g) 0;
  floor_search fuel g univ fsr_id.

(** ** Further members of [Geometry] *)

(** [int Geometry::getNumMaterials()] *)
Definition getNumMaterials (g : Geometry) : Z := Z.of_nat (size (_materials g)).

(** [int Geometry::getNumEnergyGroups()] *)
Definition getNumEnergyGroups (g : Geometry) : outcome Z :=
  if getNumMaterials g =? 0 then
    Abort (ERROR "Unable to return the number of energy groups from the geometry since it does not contain any materials")
  else Return (_num_groups g).

(** The getters of the registries: [at(id)] inside a [try] whose handler
    reports the missing id at level ERROR. *)
Definition getMaterial (g : Geometry) (id : Z) : outcome Material :=
  match _materials g !! id with
  | Some material => Return material
  | None =>
      Abort (ERROR "Attempted to retrieve material with id = %d which does not exist. Backtrace:")
  end.

Definition getSurface (g : Geometry) (id : Z) : outcome Surface :=
  match _surfaces g !! id with
  | Some surface => Return surface
  | None =>
      Abort (ERROR "Attempted to retrieve surface with id = %d which has not been declared. Backtrace:")
  end.

Definition getCell (g : Geometry) (id : Z) : outcome Cell :=
  match _cells g !! id with
  | Some cell => Return cell
  | None =>
      Abort (ERROR "Attempted to retrieve cell with id = %d which has not been declared. Backtrace:")
  end.

Definition getUniverse (g : Geometry) (id : Z) : outcome Universe :=
  match _universes g !! id with
  | Some universe => Return universe
  | None =>
      Abort (ERROR "Attempted to retrieve universe with id = %d which has not been declared. Backtrace:")
  end.

Definition getLattice (g : Geometry) (id : Z) : outcome Universe :=
  match _lattices g !! id with
  | Some lattice => Return lattice
  | None =>
      Abort (ERROR "Attempted to retrieve lattice with id = %d which has not been declared. Backtrace:")
  end.

(** [void Geometry::initializeCellFillPointers()].  The loop resolves the
    universe of every FILL cell with [_universes.at(id)] and stores the
    pointer; with the cached pointers read as lookups the geometry is left as
    it is.  The body fails in one way only, so the order in which the cells
    are visited does not show. *)
Definition initializeCellFillPointers (g : Geometry) : outcome Geometry :=
  _ ← foldM (fun (_ : unit) (entry : Z * Cell) =>
               match Cell_getType entry.2 with
               | FILL =>
                   _ ← at_ (_universes g) (Cell_getUniverseFillId entry.2);
                   Return ()
               | MATERIAL => Return ()
               end)
          () (map_to_list (_cells g));
  Return g.

Section Initialization.

(** [Universe::subdivideCells] and [Universe::computeFSRMaps] are defined
    outside [Geometry.cpp] and are parameters here: the first as what it
    makes of one universe, the second as the count of the universe with the
    given id and the universes as the numbering leaves them. *)
Variable Universe_subdivideCells : Universe -> Universe.
Variable Universe_computeFSRMaps :
  gmap Z Universe -> Z -> outcome (Z * gmap Z Universe).

(** A lattice is one object in both registries. *)
Definition alias_lattices (universes lattices : gmap Z Universe)
  : gmap Z Universe :=
  (fun lat => default lat (universes !! Universe_getId lat)) <$> lattices.

(** [void Geometry::subdivideCells()].  The loop runs over [_universes];
    a lattice is the same object in [_lattices]. *)
Definition subdivideCells (g : Geometry) : Geometry :=
  let universes := Universe_subdivideCells <$> _universes g in
  set_lattices (set_universes g universes)
    (Universe_subdivideCells <$> _lattices g).

(** [void Geometry::initializeFlatSourceRegions()], with the two arrays
    [_FSRs_to_cells] and [_FSRs_to_materials] it fills.  [fuel] bounds the
    depth of each lookup.  The count of [computeFSRMaps] is taken not to be
    negative: [new int[_num_FSRs]] of a negative count is not modelled. *)
Definition initializeFlatSourceRegions (fuel : nat) (g : Geometry)
  : outcome (Geometry * list Z * list Z) :=
  g ← initializeCellFillPointers g;
  let g := subdivideCells g in
  _ ← at_ (_universes g) 0;
  '(num_FSRs, universes) ← Universe_computeFSRMaps (_universes g) 0;
  let g :=
    set_num_FSRs
      (set_lattices (set_universes g universes)
         (alias_lattices universes (_lattices g)))
      num_FSRs in
  '(cells, materials) ←
    foldM (fun '(cells, materials) r =>
             univ ← at_ (_universes g) 0;
             curr ← findCell_fsr fuel g univ r;
             match curr with
             | None => Abort NullPointer
             | Some curr =>
                 Return (cells ++ [Cell_getId curr],
                         materials ++ [Cell_getMaterial curr])
             end)
          ([], []) (seqZ 0 num_FSRs);
  Return (g, cells, materials).

End Initialization.

(** ** A world with lattices

    The two lattice members for rays along +x, over the world of
    axis-parallel planes.  A lattice is centred on the origin of its frame
    and [pitch] gives the width and height of the lattice cells of each
    lattice id. *)
Module LatticeWorld.
Section LatticeWorld.

Variable pitch : Z -> Q * Q.

Definition floor (q : Q) : Z := Qnum q / Zpos (Qden q).

(** The lower left corner of the lattice. *)
Definition origin_x (lat : Universe) : Q :=
  Qred (- ((pitch (Universe_getId lat)).1 * inject_Z (Lattice_getNumX lat) / 2))%Q.
Definition origin_y (lat : Universe) : Q :=
  Qred (- ((pitch (Universe_getId lat)).2 * inject_Z (Lattice_getNumY lat) / 2))%Q.

(** The centre of lattice cell [(j, i)]. *)
Definition centre_x (lat : Universe) (j : Z) : Q :=
  Qred (origin_x lat + (inject_Z j + (1 # 2)) * (pitch (Universe_getId lat)).1)%Q.
Definition centre_y (lat : Universe) (i : Z) : Q :=
  Qred (origin_y lat + (inject_Z i + (1 # 2)) * (pitch (Universe_getId lat)).2)%Q.

Definition in_lattice_cell (lat : Universe) (j i : Z) (c : LocalCoords)
  : LocalCoords :=
  {| LocalCoords_getType := LAT;
     LocalCoords_getUniverse := LocalCoords_getUniverse c;
     LocalCoords_getCell := LocalCoords_getCell c;
     LocalCoords_getLattice := Universe_getId lat;
     LocalCoords_getLatticeX := j; LocalCoords_getLatticeY := i;
     LocalCoords_getX := LocalCoords_getX c;
     LocalCoords_getY := LocalCoords_getY c |}.

(** The descent from lattice cell [(j, i)], whose node is [node], into the
    universe of that cell, at the point taken relative to the centre of the
    cell. *)
Definition enter (find : Universe -> chain -> gmap Z Universe ->
                         outcome (option Cell * chain))
    (lat : Universe) (above : chain) (node : LocalCoords) (j i : Z)
    (x y : Q) (universes : gmap Z Universe) : outcome (option Cell * chain) :=
  universe_id ← at2 (Lattice_getUniverses lat) i j;
  univ ← at_ universes universe_id;
  World.descend find World.max_depth universes univ
    (above ++ [in_lattice_cell lat j i node])
    (LocalCoords_new (Fin (Qred (x - centre_x lat j)))
       (Fin (Qred (y - centre_y lat i))) universe_id).

(** Modelled from the spec: [Lattice::findCell] is defined outside
    [Geometry.cpp]; by section 4.4 it computes the lattice cell of the point
    from the origin and the pitch, returns NULL when the cell is out of
    range, records the cell in a LATTICE node and descends into the universe
    of the cell with the point relative to the centre of the cell.  The node
    being located is the last of the list. *)
Fixpoint findCell (depth : nat) (lat : Universe) (coords : chain)
    (universes : gmap Z Universe) : outcome (option Cell * chain) :=
  match depth with
  | O => Spin
  | S depth =>
      match last coords with
      | None => Abort NullPointer
      | Some node =>
          match LocalCoords_getX node, LocalCoords_getY node with
          | Fin x, Fin y =>
              let j := floor ((x - origin_x lat) / (pitch (Universe_getId lat)).1) in
              let i := floor ((y - origin_y lat) / (pitch (Universe_getId lat)).2) in
              if (j <? 0) || (Lattice_getNumX lat <=? j)
                 || (i <? 0) || (Lattice_getNumY lat <=? i)
              then Return (None, coords)
              else
                enter (findCell depth) lat (removelast coords) node j i x y
                  universes
          | _, _ => Return (None, coords)
          end
      end
  end.

(** Modelled from the spec: [Lattice::findNextLatticeCell] is defined
    outside [Geometry.cpp]; by section 4.4 it steps from the lattice cell of
    a LATTICE node to the neighbour the ray enters, places the point just
    inside that neighbour (nudged by TINY_MOVE) and descends into its
    universe, or returns NULL when the neighbour is outside the lattice.
    Along +x the neighbour is the cell to the right; the point is moved
    before the range test, so a ray that leaves the lattice ends just behind
    its edge.  The LATTICE node is the last of the list. *)
Definition findNextLatticeCell (depth : nat) (lat : Universe) (coords : chain)
    (angle : double) (universes : gmap Z Universe)
  : outcome (option Cell * chain) :=
  match last coords with
  | None => Abort NullPointer
  | Some node =>
      match LocalCoords_getX node, deq angle World.zero with
      | Fin x, true =>
          let j := LocalCoords_getLatticeX node + 1 in
          let i := LocalCoords_getLatticeY node in
          let edge :=
            (origin_x lat + inject_Z j * (pitch (Universe_getId lat)).1)%Q in
          let moved :=
            World.adjustCoords coords (dadd (Fin (Qred (edge - x))) TINY_MOVE)
              World.zero in
          match last moved with
          | Some {| LocalCoords_getX := Fin x'; LocalCoords_getY := Fin y' |} =>
              if Lattice_getNumX lat <=? j then Return (None, moved)
              else
                match last moved with
                | Some node' =>
                    enter (findCell depth) lat (removelast moved) node' j i
                      x' y' universes
                | None => Abort NullPointer
                end
          | _ => Return (None, moved)
          end
      | _, _ => Return (None, coords)
      end
  end.

Definition primitives (depth : nat) : Primitives :=
  World.primitives (findCell depth) (findNextLatticeCell depth).

End LatticeWorld.
End LatticeWorld.

(** ** Sequences of calls *)

(** One call of a member that registers an entity. *)
Inductive call : Type :=
| AddMaterial (material : Material)
| AddSurface (surface : Surface)
| AddCell (cell : Cell)
| AddUniverse (universe : Universe)
| AddLattice (lattice : Universe).

Definition run_call (g : Geometry) (c : call) : outcome Geometry :=
  match c with
  | AddMaterial material => addMaterial g material
  | AddSurface surface => addSurface g surface
  | AddCell cell => addCell g cell
  | AddUniverse universe => addUniverse g universe
  | AddLattice lattice => addLattice g lattice
  end.

(** The calls run first to last; the first one that fails ends the run. *)
Definition run_calls (g : Geometry) (cs : list call) : outcome Geometry :=
  foldM run_call g cs.

(** A geometry built from the constructor. *)
Definition build (cs : list call) : outcome Geometry :=
  run_calls Geometry_new cs.

(** An edge of the bounding box that moved outwards strictly, or stayed
    with its boundary condition. *)
Definition moved_out (lt : double -> double -> bool)
    (old new : double) (old_bc new_bc : bool) : Prop :=
  (new = old /\ new_bc = old_bc) \/ lt new old = true.

(** A FILL cell of the registry whose universe is not registered. *)
Definition dangling_fill (g : Geometry) (id : Z) (cell : Cell) : Prop :=
  _cells g !! id = Some cell /\ Cell_getType cell = FILL /\
  _universes g !! Cell_getUniverseFillId cell = None.

(** The members other than the box, its flags and [_surfaces]. *)
Definition registries_but_surfaces (g : Geometry) :=
  (_num_FSRs g, _num_groups g, _max_seg_length g, _min_seg_length g,
   _materials g, _cells g, _universes g, _lattices g).

(** Every entry of a registry is stored under its own id. *)
Definition keyed {V : Type} (id_of : V -> Z) (m : gmap Z V) : Prop :=
  forall id v, m !! id = Some v -> id_of v = id.

(** No entry is dropped.  Materials, surfaces and cells are never replaced
    either; a universe is replaced when a cell is added to it. *)
Record extends (g g' : Geometry) : Prop := {
  extends_materials : _materials g ⊆ _materials g';
  extends_surfaces : _surfaces g ⊆ _surfaces g';
  extends_cells : _cells g ⊆ _cells g';
  extends_universes :
    forall id, is_Some (_universes g !! id) -> is_Some (_universes g' !! id);
  extends_lattices :
    forall id, is_Some (_lattices g !! id) -> is_Some (_lattices g' !! id)
}.

(** The four edges of the box between two states. *)
Record box_grows (g g' : Geometry) : Prop := {
  grows_left : moved_out dlt (_x_min g) (_x_min g') (_left_bc g) (_left_bc g');
  grows_right : moved_out dgt (_x_max g) (_x_max g') (_right_bc g) (_right_bc g');
  grows_bottom : moved_out dlt (_y_min g) (_y_min g') (_bottom_bc g) (_bottom_bc g');
  grows_top : moved_out dgt (_y_max g) (_y_max g') (_top_bc g) (_top_bc g')
}.

(** The registered materials have the group count of the geometry. *)
Definition groups_agree (g : Geometry) : Prop :=
  forall id m, _materials g !! id = Some m ->
    Material_getNumEnergyGroups m = _num_groups g /\ _num_groups g <> 0.

(** The five registries are keyed by the ids of their entries. *)
Definition all_keyed (g : Geometry) : Prop :=
  keyed Material_getId (_materials g) /\
  keyed Surface_getId (_surfaces g) /\
  keyed Cell_getId (_cells g) /\
  keyed Universe_getId (_universes g) /\
  keyed Universe_getId (_lattices g).

(** The state of the scan of a SIMPLE universe after the cells [seen]. *)
Record scan_inv (univ : Universe) (fsr_id : Z) (seen : list (Z * Cell))
    (st : simple_scan) : Prop := {
  inv_max_range : 0 <= scan_max_id st <= fsr_id;
  inv_max_hit :
    (exists e, e ∈ seen /\ Universe_getFSR univ e.1 = Return fsr_id) ->
    scan_max_id st = fsr_id /\
    exists e, e ∈ seen /\ Universe_getFSR univ e.1 = Return fsr_id /\
              scan_cell st = Some e.2;
  inv_min_below :
    forall e o, e ∈ seen -> Universe_getFSR univ e.1 = Return o ->
                scan_min_id st <= o;
  inv_min_cell :
    scan_min_id st = INT_MAX \/
    exists e, e ∈ seen /\ scan_cell_min st = Some e.2
}.

(** A segment whose material is registered and whose length lies within
    the recorded extremes. *)
Definition registered_material (g : Geometry) (s : segment) : Prop :=
  exists id, _materials g !! id = Some (_material s).

Definition within_extremes (g : Geometry) (s : segment) : Prop :=
  dgt (_length s) (_max_seg_length g) = false /\
  dlt (_length s) (_min_seg_length g) = false.

(** What [segmentize] leaves of a geometry and a track: only the two
    extremes change, and segments are appended. *)
Record segmentized (g : Geometry) (track : Track) (g' : Geometry)
    (track' : Track) (new : list segment) : Prop := {
  seg_geometry :
    g' = set_seg_lengths g (_max_seg_length g') (_min_seg_length g');
  seg_start : Track_getStart track' = Track_getStart track;
  seg_phi : Track_getPhi track' = Track_getPhi track;
  seg_appended : Track_segments track' = Track_segments track ++ new;
  seg_materials : Forall (registered_material g) new;
  seg_extremes : Forall (within_extremes g') new;
  seg_max :
    _max_seg_length g' = _max_seg_length g \/
    dgt (_max_seg_length g') (_max_seg_length g) = true;
  seg_min :
    _min_seg_length g' = _min_seg_length g \/
    dlt (_min_seg_length g') (_min_seg_length g) = true
}.

(** What a cell refers to is registered. *)
Definition cell_closed (g : Geometry) (cell : Cell) : Prop :=
  (Cell_getType cell = MATERIAL ->
   is_Some (_materials g !! Cell_getMaterial cell)) /\
  Forall (fun e => is_Some (_surfaces g !! Surface_getId e.2))
    (Cell_getSurfaces cell) /\
  is_Some (_universes g !! Cell_getUniverse cell).

(** Every lattice cell of the lattice registered under [id] names a
    registered universe other than the lattice. *)
Definition lattice_closed (g : Geometry) (id : Z) (lat : Universe) : Prop :=
  forall i j, 0 <= i < Lattice_getNumY lat -> 0 <= j < Lattice_getNumX lat ->
    exists universe_id,
      at2 (Lattice_getUniverses lat) i j = Return universe_id /\
      universe_id <> id /\ is_Some (_universes g !! universe_id).

(** ** A geometry with a lattice, run *)
Module Pins.

(** The calls that build the two pins of [Examples.two_pins]. *)
Definition calls : list call :=
  [AddMaterial (Examples.material 1); AddMaterial (Examples.material 2);
   AddCell Examples.inner_west; AddCell Examples.inner_east;
   AddLattice Examples.pins; AddCell Examples.assembly].

Definition built : Geometry := Examples.run Geometry_new (build calls).

(** Universe 1 as the numbering of the flat source regions leaves it. *)
Definition pin : Universe :=
  default (Universe_new 1) (_universes Examples.two_pins_geometry !! 1).

(** The cells of lattice 8 are 1 wide and 2 high. *)
Definition pitch (lattice : Z) : Q * Q := (1 # 1, 2 # 1)%Q.

Definition world : Primitives := LatticeWorld.primitives pitch 8.

(** The track from (-9/10, 1/2) along +x through the two pins, and what
    [segmentize] makes of it. *)
Definition track : Track := Examples.track (-9 # 10) (1 # 2).

Definition segmentized_track : Geometry * Track :=
  Examples.run (Examples.two_pins_geometry, track)
    (@segmentize world 10 Examples.two_pins_geometry track).


(** A FILL cell that names universe 8 in a geometry without universe 8. *)
Definition dangling : Geometry :=
  Examples.run Geometry_new
    (addCell Geometry_new
       (Examples.fill_cell 1 0 8 [(-5, Examples.middle_plane)])).

End Pins.

(** * Properties *)

(** ** The example geometries *)

(** Every operation that builds the examples returns; the bounding boxes
    and the counts of flat source regions are the expected ones. *)
Lemma half_planes_built :
  Examples.half_planes = Return Examples.half_planes_geometry /\
  _num_FSRs Examples.half_planes_geometry = 2 /\
  (_x_min Examples.half_planes_geometry, _x_max Examples.half_planes_geometry,
   _y_min Examples.half_planes_geometry, _y_max Examples.half_planes_geometry)
  = (Fin (-1 # 1), Fin (1 # 1), Fin (-1 # 1), Fin (1 # 1)).
Proof. split_and!; vm_compute; reflexivity. Qed.

Lemma nested_built :
  Examples.nested = Return Examples.nested_geometry /\
  _num_FSRs Examples.nested_geometry = 3 /\
  (Universe_region_map <$> _universes Examples.nested_geometry !! 0)
    = Some [(1, 0); (2, 2)] /\
  (Universe_region_map <$> _universes Examples.nested_geometry !! 1)
    = Some [(10, 0); (11, 1)] /\
  (_x_min Examples.nested_geometry, _x_max Examples.nested_geometry,
   _y_min Examples.nested_geometry, _y_max Examples.nested_geometry)
  = (Fin (-1 # 1), Fin (2 # 1), Fin (-1 # 1), Fin (1 # 1)) /\
  _right_bc Examples.nested_geometry = false.
Proof. split_and!; vm_compute; reflexivity. Qed.

Lemma two_pins_built :
  Examples.two_pins = Return Examples.two_pins_geometry /\
  _num_FSRs Examples.two_pins_geometry = 4 /\
  (Lattice_region_map <$> _lattices Examples.two_pins_geometry !! 8)
    = Some [[0; 2]] /\
  addLattice Examples.nested_geometry Examples.pin_lattice
    = Return Examples.with_lattice.
Proof. split_and!; vm_compute; reflexivity. Qed.

(** ** The constructor *)

Lemma dlt_not_finite a b :
  is_finite a = false -> dlt a b && dne a NegInf = false.
Proof. by destruct a, b. Qed.

Lemma dgt_not_finite a b :
  is_finite a = false -> dgt a b && dne a PosInf = false.
Proof. by destruct a, b. Qed.

Lemma no_finite_extent_keeps_bounds g surface bc :
  no_finite_extent surface -> update_boundaries g surface bc = g.
Proof.
  intros (Hx0 & Hx1 & Hy0 & Hy1). unfold update_boundaries.
  by rewrite !dlt_not_finite, !dgt_not_finite.
Qed.

Lemma addSurfaces_no_finite_extent l : forall g g',
  Forall no_finite_extent l ->
  addSurfaces g l = Return g' ->
  _x_min g' = _x_min g /\ _x_max g' = _x_max g /\
  _y_min g' = _y_min g /\ _y_max g' = _y_max g.
Proof.
  induction l as [|s l IH]; intros g g' Hl Hrun; cbn in Hrun.
  - by inversion Hrun.
  - apply Forall_cons in Hl as [Hs Hl].
    unfold addSurface in Hrun.
    destruct (found (_surfaces g) (Surface_getId s)); cbn in Hrun.
    + by apply IH.
    + destruct (Surface_getBoundaryType s); cbn in Hrun;
        rewrite ?no_finite_extent_keeps_bounds in Hrun by done;
        by apply IH in Hrun.
Qed.

(** C10.  A new geometry has the four boundary flags set (reflective), a
    largest segment length of 0 and a smallest of +infinity, no flat source
    region, no energy group, and the bounds x_min = y_min = DBL_MAX and
    x_max = y_max = -DBL_MAX; its width and height are negative, and they
    stay negative whatever surfaces without a finite extent are added. *)
Theorem Geometry_new_state :
  (getBCTop Geometry_new = true /\ getBCBottom Geometry_new = true /\
   getBCLeft Geometry_new = true /\ getBCRight Geometry_new = true) /\
  (_max_seg_length Geometry_new = Fin (inject_Z 0) /\
   _min_seg_length Geometry_new = PosInf /\
   _num_FSRs Geometry_new = 0 /\ _num_groups Geometry_new = 0) /\
  (_x_min Geometry_new = Fin DBL_MAX /\ _y_min Geometry_new = Fin DBL_MAX /\
   _x_max Geometry_new = Fin (Qopp DBL_MAX) /\
   _y_max Geometry_new = Fin (Qopp DBL_MAX)) /\
  (negative (getWidth Geometry_new) /\ negative (getHeight Geometry_new)) /\
  (forall l g, Forall no_finite_extent l ->
     addSurfaces Geometry_new l = Return g ->
     negative (getWidth g) /\ negative (getHeight g)).
Proof.
  repeat split; try reflexivity.
  - destruct (addSurfaces_no_finite_extent l Geometry_new g) as (Hx0 & Hx1 & _);
      [done..|].
    unfold negative, getWidth. rewrite Hx0, Hx1. reflexivity.
  - destruct (addSurfaces_no_finite_extent l Geometry_new g)
      as (_ & _ & Hy0 & Hy1); [done..|].
    unfold negative, getHeight. rewrite Hy0, Hy1. reflexivity.
Qed.

(** A reflective surface whose four extents are infinite is added: width
    and height stay negative. *)
Lemma Geometry_new_state_witness :
  let surface :=
    {| Surface_getId := 7; Surface_getBoundaryType := REFLECTIVE;
       Surface_getXMin := NegInf; Surface_getXMax := PosInf;
       Surface_getYMin := NegInf; Surface_getYMax := PosInf |} in
  let g := Examples.run Geometry_new (addSurfaces Geometry_new [surface]) in
  negative (getWidth g) /\ negative (getHeight g).
Proof.
  intros surface g.
  apply (proj2 (proj2 (proj2 (proj2 Geometry_new_state))) [surface] g).
  - repeat constructor.
  - reflexivity.
Defined.

(** ** Registries *)

Lemma found_Some {V : Type} (m : gmap Z V) (k : Z) :
  is_Some (m !! k) -> found m k = true.
Proof. intros [v Hv]. unfold found. by rewrite Hv. Qed.

Lemma found_None {V : Type} (m : gmap Z V) (k : Z) :
  m !! k = None -> found m k = false.
Proof. intros Hv. unfold found. by rewrite Hv. Qed.

(** C9.  [addSurface] called with a surface whose id is already in the
    surface registry returns before the bounding box is looked at: the call
    leaves the whole geometry, so the four bounds and the four boundary
    flags, as they were, whatever the extents and the boundary type of the
    surface. *)
Theorem addSurface_duplicate_unchanged (g : Geometry) (surface : Surface) :
  is_Some (_surfaces g !! Surface_getId surface) ->
  addSurface g surface = Return g.
Proof.
  intros Hdup. unfold addSurface. by rewrite found_Some.
Qed.

(** The plane x = -1, reflective, is registered under id 1; a vacuum plane
    x = -5 with the same id would move the left bound were it looked at. *)
Lemma addSurface_duplicate_unchanged_witness :
  let g :=
    Examples.run Geometry_new (addSurface Geometry_new Examples.left_plane) in
  let again := Examples.x_plane 1 (-5 # 1) VACUUM in
  addSurface g again = Return g /\
  _x_min g = Fin (-1 # 1) /\ _left_bc g = true /\
  dlt (Surface_getXMin again) (_x_min g) = true.
Proof.
  intros g again. split; [|done].
  apply (addSurface_duplicate_unchanged g again).
  eexists. vm_compute. reflexivity.
Defined.

(** C8.  An id already present in the registry makes [addMaterial],
    [addCell], [addUniverse] and [addLattice] end with a fatal error;
    [addLattice] also ends with a fatal error when the universe registry
    holds the id of the lattice; [addSurface] returns without error and
    leaves the surface registry as it was. *)
Theorem add_duplicate_id (g : Geometry) :
  (forall material, is_Some (_materials g !! Material_getId material) ->
     addMaterial g material =
     Abort (ERROR "Cannot add a second material with id = %d")) /\
  (forall cell, is_Some (_cells g !! Cell_getId cell) ->
     addCell g cell = Abort (ERROR "Cannot add a second cell with id = %d")) /\
  (forall universe, is_Some (_universes g !! Universe_getId universe) ->
     addUniverse g universe =
     Abort (ERROR "Cannot add a second universe with id = %d")) /\
  (forall lattice, is_Some (_lattices g !! Universe_getId lattice) ->
     addLattice g lattice =
     Abort (ERROR "Cannot add a second lattice with id = %d")) /\
  (forall lattice, is_Some (_universes g !! Universe_getId lattice) ->
     addLattice g lattice =
     Abort (ERROR (if found (_lattices g) (Universe_getId lattice)
                   then "Cannot add a second lattice with id = %d"
                   else "Cannot add a second universe (lattice) with id = %d"))) /\
  (forall surface, is_Some (_surfaces g !! Surface_getId surface) ->
     exists g', addSurface g surface = Return g' /\ _surfaces g' = _surfaces g).
Proof.
  repeat split.
  - intros material Hdup. unfold addMaterial. by rewrite found_Some.
  - intros cell Hdup. unfold addCell. by rewrite found_Some.
  - intros universe Hdup. unfold addUniverse. by rewrite found_Some.
  - intros lattice Hdup. unfold addLattice. by rewrite found_Some.
  - intros lattice Hdup. unfold addLattice.
    destruct (found (_lattices g) (Universe_getId lattice)); [done|].
    by rewrite found_Some.
  - intros surface Hdup. exists g. split; [|done].
    unfold addSurface. by rewrite found_Some.
Qed.

(** The nested geometry with its lattice holds materials 1 to 3, cells 1, 2,
    10 and 11, universes 0, 1 and 7, lattice 7 and surfaces 1 to 6. *)
Lemma add_duplicate_id_witness :
  let g := Examples.with_lattice in
  addMaterial g (Examples.material 3) =
    Abort (ERROR "Cannot add a second material with id = %d") /\
  addCell g Examples.core =
    Abort (ERROR "Cannot add a second cell with id = %d") /\
  addUniverse g (Universe_new 1) =
    Abort (ERROR "Cannot add a second universe with id = %d") /\
  addLattice g Examples.pin_lattice =
    Abort (ERROR "Cannot add a second lattice with id = %d") /\
  addLattice g (Universe_new 1) =
    Abort (ERROR "Cannot add a second universe (lattice) with id = %d") /\
  (exists g', addSurface g Examples.outer_plane = Return g' /\
              _surfaces g' = _surfaces g).
Proof.
  intros g.
  destruct (add_duplicate_id g) as (Hm & Hc & Hu & Hl & Hlu & Hs).
  split; [|split; [|split; [|split; [|split]]]].
  - apply Hm. eexists. vm_compute. reflexivity.
  - apply Hc. eexists. vm_compute. reflexivity.
  - apply Hu. eexists. vm_compute. reflexivity.
  - apply Hl. eexists. vm_compute. reflexivity.
  - apply (Hlu (Universe_new 1)). eexists. vm_compute. reflexivity.
  - apply Hs. eexists. vm_compute. reflexivity.
Defined.

(** ** Bounding box accumulation *)

Lemma Qltb_lt (a b : Q) : Qltb a b = true <-> Qlt a b.
Proof. unfold Qltb, Qlt. apply Z.ltb_lt. Qed.

Lemma Qltb_ge (a b : Q) : Qltb a b = false <-> Qle b a.
Proof. unfold Qltb, Qle. rewrite Z.ltb_ge. reflexivity. Qed.

Lemma dlt_trans (a b c : Q) :
  dlt (Fin a) (Fin b) = true -> dlt (Fin b) (Fin c) = true ->
  dlt (Fin a) (Fin c) = true.
Proof. cbn. rewrite !Qltb_lt. apply Qlt_trans. Qed.

Lemma dlt_cotrans (a b c : Q) :
  dlt (Fin a) (Fin c) = true -> dlt (Fin b) (Fin c) = false ->
  dlt (Fin a) (Fin b) = true.
Proof. cbn. rewrite !Qltb_lt, Qltb_ge. apply Qlt_le_trans. Qed.

Lemma dgt_cotrans (a b c : Q) :
  dgt (Fin a) (Fin c) = true -> dgt (Fin b) (Fin c) = false ->
  dgt (Fin a) (Fin b) = true.
Proof.
  unfold dgt. cbn. rewrite !Qltb_lt, Qltb_ge. intros Hca Hbc.
  by apply Qle_lt_trans with c.
Qed.

Lemma dlt_irrefl (a : Q) : dlt (Fin a) (Fin a) = false.
Proof. cbn. apply Qltb_ge, Qle_refl. Qed.

Lemma dlt_total (a b : Q) :
  dlt (Fin a) (Fin b) = false -> dlt (Fin b) (Fin a) = false ->
  deq (Fin a) (Fin b) = true.
Proof.
  cbn. rewrite !Qltb_ge. intros Hba Hab.
  apply Qeq_bool_iff. by apply Qle_antisym.
Qed.

Lemma deq_sym (a b : double) : deq a b = deq b a.
Proof.
  destruct a, b; try reflexivity. cbn.
  destruct (Qeq_bool q q0) eqn:E, (Qeq_bool q0 q) eqn:E'; try reflexivity.
  - apply Qeq_bool_iff, Qeq_sym, Qeq_bool_iff in E. congruence.
  - apply Qeq_bool_iff, Qeq_sym, Qeq_bool_iff in E'. congruence.
Qed.

Ltac bounds_cbn :=
  cbn [_x_min _x_max _y_min _y_max _left_bc _right_bc _bottom_bc
       _top_bc _surfaces set_x_min set_x_max set_y_min set_y_max
       set_surfaces fst snd].

(** The four tests of [update_boundaries], in the order of the code. *)
Ltac step_cases g s :=
  destruct (dlt (Surface_getXMin s) (_x_min g) && dne (Surface_getXMin s) NegInf);
  bounds_cbn;
  destruct (dgt (Surface_getXMax s) (_x_max g) && dne (Surface_getXMax s) PosInf);
  bounds_cbn;
  destruct (dlt (Surface_getYMin s) (_y_min g) && dne (Surface_getYMin s) NegInf);
  bounds_cbn;
  destruct (dgt (Surface_getYMax s) (_y_max g) && dne (Surface_getYMax s) PosInf);
  bounds_cbn.

Ltac add_step_tac :=
  intros g s Hnew; unfold addSurface; rewrite (found_None _ _ Hnew);
  unfold edge_step, bc_flag, update_boundaries;
  cbn [edge_extent edge_bound edge_flag edge_better edge_excluded
       left_edge right_edge bottom_edge top_edge fst snd];
  destruct (Surface_getBoundaryType s); eexists; (split; [reflexivity|]);
  bounds_cbn; step_cases g s; split; reflexivity.

Lemma representable_le (q : Q) :
  representable (Fin q) -> dlt (Fin DBL_MAX) (Fin q) = false.
Proof. by intros [? ?]. Qed.

Lemma representable_ge (q : Q) :
  representable (Fin q) -> dgt (Fin (Qopp DBL_MAX)) (Fin q) = false.
Proof. by intros [? ?]. Qed.

Lemma left_edge_ok : edge_ok left_edge.
Proof.
  split; cbn [edge_better edge_excluded edge_initial edge_extent edge_bound
              edge_flag left_edge].
  - apply dlt_trans.
  - apply dlt_cotrans.
  - apply dlt_irrefl.
  - apply dlt_total.
  - apply dlt_not_finite.
  - done.
  - by eexists.
  - done.
  - intros s q (Hr & _) Hq. rewrite Hq in Hr. by apply representable_le.
  - add_step_tac.
Qed.

Lemma bottom_edge_ok : edge_ok bottom_edge.
Proof.
  split; cbn [edge_better edge_excluded edge_initial edge_extent edge_bound
              edge_flag bottom_edge].
  - apply dlt_trans.
  - apply dlt_cotrans.
  - apply dlt_irrefl.
  - apply dlt_total.
  - apply dlt_not_finite.
  - done.
  - by eexists.
  - done.
  - intros s q (_ & _ & Hr & _) Hq. rewrite Hq in Hr. by apply representable_le.
  - add_step_tac.
Qed.

Lemma right_edge_ok : edge_ok right_edge.
Proof.
  split; cbn [edge_better edge_excluded edge_initial edge_extent edge_bound
              edge_flag right_edge].
  - intros a b c Hab Hbc. unfold dgt in *. by apply dlt_trans with b.
  - apply dgt_cotrans.
  - intros a. apply dlt_irrefl.
  - intros a b Hab Hba. unfold dgt in *. by apply dlt_total.
  - apply dgt_not_finite.
  - done.
  - by eexists.
  - done.
  - intros s q (_ & Hr & _) Hq. rewrite Hq in Hr. by apply representable_ge.
  - add_step_tac.
Qed.

Lemma top_edge_ok : edge_ok top_edge.
Proof.
  split; cbn [edge_better edge_excluded edge_initial edge_extent edge_bound
              edge_flag top_edge].
  - intros a b c Hab Hbc. unfold dgt in *. by apply dlt_trans with b.
  - apply dgt_cotrans.
  - intros a. apply dlt_irrefl.
  - intros a b Hab Hba. unfold dgt in *. by apply dlt_total.
  - apply dgt_not_finite.
  - done.
  - by eexists.
  - done.
  - intros s q (_ & _ & _ & Hr) Hq. rewrite Hq in Hr. by apply representable_ge.
  - add_step_tac.
Qed.

Section Accumulation.
Variable e : edge.
Hypothesis Hok : edge_ok e.

Lemma edge_step_candidate st s q :
  Surface_getBoundaryType s <> BOUNDARY_NONE ->
  edge_extent e s = Fin q ->
  edge_step e st s =
  if edge_better e (Fin q) st.1 then (Fin q, bc_flag s) else st.
Proof.
  intros Hbc Hq. unfold edge_step. rewrite Hq, (finite_included e Hok).
  rewrite andb_true_r. by destruct (Surface_getBoundaryType s).
Qed.

Lemma edge_step_other st s : ~ candidate e s -> edge_step e st s = st.
Proof.
  intros Hs. unfold edge_step.
  destruct (Surface_getBoundaryType s) eqn:Hbc; [| |done].
  all: destruct (is_finite (edge_extent e s)) eqn:Hfin;
    [ destruct (edge_extent e s) eqn:Hq; try discriminate;
      destruct Hs; split; [congruence | by eexists]
    | by rewrite (better_not_finite e Hok) ].
Qed.

(** The surfaces of [l] carry ids that are new to [g] and differ from each
    other: every call runs the update, and the bound and flag of the edge
    are a fold of [edge_step]. *)
Lemma addSurfaces_fold l : forall g g',
  NoDup (Surface_getId <$> l) ->
  (forall s, s ∈ l -> _surfaces g !! Surface_getId s = None) ->
  addSurfaces g l = Return g' ->
  (edge_bound e g', edge_flag e g') =
  foldl (edge_step e) (edge_bound e g, edge_flag e g) l.
Proof.
  induction l as [|s l IH]; intros g g' Hnd Hnew Hrun; cbn in *.
  - by inversion Hrun.
  - apply NoDup_cons in Hnd as [Hs Hnd].
    destruct (add_step e Hok g s) as (g1 & Hadd & Hstep & Hsurf).
    { apply Hnew. by left. }
    rewrite Hadd in Hrun. cbn in Hrun.
    rewrite <- Hstep. apply IH; [done| |done].
    intros s' Hs'. rewrite Hsurf, lookup_insert_ne.
    + apply Hnew. by right.
    + intros Heq. apply Hs. rewrite Heq. apply list_elem_of_fmap. by exists s'.
Qed.

Lemma settled_skip b0 f0 l st x :
  settled e b0 f0 l st -> ~ candidate e x -> settled e b0 f0 (l ++ [x]) st.
Proof.
  intros [[Hst Hall]|(l1 & s & l2 & Hl & Hs & Hst & Hb0 & H1 & H2)] Hx.
  - left. split; [done|]. intros s' Hs' Hc.
    apply elem_of_app in Hs' as [Hs'|Hs']; [by apply Hall|].
    apply list_elem_of_singleton in Hs'. by subst.
  - right. exists l1, s, (l2 ++ [x]). rewrite Hl, <- app_assoc.
    split_and!; try done. intros s' Hs' Hc.
    apply elem_of_app in Hs' as [Hs'|Hs']; [by apply H2|].
    apply list_elem_of_singleton in Hs'. by subst.
Qed.

Lemma settled_take q0 f0 l st x :
  settled e (Fin q0) f0 l st -> candidate e x ->
  settled e (Fin q0) f0 (l ++ [x]) (edge_step e st x).
Proof.
  intros Hl [Hbc [q Hq]].
  assert (Hx : candidate e x) by (split; [done | by eexists]).
  rewrite (edge_step_candidate _ _ q) by done.
  destruct Hl as [[-> Hall]|(l1 & s & l2 & -> & Hs & -> & Hb0 & H1 & H2)];
    cbn [fst].
  - destruct (edge_better e (Fin q) (Fin q0)) eqn:Hbetter.
    + right. exists l, x, []. rewrite Hq. split_and!; try done.
      * intros s' Hs' Hc. pose proof (Hall s' Hs' Hc) as Hs0.
        destruct Hc as [_ [q' Hq']]. rewrite Hq' in *.
        by apply (better_cotrans e Hok) with q0.
      * intros s' Hs'. by apply elem_of_nil in Hs'.
    + left. split; [done|]. intros s' Hs' Hc.
      apply elem_of_app in Hs' as [Hs'|Hs']; [by apply Hall|].
      apply list_elem_of_singleton in Hs'. subst. by rewrite Hq.
  - destruct Hs as [Hsbc [qs Hqs]].
    assert (Hs : candidate e s) by (split; [done | by eexists]).
    rewrite Hqs in *.
    destruct (edge_better e (Fin q) (Fin qs)) eqn:Hbetter.
    + right. exists (l1 ++ s :: l2), x, []. rewrite Hq.
      split_and!; try done.
      * by apply (better_trans e Hok) with qs.
      * intros s' Hs' Hc.
        apply elem_of_app in Hs' as [Hs'|Hs'].
        { pose proof (H1 s' Hs' Hc) as Hlt.
          destruct Hc as [_ [q' Hq']]. rewrite Hq' in *.
          by apply (better_trans e Hok) with qs. }
        apply elem_of_cons in Hs' as [->|Hs'].
        { by rewrite Hqs. }
        pose proof (H2 s' Hs' Hc) as Hge.
        destruct Hc as [_ [q' Hq']]. rewrite Hq' in *.
        by apply (better_cotrans e Hok) with qs.
      * intros s' Hs'. by apply elem_of_nil in Hs'.
    + right. exists l1, s, (l2 ++ [x]). rewrite <- app_assoc, Hqs.
      split_and!; try done.
      intros s' Hs' Hc.
      apply elem_of_app in Hs' as [Hs'|Hs']; [by apply H2|].
      apply list_elem_of_singleton in Hs'. subst. by rewrite Hq.
Qed.

Lemma fold_edge_step l q0 f0 :
  settled e (Fin q0) f0 l (foldl (edge_step e) (Fin q0, f0) l).
Proof.
  induction l as [|x l IH] using rev_ind.
  - left. split; [done|]. intros s Hs. by apply elem_of_nil in Hs.
  - rewrite foldl_app. cbn [foldl].
    destruct (Surface_getBoundaryType x) eqn:Hbc;
      [destruct (edge_extent e x) as [| |q|] eqn:Hq .. |].
    all: try (apply settled_take; [done|]; split; [congruence | by eexists]).
    all: assert (Hx : ~ candidate e x)
           by (intros [Hx1 [qx Hx2]]; congruence);
         rewrite (edge_step_other _ _ Hx); by apply settled_skip.
Qed.

End Accumulation.

Lemma addSurfaces_returns l : forall g, exists g', addSurfaces g l = Return g'.
Proof.
  induction l as [|s l IH]; intros g; cbn.
  - by eexists.
  - unfold addSurface.
    destruct (found (_surfaces g) (Surface_getId s)); cbn; [apply IH|].
    destruct (Surface_getBoundaryType s); cbn; apply IH.
Qed.

Lemma addSurfaces_extremal (e : edge) (l : list Surface) (g : Geometry) :
  edge_ok e ->
  NoDup (Surface_getId <$> l) ->
  Forall representable_extents l ->
  addSurfaces Geometry_new l = Return g ->
  extremal e l g.
Proof.
  intros Hok Hnd Hrep Hrun.
  pose proof (addSurfaces_fold e Hok l Geometry_new g Hnd) as Hfold.
  destruct (initial_finite e Hok) as [q0 Hq0].
  pose proof (fold_edge_step e Hok l q0 true) as Hset.
  assert (Hst : (edge_bound e g, edge_flag e g) =
                foldl (edge_step e) (Fin q0, true) l).
  { rewrite Hfold; [|by intros; apply lookup_empty|done].
    destruct (initial_new e Hok) as [-> ->]. by rewrite Hq0. }
  rewrite <- Hst in Hset. clear Hfold Hst. unfold extremal.
  rewrite Hq0 in *.
  split; [|split; [|done]].
  - (* no counted surface reaches beyond the bound *)
    destruct Hset as [[[= Hb Hf] Hall]
                     |(l1 & s & l2 & -> & Hs & [= Hb Hf] & Hb0 & H1 & H2)];
      rewrite Hb.
    + done.
    + destruct Hs as [_ [qs Hqs]]. rewrite Hqs in *.
      intros s' Hs' Hc. apply elem_of_app in Hs' as [Hs'|Hs'].
      * pose proof (H1 s' Hs' Hc) as Hlt.
        destruct Hc as [_ [q' Hq']]. rewrite Hq' in *.
        destruct (edge_better e (Fin q') (Fin qs)) eqn:Hgt; [|done].
        pose proof (better_trans e Hok _ _ _ Hlt Hgt) as Habs.
        by rewrite (better_irrefl e Hok) in Habs.
      * apply elem_of_cons in Hs' as [->|Hs']; [|by apply H2].
        rewrite Hqs. apply (better_irrefl e Hok).
  - (* the bound is attained *)
    intros (c & Hc & Hcand).
    destruct Hset as [[[= Hb Hf] Hall]
                     |(l1 & s & l2 & -> & Hs & [= Hb Hf] & Hb0 & H1 & H2)];
      rewrite Hb.
    + exists c. split_and!; try done.
      pose proof (Hall c Hc Hcand) as Hge.
      destruct Hcand as [_ [qc Hqc]]. rewrite Hqc in *.
      rewrite deq_sym. apply (better_total e Hok); [done|].
      rewrite <- Hq0. apply (initial_extreme e Hok c); [|done].
      by eapply Forall_forall in Hrep.
    + exists s. split_and!; try done.
      * apply elem_of_app. right. by left.
      * destruct Hs as [_ [qs Hqs]]. rewrite Hqs.
        apply (better_total e Hok); apply (better_irrefl e Hok).
Qed.

(** C7.  After the surfaces of a list with distinct ids were added to a new
    geometry, on each of the four edges: the bound is the extremal finite
    extent over the added REFLECTIVE or VACUUM surfaces (the least x_min
    and y_min, the greatest x_max and y_max; surfaces without boundary
    condition and infinite extents are not counted), and the flag of the
    edge is 1 or 0 after the boundary type of the surface that set the
    bound. *)
Theorem addSurface_bounding_box (l : list Surface) :
  NoDup (Surface_getId <$> l) ->
  Forall representable_extents l ->
  exists g,
    addSurfaces Geometry_new l = Return g /\
    extremal left_edge l g /\ extremal right_edge l g /\
    extremal bottom_edge l g /\ extremal top_edge l g.
Proof.
  intros Hnd Hrep.
  destruct (addSurfaces_returns l Geometry_new) as [g Hrun].
  exists g. split; [done|].
  split_and!; apply addSurfaces_extremal;
    auto using left_edge_ok, right_edge_ok, bottom_edge_ok, top_edge_ok.
Qed.

(** The six planes of the examples: x = -1, x = 1, y = -1 and y = 1
    reflective, x = 0 without boundary condition, x = 2 vacuum.  The box is
    [-1, 2] x [-1, 1] and the right edge, set by the vacuum plane, is the
    only one whose flag is 0. *)
Lemma addSurface_bounding_box_witness :
  let l := [Examples.left_plane; Examples.right_plane;
            Examples.bottom_plane; Examples.top_plane;
            Examples.middle_plane; Examples.outer_plane] in
  exists g,
    addSurfaces Geometry_new l = Return g /\
    (extremal left_edge l g /\ extremal right_edge l g /\
     extremal bottom_edge l g /\ extremal top_edge l g) /\
    (_x_min g, _x_max g, _y_min g, _y_max g)
      = (Fin (-1 # 1), Fin (2 # 1), Fin (-1 # 1), Fin (1 # 1)) /\
    (_left_bc g, _right_bc g, _bottom_bc g, _top_bc g)
      = (true, false, true, true).
Proof.
  intros l. destruct (addSurface_bounding_box l) as (g & Hrun & Hbox).
  - apply (bool_decide_unpack _). vm_compute. exact I.
  - repeat (apply Forall_cons; split;
            [by (repeat split; vm_compute)|]).
    apply Forall_nil_2.
  - exists g. split; [done|]. split; [done|].
    pose (expected := Examples.run Geometry_new (addSurfaces Geometry_new l)).
    assert (Hg : addSurfaces Geometry_new l = Return expected)
      by (vm_compute; reflexivity).
    rewrite Hg in Hrun. injection Hrun as <-.
    split; vm_compute; reflexivity.
Defined.

(** ** Flat source region of a coordinate list *)

Lemma int_add_exact (a b : Z) :
  - 2 ^ 31 <= a + b <= INT_MAX -> int_add a b = a + b.
Proof.
  unfold int_add, INT_MAX. intros Hab.
  rewrite Z.mod_small by lia. lia.
Qed.

Lemma at2_lookup {V : Type} (t : list (list V)) (i j : Z) row v :
  0 <= i -> 0 <= j ->
  t !! Z.to_nat i = Some row -> row !! Z.to_nat j = Some v ->
  at2 t i j = Return v.
Proof.
  intros Hi Hj Hrow Hv. unfold at2.
  destruct (i <? 0) eqn:Ei; [lia|]. destruct (j <? 0) eqn:Ej; [lia|].
  cbn. by rewrite Hrow, Hv.
Qed.

Lemma total_cons (x : Z) (l : list Z) : total (x :: l) = x + total l.
Proof. reflexivity. Qed.

Lemma total_nonneg (l : list Z) : Forall (fun x => 0 <= x) l -> 0 <= total l.
Proof.
  induction 1 as [|x l Hx Hl IH]; [done|]. rewrite total_cons. lia.
Qed.

Lemma findFSRId_from (g : Geometry) (coords : chain) : forall offsets acc body,
  body = (fun fsr_id curr =>
            match LocalCoords_getType curr with
            | LAT =>
                lattice ← at_ (_lattices g) (LocalCoords_getLattice curr);
                fsr ← Lattice_getFSR lattice (LocalCoords_getLatticeX curr)
                        (LocalCoords_getLatticeY curr);
                Return (int_add fsr_id fsr)
            | UNIV =>
                universe ← at_ (_universes g) (LocalCoords_getUniverse curr);
                fsr ← Universe_getFSR universe (LocalCoords_getCell curr);
                Return (int_add fsr_id fsr)
            end) ->
  Forall2 (level_offset g) coords offsets ->
  Forall (fun fsr => 0 <= fsr) offsets ->
  0 <= acc -> acc + total offsets <= INT_MAX ->
  foldM body acc coords = Return (acc + total offsets).
Proof.
  induction coords as [|curr coords IH];
    intros offsets acc body -> Hoff Hpos Hacc Hmax.
  - apply Forall2_nil_inv_l in Hoff as ->. cbn. f_equal. lia.
  - apply Forall2_cons_inv_l in Hoff as (fsr & rest & Hfsr & Hrest & ->).
    apply Forall_cons in Hpos as [Hfsr0 Hpos]. rewrite total_cons in *.
    pose proof (total_nonneg rest Hpos) as Htot.
    assert (Hstep : int_add acc fsr = acc + fsr).
    { apply int_add_exact. unfold INT_MAX in *. lia. }
    cbn [foldM].
    destruct Hfsr as [universe Hty Hu Hmap|lattice row Hty Hl Hx Hy Hrow Hcol];
      rewrite Hty; unfold at_.
    + rewrite Hu. cbn. unfold Universe_getFSR. rewrite Hmap. cbn.
      rewrite Hstep, (IH rest); [f_equal; lia|done..|lia|lia].
    + rewrite Hl. cbn. unfold Lattice_getFSR.
      rewrite (at2_lookup _ _ _ row fsr) by done. cbn.
      rewrite Hstep, (IH rest); [f_equal; lia|done..|lia|lia].
Qed.

(** C5.  When every level of a coordinate list has an FSR offset (the
    offset of the recorded cell in the universe of a UNIVERSE node, the
    offset of the recorded lattice cell in the lattice of a LATTICE node),
    [findFSRId] returns the sum of these offsets from head to tail.  The
    offsets are counts of regions: none is negative and their sum is an
    [int]. *)
Theorem findFSRId_sum (g : Geometry) (coords : chain) (offsets : list Z) :
  Forall2 (level_offset g) coords offsets ->
  Forall (fun fsr => 0 <= fsr) offsets ->
  total offsets <= INT_MAX ->
  findFSRId g coords = Return (total offsets).
Proof.
  intros Hoff Hpos Hmax. unfold findFSRId.
  by rewrite (findFSRId_from g coords offsets 0 _ eq_refl).
Qed.

(** The east pin of the two-pin lattice, in its east cell: offsets 0 in
    universe 0, 2 in the lattice and 1 in universe 1. *)
Lemma findFSRId_sum_witness :
  findFSRId Examples.two_pins_geometry
    [Examples.in_universe 0 1 (1 # 2) (0 # 1);
     Examples.in_lattice 8 1 0 (0 # 1) (0 # 1);
     Examples.in_universe 1 11 (1 # 4) (0 # 1)] = Return 3.
Proof.
  apply (findFSRId_sum Examples.two_pins_geometry _ [0; 2; 1]).
  - constructor; [|constructor; [|constructor; [|constructor]]].
    + eapply universe_offset; [reflexivity|vm_compute; reflexivity|reflexivity].
    + eapply lattice_offset;
        [reflexivity|vm_compute; reflexivity|done|done|reflexivity|reflexivity].
    + eapply universe_offset; [reflexivity|vm_compute; reflexivity|reflexivity].
  - repeat constructor; lia.
  - vm_compute. discriminate.
Defined.

(** ** The relocation test of [findNextCell] *)

Section Relocation.
Context `{Primitives}.

Lemma lattice_cell_differs_spec (test_up : chain) : forall coords_up : chain,
  lattice_cell_differs test_up coords_up = true <->
  exists (k : nat) (t c : LocalCoords),
    test_up !! k = Some t /\ coords_up !! k = Some c /\
    LocalCoords_getType t = LAT /\ LocalCoords_getType c = LAT /\
    (LocalCoords_getLatticeX c <> LocalCoords_getLatticeX t \/
     LocalCoords_getLatticeY c <> LocalCoords_getLatticeY t) /\
    (forall (k' : nat) (t' c' : LocalCoords),
       (k' <= k)%nat ->
       test_up !! k' = Some t' -> coords_up !! k' = Some c' ->
       LocalCoords_getUniverse t' <> 0 /\ LocalCoords_getUniverse c' <> 0).
Proof.
  induction test_up as [|t ts IH]; intros [|c cs]; cbn [lattice_cell_differs].
  1-3: split; [done|]; intros (k & t' & c' & Ht & Hc & _); by destruct k.
  destruct (LocalCoords_getUniverse t =? 0) eqn:Ut; cbn [negb andb].
  { split; [done|]. intros (k & t' & c' & _ & _ & _ & _ & _ & Hwalk).
    destruct (Hwalk 0%nat t c) as [Habs _]; [lia|done..|]. lia. }
  destruct (LocalCoords_getUniverse c =? 0) eqn:Uc; cbn [negb andb].
  { split; [done|]. intros (k & t' & c' & _ & _ & _ & _ & _ & Hwalk).
    destruct (Hwalk 0%nat t c) as [_ Habs]; [lia|done..|]. lia. }
  assert (Hhere : forall (k' : nat) t' c', (k' <= 0)%nat ->
            (t :: ts) !! k' = Some t' -> (c :: cs) !! k' = Some c' ->
            LocalCoords_getUniverse t' <> 0 /\ LocalCoords_getUniverse c' <> 0).
  { intros k' t' c' Hk. replace k' with 0%nat by lia. cbn.
    intros [= <-] [= <-]. lia. }
  assert (Hnext : lattice_cell_differs ts cs = true <->
            exists (k : nat) t' c',
              (t :: ts) !! S k = Some t' /\ (c :: cs) !! S k = Some c' /\
              LocalCoords_getType t' = LAT /\ LocalCoords_getType c' = LAT /\
              (LocalCoords_getLatticeX c' <> LocalCoords_getLatticeX t' \/
               LocalCoords_getLatticeY c' <> LocalCoords_getLatticeY t') /\
              (forall (k' : nat) t'' c'', (k' <= S k)%nat ->
                 (t :: ts) !! k' = Some t'' -> (c :: cs) !! k' = Some c'' ->
                 LocalCoords_getUniverse t'' <> 0 /\
                 LocalCoords_getUniverse c'' <> 0)).
  { rewrite IH. split.
    - intros (k & t' & c' & Ht & Hc & Ht1 & Hc1 & Hne & Hwalk).
      exists k, t', c'. split_and!; try done.
      intros [|k'] t'' c'' Hk; [apply Hhere; lia|].
      cbn. apply Hwalk. lia.
    - intros (k & t' & c' & Ht & Hc & Ht1 & Hc1 & Hne & Hwalk).
      exists k, t', c'. split_and!; try done.
      intros k' t'' c'' Hk. apply (Hwalk (S k')). lia. }
  assert (Hskip : ~ (LocalCoords_getType t = LAT /\ LocalCoords_getType c = LAT /\
                     (LocalCoords_getLatticeX c <> LocalCoords_getLatticeX t \/
                      LocalCoords_getLatticeY c <> LocalCoords_getLatticeY t)) ->
            (lattice_cell_differs ts cs = true <->
             exists (k : nat) t' c',
               (t :: ts) !! k = Some t' /\ (c :: cs) !! k = Some c' /\
               LocalCoords_getType t' = LAT /\ LocalCoords_getType c' = LAT /\
               (LocalCoords_getLatticeX c' <> LocalCoords_getLatticeX t' \/
                LocalCoords_getLatticeY c' <> LocalCoords_getLatticeY t') /\
               (forall (k' : nat) t'' c'', (k' <= k)%nat ->
                  (t :: ts) !! k' = Some t'' -> (c :: cs) !! k' = Some c'' ->
                  LocalCoords_getUniverse t'' <> 0 /\
                  LocalCoords_getUniverse c'' <> 0))).
  { intros Hno. rewrite Hnext. split.
    - intros (k & Hk). by exists (S k).
    - intros ([|k] & t' & c' & Ht & Hc & Ht1 & Hc1 & Hne & Hwalk).
      + cbn in Ht, Hc. injection Ht as <-. injection Hc as <-.
        destruct Hno. done.
      + by exists k, t', c'. }
  destruct (LocalCoords_getType c) eqn:Tc;
    [apply Hskip; intros (_ & ? & _); done|].
  destruct (LocalCoords_getType t) eqn:Tt;
    [apply Hskip; intros (? & _); done|].
  destruct (LocalCoords_getLatticeX c =? LocalCoords_getLatticeX t) eqn:Ex;
    destruct (LocalCoords_getLatticeY c =? LocalCoords_getLatticeY t) eqn:Ey;
    cbn [negb orb].
  - apply Hskip. intros (_ & _ & [Hx|Hy]); lia.
  - split; [|done]. intros _. exists 0%nat, t, c.
    split_and!; try done. right. lia.
  - split; [|done]. intros _. exists 0%nat, t, c.
    split_and!; try done. left. lia.
  - split; [|done]. intros _. exists 0%nat, t, c.
    split_and!; try done. left. lia.
Qed.

Lemma lattice_cell_differs_detected (test coords : chain) :
  lattice_cell_differs (reverse test) (reverse coords) = true <->
  lattice_step_detected test coords.
Proof. apply lattice_cell_differs_spec. Qed.


(** The west pin of the two-pin lattice against its east pin: the lattice
    nodes differ in their x index, one level above the lowest one. *)
Lemma lattice_step_detected_pins :
  lattice_step_detected
    [Examples.in_universe 0 1 (-1 # 4) (0 # 1);
     Examples.in_lattice 8 0 0 (1 # 4) (0 # 1);
     Examples.in_universe 1 11 (1 # 4) (0 # 1)]
    [Examples.in_universe 0 1 (1 # 4) (0 # 1);
     Examples.in_lattice 8 1 0 (-1 # 4) (0 # 1);
     Examples.in_universe 1 10 (-1 # 4) (0 # 1)].
Proof. by apply lattice_cell_differs_detected. Qed.

(** The three ways through [findNextCell] once the current cell is
    known. *)
Lemma findNextCell_outside (fuel : nat) (g : Geometry) (coords left : chain)
    (angle : double) :
  findCell g coords = Return (None, left) ->
  findNextCell fuel g coords angle = Return (None, left).
Proof. intros Hfind. unfold findNextCell. by rewrite Hfind. Qed.

Lemma findNextCell_infinite (fuel : nat) (g : Geometry) (coords saved : chain)
    (angle : double) (cell : Cell) (lowest : LocalCoords) (p : Point) :
  findCell g coords = Return (Some cell, saved) ->
  last saved = Some lowest ->
  Cell_minSurfaceDist cell (LocalCoords_getPoint lowest) angle = (PosInf, p) ->
  findNextCell fuel g coords angle = leave_by_lattice fuel g saved angle.
Proof.
  intros Hfind Hlow Hdist. unfold findNextCell. rewrite Hfind. cbn.
  by rewrite Hlow, Hdist.
Qed.

Lemma findNextCell_relocation (fuel : nat) (g : Geometry)
    (coords saved relocated : chain) (angle dist : double)
    (cell : Cell) (lowest : LocalCoords) (p : Point) (cell' : option Cell) :
  findCell g coords = Return (Some cell, saved) ->
  last saved = Some lowest ->
  Cell_minSurfaceDist cell (LocalCoords_getPoint lowest) angle = (dist, p) ->
  dne dist PosInf = true ->
  findCell g
    (LocalCoords_adjustCoords (LocalCoords_updateMostLocal saved p)
       (dmul (cos angle) TINY_MOVE) (dmul (sin angle) TINY_MOVE))
    = Return (cell', relocated) ->
  findNextCell fuel g coords angle =
  if bool_decide (cell' <> None)
     && negb (lattice_cell_differs (reverse saved) (reverse relocated))
  then Return (cell', relocated)
  else leave_by_lattice fuel g saved angle.
Proof.
  intros Hfind Hlow Hdist Hfinite Hmoved.
  unfold findNextCell. rewrite Hfind. cbn. rewrite Hlow, Hdist, Hfinite.
  rewrite Hmoved. cbn.
  destruct (lattice_cell_differs (reverse saved) (reverse relocated));
    destruct cell'; cbn; try done.
  by rewrite Hfinite.
Qed.



End Relocation.


(** ** Fuel *)

Section Fuel.
Context `{Primitives}.

Lemma lattice_crossing_S (fuel : nat) (g : Geometry) (coords : chain)
    (angle : double) :
  lattice_crossing (S fuel) g coords angle =
  match last coords with
  | None => Abort NullPointer
  | Some curr =>
      if LocalCoords_getUniverse curr =? 0 then Return (None, coords)
      else
        match LocalCoords_getType curr with
        | LAT =>
            lattice ← at_ (_lattices g) (LocalCoords_getLattice curr);
            '(cell, moved) ← Lattice_findNextLatticeCell lattice coords
                               angle (_universes g);
            match cell with
            | Some c => Return (Some c, moved)
            | None =>
                match (length coords - 1)%nat with
                | O => Abort NullPointer
                | S k =>
                    coords ← retrace_from_lowest (take (S k) moved);
                    lattice_crossing fuel g coords angle
                end
            end
        | UNIV => lattice_crossing fuel g coords angle
        end
  end.
Proof. reflexivity. Qed.

(** A result reached with some fuel is reached with more. *)
Lemma lattice_crossing_more (fuel : nat) : forall g coords angle r,
  lattice_crossing fuel g coords angle = r -> r <> Spin ->
  lattice_crossing (S fuel) g coords angle = r.
Proof.
  induction fuel as [|fuel IH]; intros g coords angle r Hrun Hr.
  { cbn in Hrun. congruence. }
  rewrite lattice_crossing_S in Hrun |- *.
  destruct (last coords) as [curr|]; [|done].
  destruct (LocalCoords_getUniverse curr =? 0); [done|].
  destruct (LocalCoords_getType curr); [by apply IH|].
  destruct (at_ (_lattices g) (LocalCoords_getLattice curr)) as [lattice| |];
    cbn in *; [|done..].
  destruct (Lattice_findNextLatticeCell lattice coords angle (_universes g))
    as [[[c|] moved]| |]; cbn in *; [done| |done..].
  destruct (length coords - 1)%nat; [done|].
  destruct (retrace_from_lowest (take (S n) moved)); cbn in *; [|done..].
  by apply IH.
Qed.

Lemma leave_by_lattice_more (fuel : nat) g coords angle r :
  leave_by_lattice fuel g coords angle = r -> r <> Spin ->
  leave_by_lattice (S fuel) g coords angle = r.
Proof.
  unfold leave_by_lattice.
  destruct (retrace_from_lowest coords); cbn; [|done..].
  apply lattice_crossing_more.
Qed.

Lemma findNextCell_more (fuel : nat) g coords angle r :
  findNextCell fuel g coords angle = r -> r <> Spin ->
  findNextCell (S fuel) g coords angle = r.
Proof.
  unfold findNextCell.
  destruct (findCell g coords) as [[[cell|] saved]| |]; cbn; [|done..].
  destruct (last saved) as [lowest|]; [|done].
  destruct (Cell_minSurfaceDist cell (LocalCoords_getPoint lowest) angle)
    as [dist p].
  destruct (dne dist PosInf).
  - destruct (findCell g _) as [[cell' relocated]| |]; cbn; [|done..].
    match goal with
    | |- context [dne ?d PosInf] => destruct (dne d PosInf); [done|]
    end.
    match goal with
    | |- context [deq ?d PosInf] => destruct (deq d PosInf); [|done]
    end.
    apply leave_by_lattice_more.
  - destruct (deq dist PosInf); [|done]. apply leave_by_lattice_more.
Qed.

Lemma segmentize_loop_S (fuel : nat) (g : Geometry) (track : Track)
    (curr : option Cell) (segment_end : chain) :
  segmentize_loop (S fuel) g track curr segment_end =
  match curr with
  | None => Return (g, track)
  | Some prev =>
      let segment_start := segment_end in
      '(curr, segment_end) ← findNextCell fuel g segment_end
                               (Track_getPhi track);
      match segment_start, segment_end with
      | start :: _, end_ :: _ =>
          let segment_length :=
            Point_distance (LocalCoords_getPoint end_)
              (LocalCoords_getPoint start) in
          material ← at_ (_materials g) (Cell_getMaterial prev);
          let g :=
            set_seg_lengths g
              (if dgt segment_length (_max_seg_length g)
               then segment_length else _max_seg_length g)
              (if dlt segment_length (_min_seg_length g)
               then segment_length else _min_seg_length g) in
          region_id ← findFSRId g segment_start;
          if deq (LocalCoords_getX start) (LocalCoords_getX end_)
             && deq (LocalCoords_getY start) (LocalCoords_getY end_) then
            Abort (ERROR "Created a segment with the same start and end point: x = %f, y = %f")
          else
            let track :=
              Track_addSegment track
                {| _length := segment_length; _material := material;
                   _region_id := region_id |} in
            segmentize_loop fuel g track curr segment_end
      | _, _ => Abort NullPointer
      end
  end.
Proof. reflexivity. Qed.

Lemma segmentize_loop_more (fuel : nat) : forall g track curr segment_end r,
  segmentize_loop fuel g track curr segment_end = r -> r <> Spin ->
  segmentize_loop (S fuel) g track curr segment_end = r.
Proof.
  induction fuel as [|fuel IH]; intros g track curr segment_end r Hrun Hr.
  { cbn in Hrun. congruence. }
  rewrite segmentize_loop_S in Hrun.
  rewrite (segmentize_loop_S (S fuel)).
  destruct curr as [prev|]; [|done].
  cbv zeta in Hrun |- *.
  destruct (findNextCell fuel g segment_end (Track_getPhi track))
    as [[next moved]| |] eqn:Hnext; cbn [mbind outcome_bind] in Hrun; [| |congruence];
    rewrite (findNextCell_more fuel g segment_end _ _ Hnext) by done;
    cbn [mbind outcome_bind]; [|done].
  destruct segment_end as [|start ?]; [done|].
  destruct moved as [|end_ ?]; [done|].
  destruct (at_ (_materials g) (Cell_getMaterial prev));
    cbn [mbind outcome_bind] in Hrun |- *; [|done..].
  match goal with
  | |- context [findFSRId ?g' ?c] =>
      destruct (findFSRId g' c); cbn [mbind outcome_bind] in Hrun |- *;
      [|done..]
  end.
  match goal with
  | |- context [deq ?a ?b && deq ?c ?d] =>
      destruct (deq a b && deq c d); [done|]
  end.
  by apply IH.
Qed.

Lemma segmentize_more (fuel : nat) g track r :
  segmentize fuel g track = r -> r <> Spin ->
  segmentize (S fuel) g track = r.
Proof.
  unfold segmentize. cbv zeta.
  destruct (findFirstCell g _ _) as [[[first|] moved]| |]; cbn; [|done..].
  apply segmentize_loop_more.
Qed.

Lemma findNextCell_enough (fuel extra : nat) g coords angle r :
  findNextCell fuel g coords angle = r -> r <> Spin ->
  findNextCell (fuel + extra) g coords angle = r.
Proof.
  intros Hrun Hr. induction extra as [|extra IH].
  - by rewrite Nat.add_0_r.
  - rewrite Nat.add_succ_r. by apply findNextCell_more.
Qed.

Lemma segmentize_enough (fuel extra : nat) g track r :
  segmentize fuel g track = r -> r <> Spin ->
  segmentize (fuel + extra) g track = r.
Proof.
  intros Hrun Hr. induction extra as [|extra IH].
  - by rewrite Nat.add_0_r.
  - rewrite Nat.add_succ_r. by apply segmentize_more.
Qed.

(** A lowest level that is a UNIVERSE node outside universe 0 is left as it
    is by every turn of the loop: no fuel is enough. *)
Lemma lattice_crossing_spins (fuel : nat) g coords angle curr :
  last coords = Some curr ->
  LocalCoords_getUniverse curr <> 0 ->
  LocalCoords_getType curr = UNIV ->
  lattice_crossing fuel g coords angle = Spin.
Proof.
  intros Hlast Hu Hty. induction fuel as [|fuel IH]; [done|].
  rewrite lattice_crossing_S, Hlast, Hty.
  by destruct (Z.eqb_spec (LocalCoords_getUniverse curr) 0).
Qed.

(** A list that ends in a LATTICE node right below the head: when the
    lattice has no next cell the node is pruned, the head is in universe 0
    and the call returns NULL. *)
Lemma lattice_crossing_leaves (fuel : nat) (g : Geometry)
    (head node head' : LocalCoords) (below : chain) (angle : double)
    (lattice : Universe) :
  LocalCoords_getUniverse node <> 0 ->
  LocalCoords_getType node = LAT ->
  _lattices g !! LocalCoords_getLattice node = Some lattice ->
  Lattice_findNextLatticeCell lattice [head; node] angle (_universes g)
    = Return (None, head' :: below) ->
  LocalCoords_getUniverse head' = 0 ->
  lattice_crossing (S (S fuel)) g [head; node] angle
    = Return (None, [head']).
Proof.
  intros Hu Hty Hlat Hstep Hroot.
  rewrite lattice_crossing_S. cbn [last].
  destruct (Z.eqb_spec (LocalCoords_getUniverse node) 0) as [|_]; [done|].
  rewrite Hty. unfold at_. rewrite Hlat. cbn [mbind outcome_bind].
  rewrite Hstep. cbn [mbind outcome_bind].
  change (length [head; node] - 1)%nat with 1%nat. cbv iota.
  change (take 1 (head' :: below)) with [head'].
  assert (Hretrace : retrace_from_lowest [head'] = Return [head']).
  { unfold retrace_from_lowest. change (reverse [head']) with [head'].
    cbn [retrace]. by rewrite Hroot. }
  rewrite Hretrace. cbn [mbind outcome_bind].
  rewrite lattice_crossing_S. cbn [last]. by rewrite Hroot.
Qed.

(** *** The end of a track *)

(** A call of [findNextCell] that returns NULL after it moved the end
    point: the last segment is appended and [segmentize] ends normally. *)
Lemma segmentize_loop_last_segment (fuel : nat) (g : Geometry) (track : Track)
    (prev : Cell) (start end_ : LocalCoords) (below below' : chain)
    (material : Material) (region_id : Z) :
  findNextCell (S fuel) g (start :: below) (Track_getPhi track)
    = Return (None, end_ :: below') ->
  deq (LocalCoords_getX start) (LocalCoords_getX end_)
    && deq (LocalCoords_getY start) (LocalCoords_getY end_) = false ->
  _materials g !! Cell_getMaterial prev = Some material ->
  findFSRId g (start :: below) = Return region_id ->
  exists g',
    segmentize_loop (S (S fuel)) g track (Some prev) (start :: below) =
    Return (g',
            Track_addSegment track
              {| _length := Point_distance (LocalCoords_getPoint end_)
                              (LocalCoords_getPoint start);
                 _material := material; _region_id := region_id |}).
Proof.
  intros Hnext Hmoved Hmat Hfsr. eexists.
  rewrite segmentize_loop_S. cbv zeta.
  rewrite Hnext. cbn [mbind outcome_bind]. unfold at_. rewrite Hmat.
  cbn [mbind outcome_bind].
  change (findFSRId (set_seg_lengths g ?a ?b) ?c) with (findFSRId g c).
  rewrite Hfsr. cbn [mbind outcome_bind]. rewrite Hmoved.
  rewrite segmentize_loop_S. reflexivity.
Qed.

Lemma deq_refl_finite (a : double) : is_finite a = true -> deq a a = true.
Proof.
  destruct a as [| |q|]; try done. intros _. cbn.
  apply Qeq_bool_iff, Qeq_refl.
Qed.

(** With the head alone in the list there is nothing to retrace and no
    lattice to step in: the branch returns NULL and leaves the list as it
    is. *)
Lemma leave_by_lattice_at_root (fuel : nat) g head angle :
  LocalCoords_getUniverse head = 0 ->
  leave_by_lattice (S fuel) g [head] angle = Return (None, [head]).
Proof.
  intros Hroot. unfold leave_by_lattice, retrace_from_lowest.
  cbn [reverse rev_append retrace]. rewrite Hroot. cbn.
  by rewrite Hroot.
Qed.

(** When the point relocated behind the surface lies in no cell and the
    saved list is the head alone, [findNextCell] returns NULL with the
    coordinates of the saved copy: the end point has not moved. *)
Lemma findNextCell_restores (fuel : nat) (g : Geometry)
    (coords relocated : chain) (angle dist : double)
    (cell : Cell) (head : LocalCoords) (p : Point) :
  findCell g coords = Return (Some cell, [head]) ->
  LocalCoords_getUniverse head = 0 ->
  Cell_minSurfaceDist cell (LocalCoords_getPoint head) angle = (dist, p) ->
  findCell g
    (LocalCoords_adjustCoords (LocalCoords_updateMostLocal [head] p)
       (dmul (cos angle) TINY_MOVE) (dmul (sin angle) TINY_MOVE))
    = Return (None, relocated) ->
  findNextCell (S fuel) g coords angle = Return (None, [head]).
Proof.
  intros Hfind Hroot Hdist Hmoved.
  destruct (dne dist PosInf) eqn:Hfinite.
  - rewrite (findNextCell_relocation (S fuel) g coords [head] relocated angle
               dist cell head p None) by done.
    cbn [bool_decide andb]. rewrite bool_decide_eq_false_2 by (by intros []).
    cbn [andb]. by apply leave_by_lattice_at_root.
  - destruct dist; try done.
    rewrite (findNextCell_infinite (S fuel) g coords [head] angle cell head p)
      by done.
    by apply leave_by_lattice_at_root.
Qed.

(** A call of [findNextCell] that leaves the end point where the segment
    starts ends [segmentize] with the fatal error, also when the call
    returned NULL. *)
Lemma segmentize_loop_same_point (fuel : nat) (g : Geometry) (track : Track)
    (prev : Cell) (next : option Cell) (start end_ : LocalCoords)
    (below below' : chain) (material : Material) (region_id : Z) :
  findNextCell fuel g (start :: below) (Track_getPhi track)
    = Return (next, end_ :: below') ->
  deq (LocalCoords_getX start) (LocalCoords_getX end_) = true ->
  deq (LocalCoords_getY start) (LocalCoords_getY end_) = true ->
  _materials g !! Cell_getMaterial prev = Some material ->
  findFSRId g (start :: below) = Return region_id ->
  segmentize_loop (S fuel) g track (Some prev) (start :: below) =
  Abort (ERROR "Created a segment with the same start and end point: x = %f, y = %f").
Proof.
  intros Hnext Hx Hy Hmat Hfsr. rewrite segmentize_loop_S. cbv zeta.
  rewrite Hnext. cbn [mbind outcome_bind]. unfold at_. rewrite Hmat.
  cbn [mbind outcome_bind].
  change (findFSRId (set_seg_lengths g ?a ?b) ?c) with (findFSRId g c).
  rewrite Hfsr. cbn [mbind outcome_bind]. by rewrite Hx, Hy.
Qed.

(** The last cell of a track through material cells of universe 0: the
    ray leaves it for a point that lies in no cell, and [segmentize] ends
    with the fatal error. *)
Lemma segmentize_loop_at_boundary (fuel : nat) (g : Geometry) (track : Track)
    (prev cell : Cell) (head : LocalCoords) (relocated : chain)
    (dist : double) (p : Point) (material : Material) (region_id : Z) :
  findCell g [head] = Return (Some cell, [head]) ->
  LocalCoords_getUniverse head = 0 ->
  Cell_minSurfaceDist cell (LocalCoords_getPoint head) (Track_getPhi track)
    = (dist, p) ->
  findCell g
    (LocalCoords_adjustCoords (LocalCoords_updateMostLocal [head] p)
       (dmul (cos (Track_getPhi track)) TINY_MOVE)
       (dmul (sin (Track_getPhi track)) TINY_MOVE))
    = Return (None, relocated) ->
  is_finite (LocalCoords_getX head) = true ->
  is_finite (LocalCoords_getY head) = true ->
  _materials g !! Cell_getMaterial prev = Some material ->
  findFSRId g [head] = Return region_id ->
  segmentize_loop (S (S fuel)) g track (Some prev) [head] =
  Abort (ERROR "Created a segment with the same start and end point: x = %f, y = %f").
Proof.
  intros Hfind Hroot Hdist Hmoved Hx Hy Hmat Hfsr.
  apply (segmentize_loop_same_point (S fuel) g track prev None head head [] []
           material region_id); try done.
  - by apply (findNextCell_restores fuel g [head] relocated _ dist cell head p).
  - by apply deq_refl_finite.
  - by apply deq_refl_finite.
Qed.

End Fuel.

(** ** Leaving the geometry *)

(** C2, at the nested geometry: the point (1/2, 1/2) lies in the east cell
    of universe 1, reached through the FILL cell of universe 0; the
    coordinate list is the head in universe 0 followed by a UNIVERSE node in
    universe 1, without LATTICE node; the east cell has no surface ahead, so
    the distance is infinite.  Section 4.7 has [findNextCell] return NULL
    once the climb reaches the root universe; the loop over the lattices
    finds a lowest level that is neither in universe 0
    nor a LATTICE node, changes nothing and runs again: with no amount of
    fuel does the call return. *)
Theorem findNextCell_nested_fill_spins
    (lattice_findCell :
       Universe -> chain -> gmap Z Universe -> outcome (option Cell * chain))
    (lattice_findNextLatticeCell :
       Universe -> chain -> double -> gmap Z Universe ->
       outcome (option Cell * chain)) :
  let world := World.primitives lattice_findCell lattice_findNextLatticeCell in
  let g := Examples.nested_geometry in
  let coords := [LocalCoords_new (Fin (1 # 2)) (Fin (1 # 2)) 0] in
  let located := [Examples.in_universe 0 1 (1 # 2) (1 # 2);
                  Examples.in_universe 1 11 (1 # 2) (1 # 2)] in
  @findCell world g coords = Return (Some Examples.inner_east, located) /\
  (@Cell_minSurfaceDist world Examples.inner_east
     {| Point_getX := Fin (1 # 2); Point_getY := Fin (1 # 2) |}
     (Fin (0 # 1))).1 = PosInf /\
  forall fuel, @findNextCell world fuel g coords (Fin (0 # 1)) = Spin.
Proof.
  intros world g coords located.
  assert (Hfind : @findCell world g coords
                  = Return (Some Examples.inner_east, located))
    by (vm_compute; reflexivity).
  split_and!; [done|reflexivity|]. intros fuel.
  rewrite (@findNextCell_infinite world fuel g coords located (Fin (0 # 1))
             Examples.inner_east (Examples.in_universe 1 11 (1 # 2) (1 # 2))
             {| Point_getX := Fin (1 # 2); Point_getY := Fin (1 # 2) |});
    [|done|reflexivity|reflexivity].
  unfold leave_by_lattice.
  change (retrace_from_lowest located) with (Return located : outcome chain).
  cbn [mbind outcome_bind].
  by apply (@lattice_crossing_spins world fuel g located (Fin (0 # 1))
              (Examples.in_universe 1 11 (1 # 2) (1 # 2))).
Qed.

(** C1, at the two half planes of scenario 2: the track from (-1/2, 1/2)
    along +x starts inside the west cell.  The first call of [findNextCell]
    moves the end point from the west cell into the east cell, and a
    segment is appended.  The second call finds no cell behind x = 1,
    restores the coordinates, finds no lattice to step in and returns NULL
    with the end point where the segment starts.  Sections 4.8 and 8 have
    [segmentize] end normally there, every segment of positive length; the
    test on equal end points ends it with the fatal error. *)
Theorem segmentize_half_planes_aborts
    (lattice_findCell :
       Universe -> chain -> gmap Z Universe -> outcome (option Cell * chain))
    (lattice_findNextLatticeCell :
       Universe -> chain -> double -> gmap Z Universe ->
       outcome (option Cell * chain))
    (extra : nat) :
  let world := World.primitives lattice_findCell lattice_findNextLatticeCell in
  let g := Examples.half_planes_geometry in
  let phi := Fin (0 # 1) in
  let first := [Examples.in_universe 0 1 (-4999999999 # 10000000000) (1 # 2)] in
  let second := [Examples.in_universe 0 2 (1 # 10000000000) (1 # 2)] in
  @findFirstCell world g [LocalCoords_new (Fin (-1 # 2)) (Fin (1 # 2)) 0] phi
    = Return (Some Examples.west, first) /\
  @findNextCell world (1 + extra) g first phi
    = Return (Some Examples.east, second) /\
  @findNextCell world (1 + extra) g second phi = Return (None, second) /\
  @segmentize world (3 + extra) g (Examples.track (-1 # 2) (1 # 2))
    = Abort (ERROR "Created a segment with the same start and end point: x = %f, y = %f").
Proof.
  intros world g phi first second. split_and!.
  - vm_compute. reflexivity.
  - apply findNextCell_enough; [vm_compute; reflexivity|done].
  - apply findNextCell_enough; [vm_compute; reflexivity|done].
  - apply segmentize_enough; [vm_compute; reflexivity|done].
Qed.

(** ** Lookup of a cell by flat source region id *)

(** An id below -1 or above [_num_FSRs] ends the lookup at its first
    test. *)
Lemma findCell_fsr_beyond (fuel : nat) (g : Geometry) (univ : Universe)
    (fsr_id : Z) :
  fsr_id < -1 \/ _num_FSRs g < fsr_id ->
  findCell_fsr (S fuel) g univ fsr_id =
  Abort (ERROR "Tried to find the cell for an fsr_id which does not exist: %d").
Proof.
  intros Hout. cbn [findCell_fsr].
  destruct (fsr_id <? -1) eqn:E1; [done|].
  destruct (fsr_id >? _num_FSRs g) eqn:E2; [done|]. lia.
Qed.

(** In the two-pin lattice every id in range is found, and the lookup
    agrees with the floor search. *)
Lemma findCell_fsr_two_pins (extra : nat) :
  let g := Examples.two_pins_geometry in
  (fun fsr_id => findCell_fsr_root (3 + extra) g fsr_id) <$> [0; 1; 2; 3]
    = [Return (Some Examples.inner_west); Return (Some Examples.inner_east);
       Return (Some Examples.inner_west); Return (Some Examples.inner_east)] /\
  (fun fsr_id => floor_search_root (3 + extra) g fsr_id) <$> [0; 1; 2; 3]
    = (fun fsr_id => findCell_fsr_root (3 + extra) g fsr_id) <$> [0; 1; 2; 3].
Proof. intros g. split; vm_compute; reflexivity. Qed.

(** C3, at the nested geometry: universe 0 holds the FILL cell 1 (offset
    0, two regions below it) and the MATERIAL cell 2 (offset 2), so there
    are 3 flat source regions.  Section 7 has the lookup of
    [fsr_id = num_FSRs = 3] end with a fatal error, as the floor search of
    section 4.6 does.  The code lets 3 pass its range test, selects
    cell 2 with residue 1, tests the type of the cell of least offset (the
    FILL cell 1) in place of the selected MATERIAL cell and returns the
    east cell of universe 1. *)
Theorem findCell_fsr_num_FSRs_returns (extra : nat) :
  let g := Examples.nested_geometry in
  _num_FSRs g = 3 /\
  findCell_fsr_root (2 + extra) g (_num_FSRs g)
    = Return (Some Examples.inner_east) /\
  floor_search_root (2 + extra) g (_num_FSRs g)
    = Abort (ERROR "fsr_id outside [0, num_FSRs)").
Proof. intros g. split_and!; vm_compute; reflexivity. Qed.

(** C4, at the nested geometry: for [fsr_id = 2] the child of universe 0
    with the greatest offset not above 2 is the MATERIAL cell 2, with
    offset 2 and residue 0, and the floor search of section 4.6 returns it.
    The code recurses into the universe of the cell of least offset, the
    FILL cell 1, and returns the west cell of universe 1. *)
Theorem findCell_fsr_leaves_floor_child (extra : nat) :
  let g := Examples.nested_geometry in
  floor_search_root (2 + extra) g 2 = Return (Some Examples.reflector) /\
  findCell_fsr_root (2 + extra) g 2 = Return (Some Examples.inner_west).
Proof. intros g. split; vm_compute; reflexivity. Qed.

(** * Further properties of the code *)

(** ** Registries under the public operations *)

Lemma bind_Return {A B : Type} (m : outcome A) (k : A -> outcome B) (b : B) :
  (a ← m; k a) = Return b -> exists a, m = Return a /\ k a = Return b.
Proof. destruct m; cbn; [eauto | discriminate..]. Qed.

Lemma foldM_app {A S : Type} (body : S -> A -> outcome S) (l1 l2 : list A) :
  forall s, foldM body s (l1 ++ l2) = (s' ← foldM body s l1; foldM body s' l2).
Proof.
  induction l1 as [|a l1 IH]; intros s; [reflexivity|].
  cbn [foldM app]. destruct (body s a); cbn [mbind outcome_bind]; auto.
Qed.

Lemma run_calls_invariant (P : Geometry -> Prop) :
  (forall g g' c, P g -> run_call g c = Return g' -> P g') ->
  forall cs g g', P g -> run_calls g cs = Return g' -> P g'.
Proof.
  intros Hstep. induction cs as [|c cs IH]; intros g g' HP Hrun.
  - cbn in Hrun. by inversion Hrun; subst.
  - cbn [run_calls foldM] in Hrun. apply bind_Return in Hrun as (g1 & H1 & Hrun).
    eapply IH; [eapply Hstep; eauto | exact Hrun].
Qed.

Lemma run_calls_related (R : Geometry -> Geometry -> Prop) :
  (forall g, R g g) ->
  (forall g1 g2 g3, R g1 g2 -> R g2 g3 -> R g1 g3) ->
  (forall g g' c, run_call g c = Return g' -> R g g') ->
  forall cs g g', run_calls g cs = Return g' -> R g g'.
Proof.
  intros Hrefl Htrans Hstep. induction cs as [|c cs IH]; intros g g' Hrun.
  - cbn in Hrun. inversion Hrun; subst. apply Hrefl.
  - cbn [run_calls foldM] in Hrun. apply bind_Return in Hrun as (g1 & H1 & Hrun).
    eapply Htrans; [eapply Hstep; eauto | by apply IH].
Qed.

Lemma found_true {V : Type} (m : gmap Z V) (k : Z) :
  found m k = true <-> is_Some (m !! k).
Proof.
  unfold found. destruct (m !! k); split; intros H; done.
Qed.

Lemma found_false {V : Type} (m : gmap Z V) (k : Z) :
  found m k = false <-> m !! k = None.
Proof. unfold found. by destruct (m !! k). Qed.

(** What a successful [addMaterial] has tested and assigned. *)
Lemma addMaterial_inv (g g' : Geometry) (m : Material) :
  addMaterial g m = Return g' ->
  _materials g !! Material_getId m = None /\
  Material_getNumEnergyGroups m <> 0 /\
  (_num_groups g = 0 \/ _num_groups g = Material_getNumEnergyGroups m) /\
  Material_checkSigmaT m = true /\
  g' = set_materials (set_num_groups g (Material_getNumEnergyGroups m))
         (<[Material_getId m := m]> (_materials g)).
Proof.
  unfold addMaterial.
  destruct (found (_materials g) (Material_getId m)) eqn:Hf; [discriminate|].
  apply found_false in Hf.
  destruct (Material_getNumEnergyGroups m =? 0) eqn:H0; [discriminate|].
  apply Z.eqb_neq in H0.
  destruct (_num_groups g =? 0) eqn:Hg; cbn [mbind outcome_bind].
  - apply Z.eqb_eq in Hg.
    destruct (Material_checkSigmaT m); [|discriminate].
    intros [= <-]. split_and!; auto.
  - destruct (_num_groups g =? Material_getNumEnergyGroups m) eqn:He;
      cbn [negb mbind outcome_bind]; [|discriminate].
    apply Z.eqb_eq in He.
    destruct (Material_checkSigmaT m); [|discriminate].
    intros [= <-]. split_and!; auto.
    rewrite <- He. by destruct g.
Qed.

Lemma addMaterial_returns (g : Geometry) (m : Material) :
  _materials g !! Material_getId m = None ->
  Material_getNumEnergyGroups m <> 0 ->
  (_num_groups g = 0 \/ _num_groups g = Material_getNumEnergyGroups m) ->
  Material_checkSigmaT m = true ->
  exists g', addMaterial g m = Return g'.
Proof.
  intros Hnew H0 Hg Hc. unfold addMaterial.
  apply found_false in Hnew. rewrite Hnew.
  apply Z.eqb_neq in H0. rewrite H0.
  destruct (_num_groups g =? 0) eqn:Hz; cbn [mbind outcome_bind].
  - rewrite Hc. eauto.
  - destruct Hg as [Hg|Hg]; [apply Z.eqb_neq in Hz; done|].
    apply Z.eqb_eq in Hg. rewrite Hg. cbn [negb mbind outcome_bind].
    rewrite Hc. eauto.
Qed.

(** X1.  After [addMaterial] returned, [getMaterial] returns the added
    material under its id, and answers for every other id as it did before
    the call. *)
Theorem getMaterial_addMaterial (g g' : Geometry) (m : Material) :
  addMaterial g m = Return g' ->
  getMaterial g' (Material_getId m) = Return m /\
  forall id, id <> Material_getId m -> getMaterial g' id = getMaterial g id.
Proof.
  intros H. apply addMaterial_inv in H as (_ & _ & _ & _ & ->).
  unfold getMaterial. cbn [_materials set_materials set_num_groups]. split.
  - by rewrite lookup_insert_eq.
  - intros id Hid. by rewrite lookup_insert_ne.
Qed.

(** Material 1 added to a new geometry. *)
Lemma getMaterial_addMaterial_witness :
  let g' :=
    Examples.run Geometry_new (addMaterial Geometry_new (Examples.material 1)) in
  getMaterial g' 1 = Return (Examples.material 1) /\
  forall id, id <> 1 -> getMaterial g' id = getMaterial Geometry_new id.
Proof.
  intros g'.
  apply (getMaterial_addMaterial Geometry_new g' (Examples.material 1)).
  vm_compute. reflexivity.
Defined.

(** X2.  [addMaterial] returns exactly when the id of the material is not
    registered, the material has a number of energy groups other than 0,
    the geometry has no group count yet (0) or the same one, and the
    material passes [checkSigmaT]; every other call ends with a fatal
    error. *)
Theorem addMaterial_returns_iff (g : Geometry) (m : Material) :
  (exists g', addMaterial g m = Return g') <->
  _materials g !! Material_getId m = None /\
  Material_getNumEnergyGroups m <> 0 /\
  (_num_groups g = 0 \/ _num_groups g = Material_getNumEnergyGroups m) /\
  Material_checkSigmaT m = true.
Proof.
  split.
  - intros [g' H]. apply addMaterial_inv in H. tauto.
  - intros (? & ? & ? & ?). by apply addMaterial_returns.
Qed.

Lemma update_boundaries_keeps (g : Geometry) (s : Surface) (bc : bool) :
  registries_but_surfaces (update_boundaries g s bc) = registries_but_surfaces g /\
  _surfaces (update_boundaries g s bc) = _surfaces g.
Proof.
  unfold update_boundaries, registries_but_surfaces.
  repeat match goal with
         | |- context [if ?b then _ else _] => destruct b
         end; cbn; done.
Qed.

Lemma addSurface_keeps (g g' : Geometry) (s : Surface) :
  addSurface g s = Return g' ->
  registries_but_surfaces g' = registries_but_surfaces g /\
  _surfaces g' = (if found (_surfaces g) (Surface_getId s) then _surfaces g
                  else <[Surface_getId s := s]> (_surfaces g)).
Proof.
  unfold addSurface. destruct (found (_surfaces g) (Surface_getId s)).
  { by intros [= <-]. }
  destruct (Surface_getBoundaryType s); intros [= <-];
    try (destruct (update_boundaries_keeps
                     (set_surfaces g (<[Surface_getId s := s]> (_surfaces g)))
                     s true) as [-> ->]; done);
    try (destruct (update_boundaries_keeps
                     (set_surfaces g (<[Surface_getId s := s]> (_surfaces g)))
                     s false) as [-> ->]; done).
  done.
Qed.

Lemma addSurface_registered (g g' : Geometry) (s : Surface) :
  addSurface g s = Return g' ->
  _surfaces g ⊆ _surfaces g' /\ is_Some (_surfaces g' !! Surface_getId s).
Proof.
  intros H. apply addSurface_keeps in H as [_ ->].
  destruct (found (_surfaces g) (Surface_getId s)) eqn:Hf.
  - split; [done|]. by apply found_true.
  - apply found_false in Hf. split.
    + by apply insert_subseteq.
    + rewrite lookup_insert_eq. by eexists.
Qed.

Lemma addSurfaces_keeps (l : list Surface) : forall g g',
  addSurfaces g l = Return g' ->
  registries_but_surfaces g' = registries_but_surfaces g /\
  _surfaces g ⊆ _surfaces g' /\
  Forall (fun s => is_Some (_surfaces g' !! Surface_getId s)) l.
Proof.
  induction l as [|s l IH]; intros g g' H.
  - cbn in H. inversion H; subst. split_and!; [done|done|constructor].
  - cbn [addSurfaces] in H. apply bind_Return in H as (g1 & H1 & H).
    apply IH in H as (Hk & Hsub & Hall).
    pose proof (addSurface_keeps _ _ _ H1) as [Hk1 _].
    apply addSurface_registered in H1 as [Hsub1 [s1 Hs1]].
    split_and!.
    + congruence.
    + by etrans.
    + constructor; [|done]. exists s1. by eapply lookup_weaken.
Qed.

(** What a successful [addCell] has tested and assigned. *)
Lemma addCell_inv (g g' : Geometry) (c : Cell) :
  addCell g c = Return g' ->
  _cells g !! Cell_getId c = None /\
  (Cell_getType c = MATERIAL -> is_Some (_materials g !! Cell_getMaterial c)) /\
  exists g1,
    addSurfaces g (snd <$> Cell_getSurfaces c) = Return g1 /\
    let univ :=
      Universe_addCell
        (default (Universe_new (Cell_getUniverse c))
           (_universes g !! Cell_getUniverse c)) c in
    g' =
      (let g2 :=
         set_universes
           (set_cells g1 (<[Cell_getId c := c]> (_cells g)))
           (<[Cell_getUniverse c := univ]> (_universes g)) in
       if found (_lattices g) (Cell_getUniverse c)
       then set_lattices g2 (<[Cell_getUniverse c := univ]> (_lattices g))
       else g2).
Proof.
  unfold addCell.
  destruct (found (_cells g) (Cell_getId c)) eqn:Hc; [discriminate|].
  apply found_false in Hc.
  destruct (match Cell_getType c with
            | MATERIAL => negb (found (_materials g) (Cell_getMaterial c))
            | FILL => false
            end) eqn:Hm; [discriminate|].
  intros H. apply bind_Return in H as (g1 & H1 & H).
  pose proof (addSurfaces_keeps _ _ _ H1) as (Hk & _ & _).
  unfold registries_but_surfaces in Hk.
  injection Hk as HF HG HMx HMn HM HC HU HL.
  split_and!; [done| |].
  { intros Ht. rewrite Ht in Hm. apply negb_false_iff, found_true in Hm. done. }
  exists g1. split; [done|]. cbv zeta.
  cbn [_universes set_cells _lattices set_universes] in H.
  rewrite HU, HC in H.
  destruct (found (_universes g) (Cell_getUniverse c)) eqn:Hu;
    cbn [mbind outcome_bind] in H.
  - apply found_true in Hu as [u Hu]. rewrite Hu. cbn [default].
    unfold at_ in H. cbn [_universes _lattices set_cells] in H.
    rewrite HU, HL, Hu in H.
    cbn [mbind outcome_bind] in H. by inversion H.
  - apply found_false in Hu. rewrite Hu. cbn [default].
    unfold addUniverse in H.
    cbn [_universes set_cells Universe_getId Universe_new] in H.
    rewrite HU in H. rewrite (proj2 (found_false _ _) Hu) in H.
    unfold at_ in H.
    cbn [mbind outcome_bind _universes set_universes _lattices set_cells] in H.
    rewrite lookup_insert_eq in H. cbn [mbind outcome_bind] in H.
    rewrite HL in H. inversion H as [Hg']. clear H Hg'.
    destruct (found (_lattices g) (Cell_getUniverse c)).
    + f_equal. unfold set_universes. cbn. by rewrite insert_insert_eq.
    + unfold set_universes. cbn. by rewrite insert_insert_eq.
Qed.

Lemma addCell_returns (g : Geometry) (c : Cell) :
  _cells g !! Cell_getId c = None ->
  (Cell_getType c = MATERIAL -> is_Some (_materials g !! Cell_getMaterial c)) ->
  exists g', addCell g c = Return g'.
Proof.
  intros Hc Hm. unfold addCell.
  rewrite (proj2 (found_false _ _) Hc).
  replace (match Cell_getType c with
           | MATERIAL => negb (found (_materials g) (Cell_getMaterial c))
           | FILL => false
           end) with false.
  2:{ destruct (Cell_getType c); [|done].
      symmetry. apply negb_false_iff, found_true. by apply Hm. }
  destruct (addSurfaces_returns (snd <$> Cell_getSurfaces c) g) as [g1 H1].
  rewrite H1. cbn [mbind outcome_bind].
  cbn [_universes set_cells].
  destruct (found (_universes g1) (Cell_getUniverse c)) eqn:Hu;
    cbn [mbind outcome_bind].
  - apply found_true in Hu as [u Hu]. unfold at_. cbn [_universes set_cells].
    rewrite Hu. cbn [mbind outcome_bind]. eauto.
  - unfold addUniverse. cbn [_universes set_cells Universe_getId Universe_new].
    rewrite Hu. cbn [mbind outcome_bind]. unfold at_.
    cbn [_universes set_universes]. rewrite lookup_insert_eq.
    cbn [mbind outcome_bind]. eauto.
Qed.

Lemma for_each_Return (body : Z -> outcome unit) (ks : list Z) :
  for_each ks body = Return () <-> Forall (fun k => body k = Return ()) ks.
Proof.
  unfold for_each.
  assert (Hgen : forall acc,
    foldl (fun acc k => _ ← acc; body k) acc ks = Return () <->
    acc = Return () /\ Forall (fun k => body k = Return ()) ks).
  { induction ks as [|k ks IH]; intros acc; cbn [foldl].
    - split; [intros ->; by split | by intros [-> _]].
    - rewrite IH. split.
      + intros [Hb Hall]. apply bind_Return in Hb as ([] & -> & Hb).
        split; [done|]. by constructor.
      + intros [-> Hall]. inversion Hall; subst. by split. }
  rewrite Hgen. split; [by intros [_ ?] | by split].
Qed.

(** What a successful [addLattice] has tested and assigned. *)
Lemma addLattice_inv (g g' : Geometry) (lat : Universe) :
  addLattice g lat = Return g' ->
  _lattices g !! Universe_getId lat = None /\
  _universes g !! Universe_getId lat = None /\
  (forall i j, 0 <= i < Lattice_getNumY lat -> 0 <= j < Lattice_getNumX lat ->
     exists id, at2 (Lattice_getUniverses lat) i j = Return id /\
                is_Some (_universes g !! id)) /\
  g' = set_universes
         (set_lattices g (<[Universe_getId lat := lat]> (_lattices g)))
         (<[Universe_getId lat := lat]> (_universes g)).
Proof.
  unfold addLattice.
  destruct (found (_lattices g) (Universe_getId lat)) eqn:Hl; [discriminate|].
  destruct (found (_universes g) (Universe_getId lat)) eqn:Hu; [discriminate|].
  intros H. apply bind_Return in H as ([] & Hloop & H).
  apply found_false in Hl. split_and!; [done|by apply found_false| |].
  - intros i j Hi Hj. apply for_each_Return in Hloop.
    rewrite Forall_forall in Hloop.
    specialize (Hloop i). rewrite elem_of_seqZ in Hloop.
    specialize (Hloop ltac:(lia)).
    apply for_each_Return in Hloop. rewrite Forall_forall in Hloop.
    specialize (Hloop j). rewrite elem_of_seqZ in Hloop.
    specialize (Hloop ltac:(lia)).
    apply bind_Return in Hloop as (id & Hat & Hloop).
    exists id. split; [done|].
    destruct (found (_universes g) id) eqn:Hf; [by apply found_true|].
    discriminate.
  - unfold addUniverse in H. cbn [_universes set_lattices] in H.
    rewrite Hu in H. by inversion H.
Qed.

Lemma addLattice_returns (g : Geometry) (lat : Universe) :
  _lattices g !! Universe_getId lat = None ->
  _universes g !! Universe_getId lat = None ->
  (forall i j, 0 <= i < Lattice_getNumY lat -> 0 <= j < Lattice_getNumX lat ->
     exists id, at2 (Lattice_getUniverses lat) i j = Return id /\
                is_Some (_universes g !! id)) ->
  exists g', addLattice g lat = Return g'.
Proof.
  intros Hl Hu Hall. unfold addLattice.
  rewrite (proj2 (found_false _ _) Hl), (proj2 (found_false _ _) Hu).
  replace (for_each _ _) with (Return () : outcome unit).
  - cbn [mbind outcome_bind]. unfold addUniverse.
    cbn [_universes set_lattices]. rewrite (proj2 (found_false _ _) Hu). eauto.
  - symmetry. apply for_each_Return, Forall_forall. intros i Hi.
    apply elem_of_seqZ in Hi.
    apply for_each_Return, Forall_forall. intros j Hj.
    apply elem_of_seqZ in Hj.
    destruct (Hall i j ltac:(lia) ltac:(lia)) as (id & -> & Hid).
    cbn [mbind outcome_bind]. by rewrite (proj2 (found_true _ _) Hid).
Qed.

Lemma addUniverse_inv (g g' : Geometry) (u : Universe) :
  addUniverse g u = Return g' ->
  _universes g !! Universe_getId u = None /\
  g' = set_universes g (<[Universe_getId u := u]> (_universes g)).
Proof.
  unfold addUniverse.
  destruct (found (_universes g) (Universe_getId u)) eqn:Hu; [discriminate|].
  intros [= <-]. split; [by apply found_false | done].
Qed.

(** X3.  [addLattice] returns exactly when the id of the lattice is in
    neither the lattice nor the universe registry and every lattice cell
    [(i, j)] with [i < num_y], [j < num_x] holds the id of a registered
    universe; that id then differs from the id of the lattice, so a lattice
    cannot be added with itself in one of its cells. *)
Theorem addLattice_returns_iff (g : Geometry) (lat : Universe) :
  (exists g', addLattice g lat = Return g') <->
  _lattices g !! Universe_getId lat = None /\
  _universes g !! Universe_getId lat = None /\
  forall i j, 0 <= i < Lattice_getNumY lat -> 0 <= j < Lattice_getNumX lat ->
    exists id, at2 (Lattice_getUniverses lat) i j = Return id /\
               id <> Universe_getId lat /\ is_Some (_universes g !! id).
Proof.
  split.
  - intros [g' H]. apply addLattice_inv in H as (Hl & Hu & Hall & _).
    split_and!; [done..|]. intros i j Hi Hj.
    destruct (Hall i j Hi Hj) as (id & Hat & Hid). exists id.
    split_and!; [done| |done]. intros ->. rewrite Hu in Hid. by destruct Hid.
  - intros (Hl & Hu & Hall). apply addLattice_returns; [done..|].
    intros i j Hi Hj. destruct (Hall i j Hi Hj) as (id & ? & _ & ?). eauto.
Qed.

(** X4.  After [addLattice] returned, [getLattice] and [getUniverse] both
    return the lattice under its id, both answer for every other id as
    before, and the materials, surfaces and cells are as they were. *)
Theorem addLattice_registered (g g' : Geometry) (lat : Universe) :
  addLattice g lat = Return g' ->
  getLattice g' (Universe_getId lat) = Return lat /\
  getUniverse g' (Universe_getId lat) = Return lat /\
  (forall id, id <> Universe_getId lat ->
     getLattice g' id = getLattice g id /\
     getUniverse g' id = getUniverse g id) /\
  _materials g' = _materials g /\ _surfaces g' = _surfaces g /\
  _cells g' = _cells g.
Proof.
  intros H. apply addLattice_inv in H as (_ & _ & _ & ->).
  unfold getLattice, getUniverse.
  cbn [_lattices _universes set_universes set_lattices].
  rewrite !lookup_insert_eq. split_and!; try done.
  intros id Hid. by rewrite !lookup_insert_ne.
Qed.

(** The two pins of universe 1 are registered before lattice 8, whose two
    lattice cells hold universe 1. *)
Lemma addLattice_registered_witness :
  let g :=
    Examples.run Geometry_new
      (build [AddMaterial (Examples.material 1);
              AddMaterial (Examples.material 2);
              AddCell Examples.inner_west; AddCell Examples.inner_east]) in
  let g' := Examples.run Geometry_new (addLattice g Examples.pins) in
  getLattice g' 8 = Return Examples.pins /\
  getUniverse g' 8 = Return Examples.pins /\
  (forall id, id <> 8 ->
     getLattice g' id = getLattice g id /\
     getUniverse g' id = getUniverse g id) /\
  _materials g' = _materials g /\ _surfaces g' = _surfaces g /\
  _cells g' = _cells g.
Proof.
  intros g g'. apply (addLattice_registered g g' Examples.pins).
  vm_compute. reflexivity.
Defined.

(** X5.  [addCell] returns exactly when the id of the cell is not
    registered and, for a MATERIAL cell, its material is registered.  The
    universe filling a FILL cell is not looked at. *)
Theorem addCell_returns_iff (g : Geometry) (c : Cell) :
  (exists g', addCell g c = Return g') <->
  _cells g !! Cell_getId c = None /\
  (Cell_getType c = MATERIAL -> is_Some (_materials g !! Cell_getMaterial c)).
Proof.
  split.
  - intros [g' H]. apply addCell_inv in H. tauto.
  - intros [? ?]. by apply addCell_returns.
Qed.

Lemma map_find_map_insert {V : Type} (k : Z) (v : V) (m : list (Z * V)) :
  is_Some (map_find (map_insert k v m) k).
Proof.
  induction m as [|[k' v'] m IH]; cbn [map_insert map_find].
  - rewrite Z.eqb_refl. by eexists.
  - destruct (k <? k') eqn:Hlt.
    + cbn [map_find]. rewrite Z.eqb_refl. by eexists.
    + destruct (k =? k') eqn:Heq; cbn [map_find]; rewrite Heq; [by eexists|done].
Qed.

(** X6.  After [addCell] returned, [getCell] returns the cell under its id
    and answers for every other id as before; every surface of the cell is
    registered; the universe of the cell is registered and holds a cell
    under the id of the cell, and when that universe was not registered
    before the call it holds this cell alone; every other universe and the
    materials are as they were. *)
Theorem addCell_registered (g g' : Geometry) (c : Cell) :
  addCell g c = Return g' ->
  getCell g' (Cell_getId c) = Return c /\
  (forall id, id <> Cell_getId c -> getCell g' id = getCell g id) /\
  Forall (fun e => is_Some (_surfaces g' !! Surface_getId e.2))
    (Cell_getSurfaces c) /\
  (exists u, getUniverse g' (Cell_getUniverse c) = Return u /\
             is_Some (map_find (Universe_getCells u) (Cell_getId c)) /\
             (_universes g !! Cell_getUniverse c = None ->
              Universe_getCells u = [(Cell_getId c, c)])) /\
  (forall id, id <> Cell_getUniverse c -> getUniverse g' id = getUniverse g id) /\
  _materials g' = _materials g.
Proof.
  intros H. apply addCell_inv in H as (_ & _ & g1 & H1 & ->).
  apply addSurfaces_keeps in H1 as (Hk & _ & Hall).
  injection Hk as _ _ _ _ HM _ _ _.
  assert (Hfields :
    forall g2 m, _cells (if found (_lattices g) (Cell_getUniverse c)
                         then set_lattices g2 m else g2) = _cells g2 /\
                 _universes (if found (_lattices g) (Cell_getUniverse c)
                             then set_lattices g2 m else g2) = _universes g2 /\
                 _surfaces (if found (_lattices g) (Cell_getUniverse c)
                            then set_lattices g2 m else g2) = _surfaces g2 /\
                 _materials (if found (_lattices g) (Cell_getUniverse c)
                             then set_lattices g2 m else g2) = _materials g2).
  { intros g2 m. by destruct (found (_lattices g) (Cell_getUniverse c)). }
  cbv zeta. unfold getCell, getUniverse.
  match goal with
  | |- context [set_lattices ?g2 ?m] =>
      destruct (Hfields g2 m) as (-> & -> & -> & ->)
  end.
  cbn [_cells _universes _surfaces _materials set_universes set_cells].
  rewrite !lookup_insert_eq. split_and!; try done.
  - intros id Hid. by rewrite lookup_insert_ne.
  - rewrite Forall_fmap in Hall. exact Hall.
  - eexists. split; [reflexivity|]. split.
    + cbn [Universe_getCells Universe_addCell]. apply map_find_map_insert.
    + intros ->. reflexivity.
  - intros id Hid. by rewrite lookup_insert_ne.
Qed.

(** A FILL cell added to a new geometry: universe 0 is created for it. *)
Lemma addCell_registered_witness :
  let c := Examples.fill_cell 1 0 8 [(-5, Examples.middle_plane)] in
  getCell Pins.dangling 1 = Return c /\
  (forall id, id <> 1 -> getCell Pins.dangling id = getCell Geometry_new id) /\
  Forall (fun e => is_Some (_surfaces Pins.dangling !! Surface_getId e.2))
    [(-5, Examples.middle_plane)] /\
  (exists u, getUniverse Pins.dangling 0 = Return u /\
             is_Some (map_find (Universe_getCells u) 1) /\
             (_universes Geometry_new !! 0 = None ->
              Universe_getCells u = [(1, c)])) /\
  (forall id, id <> 0 ->
     getUniverse Pins.dangling id = getUniverse Geometry_new id) /\
  _materials Pins.dangling = _materials Geometry_new.
Proof.
  intros c. apply (addCell_registered Geometry_new Pins.dangling c).
  vm_compute. reflexivity.
Defined.

(** Calls other than [addMaterial] leave the materials and the group count. *)
Lemma run_call_materials (g g' : Geometry) (c : call) :
  run_call g c = Return g' ->
  match c with
  | AddMaterial _ => True
  | _ => _materials g' = _materials g /\ _num_groups g' = _num_groups g
  end.
Proof.
  destruct c as [m|s|c|u|lat]; cbn [run_call]; intros H; [done|..].
  - apply addSurface_keeps in H as [Hk _]. by injection Hk.
  - apply addCell_inv in H as (_ & _ & g1 & H1 & ->).
    apply addSurfaces_keeps in H1 as [Hk _]. injection Hk as _ HG _ _ HM _ _ _.
    cbv zeta. by destruct (found (_lattices g) (Cell_getUniverse c)).
  - by apply addUniverse_inv in H as [_ ->].
  - by apply addLattice_inv in H as (_ & _ & _ & ->).
Qed.

Lemma groups_agree_step (g g' : Geometry) (c : call) :
  groups_agree g -> run_call g c = Return g' -> groups_agree g'.
Proof.
  intros Hinv H. pose proof (run_call_materials _ _ _ H) as Hk.
  destruct c as [m|s|c|u|lat];
    [|destruct Hk as [HM HG]; unfold groups_agree; rewrite HM, HG; exact Hinv..].
  cbn [run_call] in H.
  apply addMaterial_inv in H as (Hnew & H0 & Hg & _ & ->).
  intros id m'. cbn [_materials _num_groups set_materials set_num_groups].
  intros Hm'. destruct (decide (id = Material_getId m)) as [->|Hne].
  - rewrite lookup_insert_eq in Hm'. by inversion Hm'; subst.
  - rewrite lookup_insert_ne in Hm' by done.
    destruct (Hinv _ _ Hm') as [He Hn]. split; [|done].
    destruct Hg as [Hg|Hg]; [done|congruence].
Qed.

(** X7.  In a geometry built from the constructor by calls of the five
    [add] members, when [getNumEnergyGroups] returns, the count is not 0 and
    every registered material has that number of energy groups. *)
Theorem getNumEnergyGroups_built (cs : list call) (g : Geometry) (n : Z) :
  build cs = Return g ->
  getNumEnergyGroups g = Return n ->
  n <> 0 /\
  forall id m, getMaterial g id = Return m -> Material_getNumEnergyGroups m = n.
Proof.
  intros Hb Hn.
  assert (Hinv : groups_agree g).
  { eapply (run_calls_invariant groups_agree); [apply groups_agree_step| |exact Hb].
    intros id m. cbn. by rewrite lookup_empty. }
  unfold getNumEnergyGroups, getNumMaterials in Hn.
  destruct (Z.of_nat (size (_materials g)) =? 0) eqn:Hs; [discriminate|].
  inversion Hn; subst. apply Z.eqb_neq in Hs. split.
  - assert (Hne : _materials g <> ∅).
    { intros He. rewrite He, map_size_empty in Hs. done. }
    apply map_choose in Hne as (id & m & Hm). by destruct (Hinv _ _ Hm).
  - intros id m. unfold getMaterial.
    destruct (_materials g !! id) as [m'|] eqn:Hm; [|discriminate].
    intros [= ->]. by destruct (Hinv _ _ Hm).
Qed.

Lemma getNumEnergyGroups_built_witness :
  2 <> 0 /\
  forall id m, getMaterial Pins.built id = Return m ->
               Material_getNumEnergyGroups m = 2.
Proof.
  apply (getNumEnergyGroups_built Pins.calls Pins.built 2);
    vm_compute; reflexivity.
Defined.

(** *** A lattice is one object in both registries *)

Lemma lattices_shared_step (g g' : Geometry) (c : call) :
  _lattices g ⊆ _universes g -> run_call g c = Return g' ->
  _lattices g' ⊆ _universes g'.
Proof.
  intros Hinv H. destruct c as [m|s|c|u|lat]; cbn [run_call] in H.
  - apply addMaterial_inv in H as (_ & _ & _ & _ & ->). exact Hinv.
  - apply addSurface_keeps in H as [Hk _].
    injection Hk as _ _ _ _ _ _ HU HL. by rewrite HU, HL.
  - apply addCell_inv in H as (_ & _ & g1 & H1 & ->).
    apply addSurfaces_keeps in H1 as [Hk _].
    injection Hk as _ _ _ _ _ _ HU HL. cbv zeta.
    destruct (found (_lattices g) (Cell_getUniverse c)) eqn:Hf;
      cbn [_lattices _universes set_lattices set_universes set_cells].
    + by apply insert_mono.
    + rewrite HL. apply found_false in Hf.
      by apply insert_subseteq_r.
  - apply addUniverse_inv in H as [Hnew ->].
    cbn [_lattices _universes set_universes].
    etrans; [exact Hinv|]. by apply insert_subseteq.
  - apply addLattice_inv in H as (_ & _ & _ & ->).
    cbn [_lattices _universes set_lattices set_universes].
    by apply insert_mono.
Qed.

(** X8.  In a geometry built from the constructor by calls of the five
    [add] members, a lattice returned by [getLattice] is returned by
    [getUniverse] under the same id: the two registries hold one object,
    also after cells were added to it. *)
Theorem getLattice_getUniverse (cs : list call) (g : Geometry) (id : Z)
    (lat : Universe) :
  build cs = Return g ->
  getLattice g id = Return lat -> getUniverse g id = Return lat.
Proof.
  intros Hb.
  assert (Hinv : _lattices g ⊆ _universes g).
  { eapply (run_calls_invariant (fun g => _lattices g ⊆ _universes g));
      [apply lattices_shared_step| |exact Hb].
    cbn. apply map_empty_subseteq. }
  unfold getLattice, getUniverse.
  destruct (_lattices g !! id) as [l|] eqn:Hl; [|discriminate].
  intros [= ->]. rewrite map_subseteq_spec in Hinv.
  by rewrite (Hinv _ _ Hl).
Qed.

Lemma getLattice_getUniverse_witness :
  getUniverse Pins.built 8 = Return Examples.pins.
Proof.
  apply (getLattice_getUniverse Pins.calls Pins.built 8 Examples.pins);
    vm_compute; reflexivity.
Defined.

(** *** Every entity is stored under its own id *)

Lemma keyed_insert {V : Type} (id_of : V -> Z) (m : gmap Z V) (v : V) :
  keyed id_of m -> keyed id_of (<[id_of v := v]> m).
Proof.
  intros Hm id v'. destruct (decide (id = id_of v)) as [->|Hne].
  - rewrite lookup_insert_eq. by intros [= <-].
  - rewrite lookup_insert_ne by done. apply Hm.
Qed.

Lemma keyed_replace {V : Type} (id_of : V -> Z) (m : gmap Z V) (k : Z) (v : V) :
  id_of v = k -> keyed id_of m -> keyed id_of (<[k := v]> m).
Proof. intros <-. apply keyed_insert. Qed.

Lemma addSurfaces_keyed (l : list Surface) : forall g g',
  keyed Surface_getId (_surfaces g) -> addSurfaces g l = Return g' ->
  keyed Surface_getId (_surfaces g').
Proof.
  induction l as [|s l IH]; intros g g' Hk H.
  - cbn in H. by inversion H; subst.
  - cbn [addSurfaces] in H. apply bind_Return in H as (g1 & H1 & H).
    eapply IH; [|exact H].
    apply addSurface_keeps in H1 as [_ ->].
    destruct (found (_surfaces g) (Surface_getId s)); [done|].
    by apply keyed_insert.
Qed.

Lemma all_keyed_step (g g' : Geometry) (c : call) :
  all_keyed g -> run_call g c = Return g' -> all_keyed g'.
Proof.
  intros (HM & HS & HC & HU & HL) H.
  destruct c as [m|s|c|u|lat]; cbn [run_call] in H.
  - apply addMaterial_inv in H as (_ & _ & _ & _ & ->).
    split_and!; try done. by apply keyed_insert.
  - pose proof (addSurfaces_keyed [s] g g' HS) as HS'.
    cbn [addSurfaces] in HS'. rewrite H in HS'. specialize (HS' eq_refl).
    apply addSurface_keeps in H as [Hk _].
    injection Hk as _ _ _ _ EM EC EU EL.
    unfold all_keyed. by rewrite EM, EC, EU, EL.
  - apply addCell_inv in H as (_ & _ & g1 & H1 & ->).
    pose proof (addSurfaces_keyed _ _ _ HS H1) as HS'.
    apply addSurfaces_keeps in H1 as [Hk _].
    injection Hk as _ _ _ _ EM EC EU EL. cbv zeta.
    assert (Hid : Universe_getId
                    (Universe_addCell
                       (default (Universe_new (Cell_getUniverse c))
                          (_universes g !! Cell_getUniverse c)) c)
                  = Cell_getUniverse c).
    { cbn [Universe_getId Universe_addCell].
      destruct (_universes g !! Cell_getUniverse c) as [u|] eqn:Hu; cbn [default].
      - by apply HU.
      - reflexivity. }
    destruct (found (_lattices g) (Cell_getUniverse c));
      unfold all_keyed;
      cbn [_materials _surfaces _cells _universes _lattices set_lattices
           set_universes set_cells];
      rewrite ?EM, ?EL; split_and!; try done;
      try (by apply keyed_insert); by apply keyed_replace.
  - apply addUniverse_inv in H as [_ ->].
    split_and!; try done. by apply keyed_insert.
  - apply addLattice_inv in H as (_ & _ & _ & ->).
    split_and!; try done; by apply keyed_insert.
Qed.

(** X9.  In a geometry built from the constructor by calls of the five
    [add] members, what [getMaterial], [getSurface], [getCell],
    [getUniverse] and [getLattice] return for an id has that id. *)
Theorem getters_return_id (cs : list call) (g : Geometry) (id : Z) :
  build cs = Return g ->
  (forall m, getMaterial g id = Return m -> Material_getId m = id) /\
  (forall s, getSurface g id = Return s -> Surface_getId s = id) /\
  (forall c, getCell g id = Return c -> Cell_getId c = id) /\
  (forall u, getUniverse g id = Return u -> Universe_getId u = id) /\
  (forall l, getLattice g id = Return l -> Universe_getId l = id).
Proof.
  intros Hb.
  assert (Hinv : all_keyed g).
  { eapply (run_calls_invariant all_keyed); [apply all_keyed_step| |exact Hb].
    split_and!; intros k v; cbn; by rewrite lookup_empty. }
  destruct Hinv as (HM & HS & HC & HU & HL).
  unfold getMaterial, getSurface, getCell, getUniverse, getLattice.
  split_and!; intros x.
  - destruct (_materials g !! id) eqn:E; [|discriminate]. intros [= ->]. by apply HM.
  - destruct (_surfaces g !! id) eqn:E; [|discriminate]. intros [= ->]. by apply HS.
  - destruct (_cells g !! id) eqn:E; [|discriminate]. intros [= ->]. by apply HC.
  - destruct (_universes g !! id) eqn:E; [|discriminate]. intros [= ->]. by apply HU.
  - destruct (_lattices g !! id) eqn:E; [|discriminate]. intros [= ->]. by apply HL.
Qed.

Lemma getters_return_id_witness :
  (forall m, getMaterial Pins.built 1 = Return m -> Material_getId m = 1) /\
  (forall s, getSurface Pins.built 1 = Return s -> Surface_getId s = 1) /\
  (forall c, getCell Pins.built 1 = Return c -> Cell_getId c = 1) /\
  (forall u, getUniverse Pins.built 1 = Return u -> Universe_getId u = 1) /\
  (forall l, getLattice Pins.built 1 = Return l -> Universe_getId l = 1).
Proof.
  apply (getters_return_id Pins.calls Pins.built 1). vm_compute. reflexivity.
Defined.

(** *** Nothing is dropped *)

Lemma extends_refl (g : Geometry) : extends g g.
Proof. by constructor. Qed.

Lemma extends_trans (g1 g2 g3 : Geometry) :
  extends g1 g2 -> extends g2 g3 -> extends g1 g3.
Proof.
  intros [] []. constructor; try (by etrans); auto.
Qed.

Lemma is_Some_insert_keep {V : Type} (m : gmap Z V) (k id : Z) (v : V) :
  is_Some (m !! id) -> is_Some (<[k := v]> m !! id).
Proof.
  intros H. destruct (decide (id = k)) as [->|Hne].
  - rewrite lookup_insert_eq. by eexists.
  - by rewrite lookup_insert_ne.
Qed.

Lemma extends_step (g g' : Geometry) (c : call) :
  run_call g c = Return g' -> extends g g'.
Proof.
  intros H. destruct c as [m|s|c|u|lat]; cbn [run_call] in H.
  - apply addMaterial_inv in H as (Hnew & _ & _ & _ & ->).
    constructor; cbn; try done. by apply insert_subseteq.
  - pose proof (addSurface_registered _ _ _ H) as [Hsub _].
    apply addSurface_keeps in H as [Hk _].
    injection Hk as _ _ _ _ EM EC EU EL.
    constructor; rewrite ?EM, ?EC, ?EU, ?EL; done.
  - apply addCell_inv in H as (Hnew & _ & g1 & H1 & ->).
    apply addSurfaces_keeps in H1 as (Hk & Hsub & _).
    injection Hk as _ _ _ _ EM EC EU EL. cbv zeta.
    destruct (found (_lattices g) (Cell_getUniverse c));
      constructor;
      cbn [_materials _surfaces _cells _universes _lattices set_lattices
           set_universes set_cells];
      rewrite ?EM, ?EL; try done;
      try (by apply insert_subseteq);
      intros id; apply is_Some_insert_keep.
  - apply addUniverse_inv in H as [Hnew ->].
    constructor; cbn; try done. intros id. apply is_Some_insert_keep.
  - apply addLattice_inv in H as (_ & _ & _ & ->).
    constructor; cbn; try done; intros id; apply is_Some_insert_keep.
Qed.

(** X10.  No sequence of calls of the five [add] members drops an entry:
    every material, surface and cell registered before is registered
    unchanged after, and every id of the universe and lattice registries
    stays registered. *)
Theorem run_calls_extends (cs : list call) (g g' : Geometry) :
  run_calls g cs = Return g' -> extends g g'.
Proof.
  apply (run_calls_related extends);
    [apply extends_refl | apply extends_trans | apply extends_step].
Qed.

(** The last call of the two pins adds the FILL cell over lattice 8. *)
Lemma run_calls_extends_witness :
  extends
    (Examples.run Geometry_new (build (take 5 Pins.calls))) Pins.built.
Proof.
  apply (run_calls_extends [AddCell Examples.assembly]).
  vm_compute. reflexivity.
Defined.

(** *** The bounding box only grows *)

Lemma dlt_transitive (a b c : double) :
  dlt a b = true -> dlt b c = true -> dlt a c = true.
Proof.
  destruct a, b, c; try done. apply dlt_trans.
Qed.

Lemma moved_out_refl lt a bc : moved_out lt a a bc bc.
Proof. by left. Qed.

Lemma moved_out_trans lt a b c bc1 bc2 bc3 :
  (forall x y z, lt x y = true -> lt y z = true -> lt x z = true) ->
  moved_out lt a b bc1 bc2 -> moved_out lt b c bc2 bc3 ->
  moved_out lt a c bc1 bc3.
Proof.
  intros Htrans [[-> ->]|H1] [[-> ->]|H2]; [by left|by right..|].
  right. by eapply Htrans.
Qed.

Lemma dgt_transitive (a b c : double) :
  dgt a b = true -> dgt b c = true -> dgt a c = true.
Proof. unfold dgt. intros H1 H2. by eapply dlt_transitive. Qed.

Lemma box_grows_refl (g : Geometry) : box_grows g g.
Proof. constructor; apply moved_out_refl. Qed.

Lemma box_grows_trans (g1 g2 g3 : Geometry) :
  box_grows g1 g2 -> box_grows g2 g3 -> box_grows g1 g3.
Proof.
  intros [] []. constructor; eapply moved_out_trans; eauto using dlt_transitive,
    dgt_transitive.
Qed.

Lemma update_boundaries_grows (g : Geometry) (s : Surface) (bc : bool) :
  box_grows g (update_boundaries g s bc).
Proof.
  unfold update_boundaries.
  destruct (dlt (Surface_getXMin s) (_x_min g) && dne (Surface_getXMin s) NegInf)
    eqn:E1; bounds_cbn;
  destruct (dgt (Surface_getXMax s) (_x_max g) && dne (Surface_getXMax s) PosInf)
    eqn:E2; bounds_cbn;
  destruct (dlt (Surface_getYMin s) (_y_min g) && dne (Surface_getYMin s) NegInf)
    eqn:E3; bounds_cbn;
  destruct (dgt (Surface_getYMax s) (_y_max g) && dne (Surface_getYMax s) PosInf)
    eqn:E4; bounds_cbn;
  constructor; bounds_cbn;
  first [ by left
        | right; match goal with
                 | H : _ && _ = true |- _ = true =>
                     solve [apply andb_true_iff in H as [H _]; exact H]
                 end ].
Qed.

Lemma addSurface_grows (g g' : Geometry) (s : Surface) :
  addSurface g s = Return g' -> box_grows g g'.
Proof.
  unfold addSurface. destruct (found (_surfaces g) (Surface_getId s)).
  { intros [= <-]. apply box_grows_refl. }
  destruct (Surface_getBoundaryType s); intros [= <-].
  - destruct (update_boundaries_grows
                (set_surfaces g (<[Surface_getId s := s]> (_surfaces g))) s true).
    by constructor.
  - destruct (update_boundaries_grows
                (set_surfaces g (<[Surface_getId s := s]> (_surfaces g))) s false).
    by constructor.
  - constructor; by left.
Qed.

Lemma addSurfaces_grows (l : list Surface) : forall g g',
  addSurfaces g l = Return g' -> box_grows g g'.
Proof.
  induction l as [|s l IH]; intros g g' H.
  - cbn in H. inversion H; subst. apply box_grows_refl.
  - cbn [addSurfaces] in H. apply bind_Return in H as (g1 & H1 & H).
    eapply box_grows_trans; [by eapply addSurface_grows | by apply IH].
Qed.

Lemma box_grows_step (g g' : Geometry) (c : call) :
  run_call g c = Return g' -> box_grows g g'.
Proof.
  intros H. destruct c as [m|s|c|u|lat]; cbn [run_call] in H.
  - apply addMaterial_inv in H as (_ & _ & _ & _ & ->). constructor; by left.
  - by eapply addSurface_grows.
  - apply addCell_inv in H as (_ & _ & g1 & H1 & ->).
    apply addSurfaces_grows in H1 as []. cbv zeta.
    destruct (found (_lattices g) (Cell_getUniverse c)); by constructor.
  - apply addUniverse_inv in H as [_ ->]. constructor; by left.
  - apply addLattice_inv in H as (_ & _ & _ & ->). constructor; by left.
Qed.

(** X11.  Over any sequence of calls of the five [add] members each edge
    of the bounding box either stays where it was, with its boundary
    condition, or ends strictly further out: [_x_min] and [_y_min] only
    decrease, [_x_max] and [_y_max] only increase. *)
Theorem run_calls_box_grows (cs : list call) (g g' : Geometry) :
  run_calls g cs = Return g' -> box_grows g g'.
Proof.
  apply (run_calls_related box_grows);
    [apply box_grows_refl | apply box_grows_trans | apply box_grows_step].
Qed.

(** The FILL cell over lattice 8 brings the four planes of the box. *)
Lemma run_calls_box_grows_witness :
  box_grows
    (Examples.run Geometry_new (build (take 5 Pins.calls))) Pins.built.
Proof.
  apply (run_calls_box_grows [AddCell Examples.assembly]).
  vm_compute. reflexivity.
Defined.

(** *** [initializeCellFillPointers] *)

Lemma fill_pointers_loop (universes : gmap Z Universe) (l : list (Z * Cell)) :
  let body := fun (_ : unit) (entry : Z * Cell) =>
    match Cell_getType entry.2 with
    | FILL => _ ← at_ universes (Cell_getUniverseFillId entry.2); Return ()
    | MATERIAL => Return ()
    end in
  (foldM body () l = Return () /\
   Forall (fun e => Cell_getType e.2 = FILL ->
                    is_Some (universes !! Cell_getUniverseFillId e.2)) l) \/
  (foldM body () l = Abort OutOfRange /\
   Exists (fun e => Cell_getType e.2 = FILL /\
                    universes !! Cell_getUniverseFillId e.2 = None) l).
Proof.
  intros body. induction l as [|e l IH].
  - left. split; [reflexivity|constructor].
  - change (foldM body () (e :: l)) with (s ← body () e; foldM body s l).
    assert (Hbody :
      (body () e = Return () /\
       (Cell_getType e.2 = FILL ->
        is_Some (universes !! Cell_getUniverseFillId e.2))) \/
      (body () e = Abort OutOfRange /\
       Cell_getType e.2 = FILL /\
       universes !! Cell_getUniverseFillId e.2 = None)).
    { unfold body, at_. destruct (Cell_getType e.2); [left; by split|].
      destruct (universes !! Cell_getUniverseFillId e.2);
        cbn [mbind outcome_bind]; [left|right]; split; eauto. }
    destruct Hbody as [[-> Hok]|[-> Hbad]]; cbn [mbind outcome_bind].
    + destruct IH as [[-> Hall]|[-> Hex]].
      * left. split; [done|]. by constructor.
      * right. split; [done|]. by apply Exists_cons_tl.
    + right. split; [done|]. by apply Exists_cons_hd.
Qed.

Lemma initializeCellFillPointers_cases (g : Geometry) :
  (initializeCellFillPointers g = Return g /\
   forall id cell, ~ dangling_fill g id cell) \/
  (initializeCellFillPointers g = Abort OutOfRange /\
   exists id cell, dangling_fill g id cell).
Proof.
  unfold initializeCellFillPointers.
  destruct (fill_pointers_loop (_universes g) (map_to_list (_cells g)))
    as [[-> Hall]|[-> Hex]]; cbn [mbind outcome_bind].
  - left. split; [done|]. intros id cell (Hc & Ht & Hu).
    rewrite Forall_forall in Hall.
    apply elem_of_map_to_list in Hc. specialize (Hall _ Hc Ht).
    cbn in Hall. rewrite Hu in Hall. by destruct Hall.
  - right. split; [done|]. apply Exists_exists in Hex as ([id cell] & Hin & Ht & Hu).
    exists id, cell. split; [by apply elem_of_map_to_list|done].
Qed.

(** X12.  [initializeCellFillPointers] returns, and leaves the geometry as
    it is, when the universe of every registered FILL cell is registered;
    when some FILL cell names a universe that is not registered the call
    ends with the [std::out_of_range] of [_universes.at], which no handler
    catches. *)
Theorem initializeCellFillPointers_outcome (g : Geometry) :
  (initializeCellFillPointers g = Return g /\
   forall id cell, ~ dangling_fill g id cell) \/
  (initializeCellFillPointers g = Abort OutOfRange /\
   exists id cell, dangling_fill g id cell).
Proof. apply initializeCellFillPointers_cases. Qed.

(** *** Lookup by flat source region id *)

Lemma simple_scan_negative (univ : Universe) (fsr_id : Z) (l : list (Z * Cell)) :
  fsr_id < 0 -> forall st st',
  foldM (simple_scan_step univ fsr_id) st l = Return st' ->
  scan_max_id st = 0 -> scan_max_id st' = 0.
Proof.
  intros Hneg. induction l as [|e l IH]; intros st st' H H0.
  - cbn in H. by inversion H; subst.
  - cbn [foldM] in H. apply bind_Return in H as (st1 & H1 & H).
    eapply IH; [exact H|]. unfold simple_scan_step in H1.
    apply bind_Return in H1 as (o & _ & H1). inversion H1 as [Hst]. clear H1 Hst.
    replace ((o <=? fsr_id) && (o >=? scan_max_id st)) with false.
    + by destruct (o <? scan_min_id st).
    + symmetry. apply andb_false_iff. rewrite H0.
      destruct (Z.leb_spec o fsr_id); [right|by left].
      rewrite Z.geb_leb. apply Z.leb_gt. lia.
Qed.

Lemma lattice_scan_negative (g : Geometry) (lat : Universe) (fsr_id i : Z)
    (l : list Z) :
  fsr_id < 0 -> forall st st',
  foldM (lattice_scan_step g lat fsr_id i) st l = Return st' ->
  lscan_max_id st = 0 -> lscan_max_id st' = 0.
Proof.
  intros Hneg. induction l as [|j l IH]; intros st st' H H0.
  - cbn in H. by inversion H; subst.
  - cbn [foldM] in H. apply bind_Return in H as (st1 & H1 & H).
    eapply IH; [exact H|]. unfold lattice_scan_step in H1.
    apply bind_Return in H1 as (o & _ & H1).
    replace ((o <=? fsr_id) && (o >=? lscan_max_id st)) with false in H1.
    + by inversion H1; subst.
    + symmetry. apply andb_false_iff. rewrite H0.
      destruct (Z.leb_spec o fsr_id); [right|by left].
      rewrite Z.geb_leb. apply Z.leb_gt. lia.
Qed.

Lemma lattice_rows_negative (g : Geometry) (lat : Universe) (fsr_id : Z)
    (cols rows : list Z) :
  fsr_id < 0 -> forall st st',
  foldM (fun st i => foldM (lattice_scan_step g lat fsr_id i) st cols) st rows
  = Return st' ->
  lscan_max_id st = 0 -> lscan_max_id st' = 0.
Proof.
  intros Hneg. induction rows as [|i rows IH]; intros st st' H H0.
  - cbn in H. by inversion H; subst.
  - cbn [foldM] in H. apply bind_Return in H as (st1 & H1 & H).
    eapply IH; [exact H|]. by eapply lattice_scan_negative.
Qed.

Lemma findCell_fsr_negative (fuel : nat) (g : Geometry) (fsr_id : Z) :
  fsr_id < 0 -> forall (univ : Universe) (r : option Cell),
  findCell_fsr fuel g univ fsr_id <> Return r.
Proof.
  intros Hneg. induction fuel as [|fuel IH]; intros univ r; [done|].
  cbn [findCell_fsr].
  destruct ((fsr_id <? -1) || (fsr_id >? _num_FSRs g)); [done|].
  destruct (Universe_getType univ).
  - intros H. apply bind_Return in H as (st & Hscan & H).
    apply simple_scan_negative in Hscan; [|done..].
    rewrite Hscan in H.
    replace (0 >? fsr_id) with true in H by (symmetry; apply Z.gtb_lt; lia).
    destruct (scan_cell_min st) as [cell_min|]; [|done].
    destruct (Cell_getType cell_min); [done|].
    destruct (CellFill_getUniverseFill g cell_min); [|done].
    by apply IH in H.
  - intros H. apply bind_Return in H as (st & Hscan & H).
    apply lattice_rows_negative in Hscan; [|done..].
    rewrite Hscan in H.
    replace (0 >? fsr_id) with true in H by (symmetry; apply Z.gtb_lt; lia).
    done.
Qed.

(** X13.  [findCell(univ, fsr_id)] never returns for a negative [fsr_id],
    whatever the universe: this holds for -1 too, which passes the range
    test at the head of the function. *)
Theorem findCell_fsr_negative_never_returns (fuel : nat) (g : Geometry)
    (univ : Universe) (fsr_id : Z) (r : option Cell) :
  fsr_id < 0 -> findCell_fsr fuel g univ fsr_id <> Return r.
Proof. intros Hneg. by apply findCell_fsr_negative. Qed.

Lemma simple_scan_step_inv (univ : Universe) (fsr_id : Z)
    (seen : list (Z * Cell)) (st : simple_scan) (e : Z * Cell) (o : Z) :
  Universe_getFSR univ e.1 = Return o ->
  scan_inv univ fsr_id seen st ->
  exists st', simple_scan_step univ fsr_id st e = Return st' /\
              scan_inv univ fsr_id (seen ++ [e]) st'.
Proof.
  intros Ho [Hrange Hhit Hbelow Hcell]. unfold simple_scan_step. rewrite Ho.
  cbn [mbind outcome_bind]. eexists. split; [reflexivity|].
  assert (Hsplit : forall x, x ∈ seen ++ [e] <-> x ∈ seen \/ x = e).
  { intros x. rewrite elem_of_app, list_elem_of_singleton. done. }
  destruct ((o <=? fsr_id) && (o >=? scan_max_id st)) eqn:Hupd.
  - apply andb_true_iff in Hupd as [Hle Hge].
    apply Z.leb_le in Hle. apply Z.geb_le in Hge.
    set (st1 := {| scan_cell := Some e.2; scan_max_id := o;
                   scan_cell_min := scan_cell_min st;
                   scan_min_id := scan_min_id st |}).
    assert (Hhit' :
      (exists x, x ∈ seen ++ [e] /\ Universe_getFSR univ x.1 = Return fsr_id) ->
      o = fsr_id /\
      exists x, x ∈ seen ++ [e] /\ Universe_getFSR univ x.1 = Return fsr_id /\
                Some e.2 = Some x.2).
    { intros (x & Hx & Hxo). apply Hsplit in Hx as [Hx| ->].
      - destruct Hhit as [Hm _]; [by eauto|].
        assert (o = fsr_id) by lia. subst o. split; [done|].
        exists e. rewrite Hsplit. eauto.
      - assert (o = fsr_id) by congruence. subst o. split; [done|].
        exists e. rewrite Hsplit. eauto. }
    destruct (o <? scan_min_id st1) eqn:Hmin; subst st1;
      cbn [scan_cell scan_max_id scan_cell_min scan_min_id] in *.
    + apply Z.ltb_lt in Hmin. constructor;
        cbn [scan_cell scan_max_id scan_cell_min scan_min_id].
      * lia.
      * exact Hhit'.
      * intros x ox Hx Hxo. apply Hsplit in Hx as [Hx| ->].
        -- specialize (Hbelow _ _ Hx Hxo). lia.
        -- assert (ox = o) by congruence. lia.
      * right. exists e. rewrite Hsplit. eauto.
    + apply Z.ltb_ge in Hmin. constructor;
        cbn [scan_cell scan_max_id scan_cell_min scan_min_id].
      * lia.
      * exact Hhit'.
      * intros x ox Hx Hxo. apply Hsplit in Hx as [Hx| ->].
        -- by apply (Hbelow _ _ Hx Hxo).
        -- assert (ox = o) by congruence. lia.
      * destruct Hcell as [Hc|(x & Hx & Hxc)]; [by left|].
        right. exists x. rewrite Hsplit. eauto.
  - assert (Hhit' :
      (exists x, x ∈ seen ++ [e] /\ Universe_getFSR univ x.1 = Return fsr_id) ->
      scan_max_id st = fsr_id /\
      exists x, x ∈ seen ++ [e] /\ Universe_getFSR univ x.1 = Return fsr_id /\
                scan_cell st = Some x.2).
    { intros (x & Hx & Hxo). apply Hsplit in Hx as [Hx| ->].
      - destruct Hhit as [Hm (y & Hy & Hyo & Hyc)]; [by eauto|].
        split; [done|]. exists y. rewrite Hsplit. eauto.
      - assert (o = fsr_id) by congruence. subst o.
        apply andb_false_iff in Hupd as [Hupd|Hupd].
        + apply Z.leb_gt in Hupd. lia.
        + rewrite Z.geb_leb in Hupd. apply Z.leb_gt in Hupd. lia. }
    destruct (o <? scan_min_id st) eqn:Hmin.
    + apply Z.ltb_lt in Hmin. constructor;
        cbn [scan_cell scan_max_id scan_cell_min scan_min_id].
      * done.
      * exact Hhit'.
      * intros x ox Hx Hxo. apply Hsplit in Hx as [Hx| ->].
        -- specialize (Hbelow _ _ Hx Hxo). lia.
        -- assert (ox = o) by congruence. lia.
      * right. exists e. rewrite Hsplit. eauto.
    + apply Z.ltb_ge in Hmin. constructor.
      * done.
      * exact Hhit'.
      * intros x ox Hx Hxo. apply Hsplit in Hx as [Hx| ->].
        -- by apply (Hbelow _ _ Hx Hxo).
        -- assert (ox = o) by congruence. lia.
      * destruct Hcell as [Hc|(x & Hx & Hxc)]; [by left|].
        right. exists x. rewrite Hsplit. eauto.
Qed.

Lemma simple_scan_inv (univ : Universe) (fsr_id : Z) (l : list (Z * Cell)) :
  Forall (fun e => exists o, Universe_getFSR univ e.1 = Return o) l ->
  forall seen st, scan_inv univ fsr_id seen st ->
  exists st', foldM (simple_scan_step univ fsr_id) st l = Return st' /\
              scan_inv univ fsr_id (seen ++ l) st'.
Proof.
  induction 1 as [|e l [o Ho] _ IH]; intros seen st Hinv.
  - exists st. rewrite app_nil_r. by split.
  - destruct (simple_scan_step_inv _ _ _ _ _ _ Ho Hinv) as (st1 & H1 & Hinv1).
    destruct (IH _ _ Hinv1) as (st' & H' & Hinv').
    exists st'. cbn [foldM]. rewrite H1. cbn [mbind outcome_bind].
    split; [done|]. by rewrite <- app_assoc in Hinv'.
Qed.

Lemma findCell_fsr_negative_never_returns_witness :
  findCell_fsr 3 Examples.nested_geometry Pins.pin (-1) <> Return None.
Proof.
  apply (findCell_fsr_negative_never_returns 3 Examples.nested_geometry
           Pins.pin (-1) None).
  lia.
Defined.

(** X14.  In a SIMPLE universe whose cells are all MATERIAL cells with an
    FSR offset, [findCell(univ, fsr_id)] with [0 <= fsr_id <= _num_FSRs],
    [fsr_id] below INT_MAX and equal to the offset of one of the cells
    returns a cell of the universe whose offset is [fsr_id]. *)
Theorem findCell_fsr_material_universe (fuel : nat) (g : Geometry)
    (univ : Universe) (fsr_id : Z) (hit : Z * Cell) :
  Universe_getType univ = SIMPLE ->
  Forall (fun e => Cell_getType e.2 = MATERIAL /\
                   exists o, Universe_getFSR univ e.1 = Return o)
    (Universe_getCells univ) ->
  0 <= fsr_id <= _num_FSRs g -> fsr_id < INT_MAX ->
  hit ∈ Universe_getCells univ ->
  Universe_getFSR univ hit.1 = Return fsr_id ->
  exists e, e ∈ Universe_getCells univ /\
            Universe_getFSR univ e.1 = Return fsr_id /\
            findCell_fsr (S fuel) g univ fsr_id = Return (Some e.2).
Proof.
  intros Htype Hcells Hrange Hint Hhit Hoff.
  cbn [findCell_fsr].
  replace ((fsr_id <? -1) || (fsr_id >? _num_FSRs g)) with false.
  2:{ symmetry. apply orb_false_iff. split; [apply Z.ltb_ge; lia|].
      rewrite Z.gtb_ltb. apply Z.ltb_ge. lia. }
  rewrite Htype.
  assert (Hdef : Forall (fun e => exists o, Universe_getFSR univ e.1 = Return o)
                   (Universe_getCells univ)).
  { eapply Forall_impl; [exact Hcells|]. by intros e [_ ?]. }
  destruct (simple_scan_inv univ fsr_id _ Hdef []
              {| scan_cell := None; scan_max_id := 0;
                 scan_cell_min := None; scan_min_id := INT_MAX |})
    as (st & -> & [Hmax Hfound Hbelow Hcell]).
  { constructor; cbn [scan_cell scan_max_id scan_cell_min scan_min_id].
    - lia.
    - intros (x & Hx & _). by apply elem_of_nil in Hx.
    - intros x ox Hx. by apply elem_of_nil in Hx.
    - by left. }
  cbn [mbind outcome_bind app] in *.
  destruct Hfound as (Hm & e & He & Heo & Hec); [by eauto|].
  specialize (Hbelow _ _ Hhit Hoff).
  destruct Hcell as [Hc|(x & Hx & Hxc)]; [lia|].
  replace (scan_max_id st >? fsr_id) with false
    by (symmetry; rewrite Z.gtb_ltb; apply Z.ltb_ge; lia).
  rewrite Hxc. rewrite Forall_forall in Hcells.
  destruct (Hcells _ Hx) as [-> _].
  replace (fsr_id - scan_max_id st =? 0) with true
    by (symmetry; apply Z.eqb_eq; lia).
  exists e. by rewrite Hec.
Qed.

(** Universe 1 of the two pins: cell 11 has offset 1. *)
Lemma findCell_fsr_material_universe_witness :
  exists e, e ∈ Universe_getCells Pins.pin /\
            Universe_getFSR Pins.pin e.1 = Return 1 /\
            findCell_fsr 1 Examples.two_pins_geometry Pins.pin 1
            = Return (Some e.2).
Proof.
  apply (findCell_fsr_material_universe 0 Examples.two_pins_geometry Pins.pin 1
           (11, Examples.inner_east)).
  - reflexivity.
  - repeat constructor; eexists; vm_compute; reflexivity.
  - vm_compute. split; discriminate.
  - reflexivity.
  - apply list_elem_of_lookup. exists 1%nat. reflexivity.
  - vm_compute. reflexivity.
Defined.

(** *** What [segmentize] appends *)

Lemma dlt_irreflexive (a : double) : dlt a a = false.
Proof. destruct a; try done. apply dlt_irrefl. Qed.

Lemma within_max (len mx mx' : double) :
  dgt len mx = false ->
  mx' = mx \/ dgt mx' mx = true ->
  dgt len mx' = false.
Proof.
  intros Hlen [->|Hgrow]; [done|].
  destruct (dgt len mx') eqn:E; [|done].
  unfold dgt in *. by rewrite (dlt_transitive _ _ _ Hgrow E) in Hlen.
Qed.

Lemma within_min (len mn mn' : double) :
  dlt len mn = false ->
  mn' = mn \/ dlt mn' mn = true ->
  dlt len mn' = false.
Proof.
  intros Hlen [->|Hgrow]; [done|].
  destruct (dlt len mn') eqn:E; [|done].
  by rewrite (dlt_transitive _ _ _ E Hgrow) in Hlen.
Qed.

Section Segments.
Context `{Primitives}.

Lemma segmentize_loop_segmentized (fuel : nat) :
  forall g track curr segment_end g' track',
  segmentize_loop fuel g track curr segment_end = Return (g', track') ->
  exists new, segmentized g track g' track' new /\ (curr <> None -> new <> []).
Proof.
  induction fuel as [|fuel IH]; intros g track curr segment_end g' track' Hrun;
    [done|].
  rewrite segmentize_loop_S in Hrun.
  destruct curr as [prev|].
  2:{ inversion Hrun; subst. exists []. split; [|done].
      constructor; try done; try (by left).
      - by destruct g'.
      - by rewrite app_nil_r. }
  cbv zeta in Hrun.
  apply bind_Return in Hrun as ([next moved] & Hnext & Hrun).
  destruct segment_end as [|start below]; [done|].
  destruct moved as [|end_ below']; [done|].
  apply bind_Return in Hrun as (material & Hmat & Hrun).
  apply bind_Return in Hrun as (region_id & Hfsr & Hrun).
  destruct (deq (LocalCoords_getX start) (LocalCoords_getX end_)
            && deq (LocalCoords_getY start) (LocalCoords_getY end_));
    [done|].
  apply IH in Hrun as (new & [Hg Hs Hp Happ Hmats Hext Hmax Hmin] & _).
  set (len := Point_distance (LocalCoords_getPoint end_)
                (LocalCoords_getPoint start)) in *.
  cbn [_max_seg_length _min_seg_length set_seg_lengths] in Hmax, Hmin.
  eexists ({| _length := len; _material := material;
              _region_id := region_id |} :: new).
  split; [|done]. constructor.
  - rewrite Hg at 1. reflexivity.
  - exact Hs.
  - exact Hp.
  - rewrite Happ. cbn [Track_segments Track_addSegment].
    by rewrite <- app_assoc.
  - constructor; [|exact Hmats].
    unfold at_ in Hmat.
    destruct (_materials g !! Cell_getMaterial prev) as [m|] eqn:Hm;
      [|discriminate].
    inversion Hmat; subst. by exists (Cell_getMaterial prev).
  - constructor; [|exact Hext]. split; cbn [_length].
    + eapply within_max; [|exact Hmax].
      destruct (dgt len (_max_seg_length g)) eqn:E; [|done].
      apply dlt_irreflexive.
    + eapply within_min; [|exact Hmin].
      destruct (dlt len (_min_seg_length g)) eqn:E; [|done].
      apply dlt_irreflexive.
  - destruct (dgt len (_max_seg_length g)) eqn:E.
    + right. destruct Hmax as [->|Hmax]; [done|].
      unfold dgt in *. by eapply dlt_transitive.
    + exact Hmax.
  - destruct (dlt len (_min_seg_length g)) eqn:E.
    + right. destruct Hmin as [->|Hmin]; [done|].
      by eapply dlt_transitive.
    + exact Hmin.
Qed.

Lemma segmentize_segmentized (fuel : nat) (g g' : Geometry)
    (track track' : Track) :
  segmentize fuel g track = Return (g', track') ->
  exists new, segmentized g track g' track' new /\ new <> [].
Proof.
  unfold segmentize. cbv zeta. intros Hrun.
  apply bind_Return in Hrun as ([curr segment_end] & _ & Hrun).
  destruct curr as [first|]; [|done].
  apply segmentize_loop_segmentized in Hrun as (new & Hseg & Hne).
  exists new. split; [done|]. by apply Hne.
Qed.

(** X15.  When [segmentize] returns, the geometry differs from the one it
    started with in [_max_seg_length] and [_min_seg_length] at most, the
    track keeps its start point and angle, at least one segment was
    appended behind the segments the track had, and the material of every
    appended segment is registered. *)
Theorem segmentize_appends (fuel : nat) (g g' : Geometry)
    (track track' : Track) :
  segmentize fuel g track = Return (g', track') ->
  g' = set_seg_lengths g (_max_seg_length g') (_min_seg_length g') /\
  Track_getStart track' = Track_getStart track /\
  Track_getPhi track' = Track_getPhi track /\
  exists new, new <> [] /\
    Track_segments track' = Track_segments track ++ new /\
    Forall (registered_material g) new.
Proof.
  intros Hrun. apply segmentize_segmentized in Hrun as (new & [] & Hne).
  split_and!; try done. by exists new.
Qed.

(** X16.  When [segmentize] returns, [_max_seg_length] is where it was or
    greater, [_min_seg_length] where it was or smaller, and no appended
    segment is longer than [_max_seg_length] or shorter than
    [_min_seg_length]. *)
Theorem segmentize_extremes (fuel : nat) (g g' : Geometry)
    (track track' : Track) :
  segmentize fuel g track = Return (g', track') ->
  (_max_seg_length g' = _max_seg_length g \/
   dgt (_max_seg_length g') (_max_seg_length g) = true) /\
  (_min_seg_length g' = _min_seg_length g \/
   dlt (_min_seg_length g') (_min_seg_length g) = true) /\
  exists new,
    Track_segments track' = Track_segments track ++ new /\
    Forall (within_extremes g') new.
Proof.
  intros Hrun. apply segmentize_segmentized in Hrun as (new & [] & Hne).
  split_and!; try done. by exists new.
Qed.

End Segments.

(** The track through the two pins: four segments. *)
Lemma segmentize_appends_witness :
  Pins.segmentized_track.1
  = set_seg_lengths Examples.two_pins_geometry
      (_max_seg_length Pins.segmentized_track.1)
      (_min_seg_length Pins.segmentized_track.1) /\
  Track_getStart Pins.segmentized_track.2 = Track_getStart Pins.track /\
  Track_getPhi Pins.segmentized_track.2 = Track_getPhi Pins.track /\
  exists new, new <> [] /\
    Track_segments Pins.segmentized_track.2 = Track_segments Pins.track ++ new /\
    Forall (registered_material Examples.two_pins_geometry) new.
Proof.
  apply (@segmentize_appends Pins.world 10). vm_compute. reflexivity.
Defined.

Lemma segmentize_extremes_witness :
  (_max_seg_length Pins.segmentized_track.1
   = _max_seg_length Examples.two_pins_geometry \/
   dgt (_max_seg_length Pins.segmentized_track.1)
     (_max_seg_length Examples.two_pins_geometry) = true) /\
  (_min_seg_length Pins.segmentized_track.1
   = _min_seg_length Examples.two_pins_geometry \/
   dlt (_min_seg_length Pins.segmentized_track.1)
     (_min_seg_length Examples.two_pins_geometry) = true) /\
  exists new,
    Track_segments Pins.segmentized_track.2 = Track_segments Pins.track ++ new /\
    Forall (within_extremes Pins.segmentized_track.1) new.
Proof.
  apply (@segmentize_extremes Pins.world 10 Examples.two_pins_geometry
           Pins.segmentized_track.1 Pins.track Pins.segmentized_track.2).
  vm_compute. reflexivity.
Defined.

(** *** The retrace loop and the lattice branch *)

Lemma retrace_pruned (l : chain) : forall up,
  retrace l = Return (Some up) ->
  exists dropped prev above,
    l = dropped ++ up /\ dropped <> [] /\ up = prev :: above /\
    LocalCoords_getType prev = LAT /\
    Forall (fun node => LocalCoords_getUniverse node <> 0) dropped.
Proof.
  induction l as [|curr above IH]; intros up Hrun; [done|].
  cbn [retrace] in Hrun.
  destruct (Z.eqb_spec (LocalCoords_getUniverse curr) 0) as [|Hu]; [done|].
  destruct above as [|prev above']; [done|].
  destruct (LocalCoords_getType prev) eqn:Hty.
  - apply IH in Hrun as (dropped & p & ab & Hl & _ & Hup & Hlat & Hall).
    exists (curr :: dropped), p, ab. split_and!; try done.
    + cbn [app]. by rewrite <- Hl.
    + by constructor.
  - inversion Hrun; subst.
    exists [curr], prev, above'. split_and!; try done.
    by repeat constructor.
Qed.

Lemma retrace_rooted (l : chain) (root : LocalCoords) :
  last l = Some root -> LocalCoords_getUniverse root = 0 ->
  exists r, retrace l = Return r.
Proof.
  intros Hlast Hroot. induction l as [|curr above IH]; [done|].
  cbn [retrace].
  destruct (Z.eqb_spec (LocalCoords_getUniverse curr) 0) as [|Hu]; [by eauto|].
  destruct above as [|prev above'].
  - cbn in Hlast. inversion Hlast; subst. done.
  - destruct (LocalCoords_getType prev); [|by eauto].
    apply IH. by rewrite last_cons_cons in Hlast.
Qed.

Lemma retrace_from_lowest_cases (coords : chain) :
  (forall coords', retrace_from_lowest coords = Return coords' ->
     exists dropped, coords = coords' ++ dropped /\
       Forall (fun node => LocalCoords_getUniverse node <> 0) dropped /\
       (dropped <> [] ->
        exists lowest, last coords' = Some lowest /\
                       LocalCoords_getType lowest = LAT)) /\
  (forall head below, coords = head :: below ->
     LocalCoords_getUniverse head = 0 ->
     exists coords', retrace_from_lowest coords = Return coords').
Proof.
  unfold retrace_from_lowest. split.
  - intros coords' Hrun. apply bind_Return in Hrun as (pruned & Hre & Hrun).
    inversion Hrun as [Hc]. clear Hrun. destruct pruned as [up|].
    + apply retrace_pruned in Hre
        as (dropped & prev & above & Hl & Hne & -> & Hlat & Hall).
      exists (reverse dropped). split_and!.
      * rewrite <- reverse_app, <- Hl. by rewrite reverse_involutive.
      * by apply Forall_reverse.
      * intros _. exists prev. split; [|done].
        rewrite reverse_cons. by rewrite last_snoc.
    + exists []. rewrite app_nil_r. split_and!; done.
  - intros head below -> Hroot.
    destruct (retrace_rooted (reverse (head :: below)) head) as [r ->]; [|done|].
    + rewrite reverse_cons. by rewrite last_snoc.
    + cbn [mbind outcome_bind]. eauto.
Qed.

(** X17.  The loop of [findNextCell] that retraces the list from its
    lowest level only cuts nodes off its end: the nodes cut off are outside
    universe 0, and when some were cut off the new lowest level is a LATTICE
    node.  On a list whose head is in universe 0 the loop ends without
    reading through a NULL pointer. *)
Theorem retrace_from_lowest_prunes (coords : chain) :
  (forall coords', retrace_from_lowest coords = Return coords' ->
     exists dropped, coords = coords' ++ dropped /\
       Forall (fun node => LocalCoords_getUniverse node <> 0) dropped /\
       (dropped <> [] ->
        exists lowest, last coords' = Some lowest /\
                       LocalCoords_getType lowest = LAT)) /\
  (forall head below, coords = head :: below ->
     LocalCoords_getUniverse head = 0 ->
     exists coords', retrace_from_lowest coords = Return coords').
Proof. apply retrace_from_lowest_cases. Qed.

Section Crossing.
Context `{Primitives}.

Lemma lattice_crossing_result (fuel : nat) : forall g coords angle r coords',
  lattice_crossing fuel g coords angle = Return (r, coords') ->
  match r with
  | None =>
      exists root, last coords' = Some root /\ LocalCoords_getUniverse root = 0
  | Some cell =>
      exists lowest lattice from,
        last from = Some lowest /\ LocalCoords_getType lowest = LAT /\
        _lattices g !! LocalCoords_getLattice lowest = Some lattice /\
        Lattice_findNextLatticeCell lattice from angle (_universes g)
        = Return (Some cell, coords')
  end.
Proof.
  induction fuel as [|fuel IH]; intros g coords angle r coords' Hrun; [done|].
  rewrite lattice_crossing_S in Hrun.
  destruct (last coords) as [curr|] eqn:Hlast; [|done].
  destruct (Z.eqb_spec (LocalCoords_getUniverse curr) 0) as [Hroot|Hu].
  { inversion Hrun; subst. by exists curr. }
  destruct (LocalCoords_getType curr) eqn:Hty; [by apply IH in Hrun|].
  apply bind_Return in Hrun as (lattice & Hlat & Hrun).
  apply bind_Return in Hrun as ([cell moved] & Hstep & Hrun).
  unfold at_ in Hlat.
  destruct (_lattices g !! LocalCoords_getLattice curr) as [lat|] eqn:Hl;
    [|discriminate].
  inversion Hlat; subst lat. clear Hlat.
  destruct cell as [c|].
  - inversion Hrun; subst. by exists curr, lattice, coords.
  - destruct (length coords - 1)%nat; [done|].
    apply bind_Return in Hrun as (pruned & _ & Hrun). by apply IH in Hrun.
Qed.

(** X18.  The branch of [findNextCell] taken when no surface lies ahead
    returns NULL only with the lowest level of the list in universe 0, and
    returns a cell only as the answer of [findNextLatticeCell] of a
    registered lattice, called on a list whose lowest level is a LATTICE
    node, with the coordinates as that call leaves them. *)
Theorem leave_by_lattice_result (fuel : nat) (g : Geometry) (coords : chain)
    (angle : double) (coords' : chain) :
  (leave_by_lattice fuel g coords angle = Return (None, coords') ->
   exists root, last coords' = Some root /\ LocalCoords_getUniverse root = 0) /\
  (forall cell,
     leave_by_lattice fuel g coords angle = Return (Some cell, coords') ->
     exists lowest lattice from,
       last from = Some lowest /\ LocalCoords_getType lowest = LAT /\
       getLattice g (LocalCoords_getLattice lowest) = Return lattice /\
       Lattice_findNextLatticeCell lattice from angle (_universes g)
       = Return (Some cell, coords')).
Proof.
  unfold leave_by_lattice. split.
  - intros Hrun. apply bind_Return in Hrun as (pruned & _ & Hrun).
    by apply lattice_crossing_result in Hrun.
  - intros cell Hrun. apply bind_Return in Hrun as (pruned & _ & Hrun).
    apply lattice_crossing_result in Hrun
      as (lowest & lattice & from & ? & ? & Hl & ?).
    exists lowest, lattice, from. unfold getLattice. by rewrite Hl.
Qed.

End Crossing.

(** *** [initializeFlatSourceRegions] *)


(** X19.  [initializeFlatSourceRegions] ends with [std::out_of_range] when
    a registered FILL cell names a universe that is not registered, or when
    there is no universe 0, whatever [subdivideCells] and [computeFSRMaps]
    of the universes do. *)
Theorem initializeFlatSourceRegions_unresolved
    (Universe_subdivideCells : Universe -> Universe)
    (Universe_computeFSRMaps :
       gmap Z Universe -> Z -> outcome (Z * gmap Z Universe))
    (fuel : nat) (g : Geometry) :
  (exists id cell, dangling_fill g id cell) \/ _universes g !! 0 = None ->
  initializeFlatSourceRegions Universe_subdivideCells Universe_computeFSRMaps
    fuel g = Abort OutOfRange.
Proof.
  intros Hbad. unfold initializeFlatSourceRegions.
  destruct (initializeCellFillPointers_cases g) as [[-> Hnone]|[-> _]];
    cbn [mbind outcome_bind]; [|done].
  destruct Hbad as [(id & cell & Hd)|H0]; [by destruct (Hnone id cell)|].
  unfold at_, subdivideCells. cbn [_universes set_lattices set_universes].
  rewrite lookup_fmap, H0. done.
Qed.

(** The FILL cell 1 names universe 8, which is not registered. *)
Lemma initializeFlatSourceRegions_unresolved_witness :
  initializeFlatSourceRegions (fun u => u)
    (World.computeFSRMaps World.max_depth) 4 Pins.dangling
  = Abort OutOfRange.
Proof.
  apply (initializeFlatSourceRegions_unresolved (fun u => u)
           (World.computeFSRMaps World.max_depth) 4 Pins.dangling).
  left. exists 1, (Examples.fill_cell 1 0 8 [(-5, Examples.middle_plane)]).
  split_and!; vm_compute; reflexivity.
Defined.



(** *** What the registered entities refer to *)

Lemma cell_closed_extends (g g' : Geometry) (cell : Cell) :
  extends g g' -> cell_closed g cell -> cell_closed g' cell.
Proof.
  intros [HM HS _ HU _] (Hm & Hs & Hu). split_and!.
  - intros Ht. destruct (Hm Ht) as [m Hl]. exists m. by eapply lookup_weaken.
  - eapply Forall_impl; [exact Hs|]. intros e [s Hl]. exists s.
    by eapply lookup_weaken.
  - by apply HU.
Qed.

Lemma run_call_cells (g g' : Geometry) (c : call) :
  run_call g c = Return g' ->
  _cells g' = match c with
              | AddCell cell => <[Cell_getId cell := cell]> (_cells g)
              | _ => _cells g
              end.
Proof.
  intros H. destruct c as [m|s|c|u|lat]; cbn [run_call] in H.
  - by apply addMaterial_inv in H as (_ & _ & _ & _ & ->).
  - apply addSurface_keeps in H as [Hk _]. by injection Hk.
  - apply addCell_inv in H as (_ & _ & g1 & _ & ->). cbv zeta.
    by destruct (found (_lattices g) (Cell_getUniverse c)).
  - by apply addUniverse_inv in H as [_ ->].
  - by apply addLattice_inv in H as (_ & _ & _ & ->).
Qed.

Lemma addCell_closed (g g' : Geometry) (c : Cell) :
  addCell g c = Return g' -> cell_closed g' c.
Proof.
  intros H. apply addCell_inv in H as (_ & Hm & g1 & H1 & ->).
  apply addSurfaces_keeps in H1 as (Hk & _ & Hall).
  injection Hk as _ _ _ _ HM _ _ _. cbv zeta.
  rewrite Forall_fmap in Hall.
  destruct (found (_lattices g) (Cell_getUniverse c)); split_and!;
    cbn [_materials _surfaces _universes set_lattices set_universes set_cells];
    rewrite ?HM; try done; rewrite lookup_insert_eq; by eexists.
Qed.

Lemma cells_closed_step (g g' : Geometry) (c : call) :
  (forall id cell, _cells g !! id = Some cell -> cell_closed g cell) ->
  run_call g c = Return g' ->
  forall id cell, _cells g' !! id = Some cell -> cell_closed g' cell.
Proof.
  intros Hinv H id cell Hcell.
  pose proof (extends_step _ _ _ H) as Hext.
  rewrite (run_call_cells _ _ _ H) in Hcell.
  destruct c as [m|s|c|u|lat];
    try (eapply cell_closed_extends; [exact Hext|by eapply Hinv]).
  destruct (decide (id = Cell_getId c)) as [->|Hne].
  - rewrite lookup_insert_eq in Hcell. inversion Hcell; subst.
    by apply (addCell_closed g).
  - rewrite lookup_insert_ne in Hcell by done.
    eapply cell_closed_extends; [exact Hext|by eapply Hinv].
Qed.

(** X21.  In a geometry built from the constructor by calls of the five
    [add] members, every registered cell refers to registered entities: the
    material of a MATERIAL cell, every surface of the cell and the universe
    the cell belongs to. *)
Theorem getCell_closed (cs : list call) (g : Geometry) (id : Z) (cell : Cell) :
  build cs = Return g -> getCell g id = Return cell -> cell_closed g cell.
Proof.
  intros Hb Hget.
  assert (Hinv : forall id cell, _cells g !! id = Some cell -> cell_closed g cell).
  { eapply (run_calls_invariant
              (fun g => forall id cell, _cells g !! id = Some cell ->
                                        cell_closed g cell));
      [apply cells_closed_step| |exact Hb].
    intros k v. cbn. by rewrite lookup_empty. }
  unfold getCell in Hget.
  destruct (_cells g !! id) as [c|] eqn:Hc; [|discriminate].
  inversion Hget; subst. by eapply Hinv.
Qed.

Lemma getCell_closed_witness : cell_closed Pins.built Examples.inner_east.
Proof.
  apply (getCell_closed Pins.calls Pins.built 11); vm_compute; reflexivity.
Defined.

Lemma lattice_closed_universes (g g' : Geometry) (id : Z) (lat : Universe) :
  (forall k, is_Some (_universes g !! k) -> is_Some (_universes g' !! k)) ->
  lattice_closed g id lat -> lattice_closed g' id lat.
Proof.
  intros Hext Hc i j Hi Hj. destruct (Hc i j Hi Hj) as (uid & ? & ? & ?).
  exists uid. split_and!; auto.
Qed.

Lemma lattices_closed_step (g g' : Geometry) (c : call) :
  _lattices g ⊆ _universes g ->
  (forall id lat, _lattices g !! id = Some lat -> lattice_closed g id lat) ->
  run_call g c = Return g' ->
  forall id lat, _lattices g' !! id = Some lat -> lattice_closed g' id lat.
Proof.
  intros Hshared Hinv H id lat Hlat.
  pose proof (extends_step _ _ _ H) as [_ _ _ Hext _].
  destruct c as [m|s|c|u|l]; cbn [run_call] in H.
  - apply addMaterial_inv in H as (_ & _ & _ & _ & ->).
    eapply lattice_closed_universes; [exact Hext|]. by apply Hinv.
  - pose proof (addSurface_keeps _ _ _ H) as [Hk _].
    injection Hk as _ _ _ _ _ _ _ HL. rewrite HL in Hlat.
    eapply lattice_closed_universes; [exact Hext|]. by apply Hinv.
  - eapply lattice_closed_universes; [exact Hext|].
    apply addCell_inv in H as (_ & _ & g1 & H1 & ->).
    apply addSurfaces_keeps in H1 as [Hk _].
    injection Hk as _ _ _ _ _ _ _ HL. cbv zeta in Hlat.
    destruct (found (_lattices g) (Cell_getUniverse c)) eqn:Hf;
      cbn [_lattices set_lattices set_universes set_cells] in Hlat.
    + destruct (decide (id = Cell_getUniverse c)) as [->|Hne].
      * rewrite lookup_insert_eq in Hlat. inversion Hlat; subst. clear Hlat.
        apply found_true in Hf as [lat0 Hl0].
        rewrite map_subseteq_spec in Hshared.
        rewrite (Hshared _ _ Hl0). cbn [default].
        intros i j Hi Hj. by apply (Hinv _ _ Hl0 i j).
      * rewrite lookup_insert_ne in Hlat by done. by apply Hinv.
    + rewrite HL in Hlat. by apply Hinv.
  - eapply lattice_closed_universes; [exact Hext|].
    apply addUniverse_inv in H as [_ ->]. by apply Hinv.
  - apply addLattice_inv in H as (Hl & Hu & Hall & ->).
    cbn [_lattices set_lattices set_universes] in Hlat.
    destruct (decide (id = Universe_getId l)) as [->|Hne].
    + rewrite lookup_insert_eq in Hlat. inversion Hlat; subst. clear Hlat.
      intros i j Hi Hj. destruct (Hall i j Hi Hj) as (uid & Hat & Hreg).
      exists uid. split_and!; [done| |].
      * intros ->. rewrite Hu in Hreg. by destruct Hreg.
      * cbn [_universes set_universes]. by apply is_Some_insert_keep.
    + rewrite lookup_insert_ne in Hlat by done.
      eapply lattice_closed_universes; [|by apply Hinv].
      intros k. cbn [_universes set_universes]. apply is_Some_insert_keep.
Qed.

(** X22.  In a geometry built from the constructor by calls of the five
    [add] members, every lattice cell [(i, j)] with [i < num_y],
    [j < num_x] of a registered lattice holds the id of a registered
    universe other than the lattice itself, also after universes and cells
    were added since. *)
Theorem getLattice_closed (cs : list call) (g : Geometry) (id : Z)
    (lat : Universe) :
  build cs = Return g -> getLattice g id = Return lat -> lattice_closed g id lat.
Proof.
  intros Hb Hget.
  assert (Hinv : _lattices g ⊆ _universes g /\
                 forall id lat, _lattices g !! id = Some lat ->
                                lattice_closed g id lat).
  { eapply (run_calls_invariant
              (fun g => _lattices g ⊆ _universes g /\
                        forall id lat, _lattices g !! id = Some lat ->
                                       lattice_closed g id lat));
      [| |exact Hb].
    - intros g0 g1 c [Hs Hc] Hstep. split.
      + by eapply lattices_shared_step.
      + by eapply lattices_closed_step.
    - split; [cbn; apply map_empty_subseteq|].
      intros k v. cbn. by rewrite lookup_empty. }
  unfold getLattice in Hget.
  destruct (_lattices g !! id) as [l|] eqn:Hl; [|discriminate].
  inversion Hget; subst. by apply (proj2 Hinv).
Qed.

Lemma getLattice_closed_witness : lattice_closed Pins.built 8 Examples.pins.
Proof.
  apply (getLattice_closed Pins.calls Pins.built 8); vm_compute; reflexivity.
Defined.

(** *** Flat source region of a coordinate list *)

Lemma at2_cases {V : Type} (t : list (list V)) (i j : Z) :
  (exists row v, 0 <= i /\ 0 <= j /\ t !! Z.to_nat i = Some row /\
                 row !! Z.to_nat j = Some v /\ at2 t i j = Return v) \/
  (at2 t i j = Abort OutOfRange /\
   forall row v, 0 <= i -> 0 <= j -> t !! Z.to_nat i = Some row ->
                 row !! Z.to_nat j = Some v -> False).
Proof.
  unfold at2.
  destruct (Z.ltb_spec i 0); [right; split; [done|intros; lia]|].
  destruct (Z.ltb_spec j 0); [right; split; [done|intros; lia]|].
  cbn [orb].
  destruct (t !! Z.to_nat i) as [row|] eqn:Hrow; [|by right].
  destruct (row !! Z.to_nat j) as [v|] eqn:Hv.
  - left. by exists row, v.
  - right. split; [done|]. intros row' v' _ _ [= <-]. by rewrite Hv.
Qed.

(** One turn of the loop of [findFSRId]: the level has an offset, which is
    added, or the turn ends with [std::out_of_range]. *)
Lemma findFSRId_level (g : Geometry) (curr : LocalCoords) (fsr_id : Z) :
  let turn :=
    match LocalCoords_getType curr with
    | LAT =>
        lattice ← at_ (_lattices g) (LocalCoords_getLattice curr);
        fsr ← Lattice_getFSR lattice (LocalCoords_getLatticeX curr)
                (LocalCoords_getLatticeY curr);
        Return (int_add fsr_id fsr)
    | UNIV =>
        universe ← at_ (_universes g) (LocalCoords_getUniverse curr);
        fsr ← Universe_getFSR universe (LocalCoords_getCell curr);
        Return (int_add fsr_id fsr)
    end in
  (exists fsr, level_offset g curr fsr /\ turn = Return (int_add fsr_id fsr)) \/
  (turn = Abort OutOfRange /\ forall fsr, ~ level_offset g curr fsr).
Proof.
  cbv zeta. unfold at_.
  destruct (LocalCoords_getType curr) eqn:Hty.
  - destruct (_universes g !! LocalCoords_getUniverse curr) as [u|] eqn:Hu;
      cbn [mbind outcome_bind].
    + unfold Universe_getFSR.
      destruct (map_find (Universe_region_map u) (LocalCoords_getCell curr))
        as [fsr|] eqn:Hm; cbn [mbind outcome_bind].
      * left. exists fsr. split; [|done]. by eapply universe_offset.
      * right. split; [done|]. intros fsr [u' Hty' Hu' Hm'|? ? Hty']; congruence.
    + right. split; [done|]. intros fsr [u' Hty' Hu' Hm'|? ? Hty']; congruence.
  - destruct (_lattices g !! LocalCoords_getLattice curr) as [lat|] eqn:Hl;
      cbn [mbind outcome_bind].
    + unfold Lattice_getFSR.
      destruct (at2_cases (Lattice_region_map lat)
                  (LocalCoords_getLatticeY curr) (LocalCoords_getLatticeX curr))
        as [(row & fsr & Hy & Hx & Hrow & Hv & ->)|[-> Hnone]];
        cbn [mbind outcome_bind].
      * left. exists fsr. split; [|done]. by eapply lattice_offset.
      * right. split; [done|].
        intros fsr [? Hty'|lat' row Hty' Hl' Hx Hy Hrow Hv]; [congruence|].
        rewrite Hl in Hl'. inversion Hl'; subst lat'. by eapply Hnone.
    + right. split; [done|].
      intros fsr [? Hty'|lat' row Hty' Hl']; congruence.
Qed.

Lemma findFSRId_cases (g : Geometry) (coords : chain) : forall acc,
  ((exists offsets, Forall2 (level_offset g) coords offsets) /\
   exists fsr_id,
     foldM (fun fsr_id curr =>
              match LocalCoords_getType curr with
              | LAT =>
                  lattice ← at_ (_lattices g) (LocalCoords_getLattice curr);
                  fsr ← Lattice_getFSR lattice (LocalCoords_getLatticeX curr)
                          (LocalCoords_getLatticeY curr);
                  Return (int_add fsr_id fsr)
              | UNIV =>
                  universe ← at_ (_universes g) (LocalCoords_getUniverse curr);
                  fsr ← Universe_getFSR universe (LocalCoords_getCell curr);
                  Return (int_add fsr_id fsr)
              end) acc coords = Return fsr_id) \/
  ((~ exists offsets, Forall2 (level_offset g) coords offsets) /\
   foldM (fun fsr_id curr =>
            match LocalCoords_getType curr with
            | LAT =>
                lattice ← at_ (_lattices g) (LocalCoords_getLattice curr);
                fsr ← Lattice_getFSR lattice (LocalCoords_getLatticeX curr)
                        (LocalCoords_getLatticeY curr);
                Return (int_add fsr_id fsr)
            | UNIV =>
                universe ← at_ (_universes g) (LocalCoords_getUniverse curr);
                fsr ← Universe_getFSR universe (LocalCoords_getCell curr);
                Return (int_add fsr_id fsr)
            end) acc coords = Abort OutOfRange).
Proof.
  induction coords as [|curr coords IH]; intros acc.
  - left. split; [exists []; constructor|by exists acc].
  - cbn [foldM].
    destruct (findFSRId_level g curr acc) as [(fsr & Hoff & ->)|[-> Hnone]];
      cbn [mbind outcome_bind].
    + destruct (IH (int_add acc fsr)) as [[[offsets Hall] Hret]|[Hnot Hab]].
      * left. split; [|done]. exists (fsr :: offsets). by constructor.
      * right. split; [|done]. intros [offsets Hall]. apply Hnot.
        apply Forall2_cons_inv_l in Hall as (? & rest & _ & ? & _).
        by exists rest.
    + right. split; [|done]. intros [offsets Hall].
      apply Forall2_cons_inv_l in Hall as (fsr & ? & Hoff & _).
      by apply (Hnone fsr).
Qed.

(** X23.  [findFSRId] returns exactly when every level of the coordinate
    list has an FSR offset: the universe of a UNIVERSE node is registered
    and keeps an offset for the recorded cell, the lattice of a LATTICE
    node is registered and keeps an offset for the recorded lattice cell.
    Otherwise it ends with the [std::out_of_range] of the lookup that
    fails. *)
Theorem findFSRId_outcome (g : Geometry) (coords : chain) :
  ((exists offsets, Forall2 (level_offset g) coords offsets) /\
   exists fsr_id, findFSRId g coords = Return fsr_id) \/
  ((~ exists offsets, Forall2 (level_offset g) coords offsets) /\
   findFSRId g coords = Abort OutOfRange).
Proof. apply findFSRId_cases. Qed.
